(** * UhCut timeline editor: timeline model, history engine, silence ripple
      and thumbnail cache.

    Three copies of the editor engine are embedded, each in a module of
    its own:

    - [StateService] : [src/ui/src/app/services/state.ts] (Angular service);
    - [Script]       : [src/script.js] (single flat audio track);
    - [Part003]      : the second script of [src/unnamed/part_003]
                       (two audio lanes, JSON-string history).

    Around them stand the components that drive them: the Angular
    timeline, toolbar and player with its audio pool ([Timeline],
    [Toolbar], [Player], [AudioService], put together in [App]), the
    zoom, the filmstrip and the playback engine of [src/script.js]
    ([ScriptView], [ScriptPlayer]), and the drag and the audio
    extraction of [part_003] ([Part003Tools]).

    Conventions of the embedding.

    - A JavaScript number is an exact rational ([Q]); comparisons are by
      value ([Qle_bool], [Qeq_bool]), [Math.floor] is [Qfloor], [Math.max]
      and [Math.min] are [Math_max] and [Math_min].  The rounding of
      binary64 arithmetic is not represented; the margin of the guard of
      [splitClip()] in [state.ts] is the binary64 number that its
      literal denotes ([StateService.splitMargin]); a read outside an
      array (the [NaN] of the audio scan) is an [option].
    - A JavaScript array is a [list] in index order: [push] appends at the
      end, [pop] removes the last element, [shift] removes the first.
    - A clip object is a record; keys that some clips lack ([volume],
      [isSilence], [stabilized]) are [option] fields.
    - Identifiers built from [Date.now()] and [Math.random()] are supplied
      by the caller of the embedded operation.
    - A history snapshot is kept as the value that its JSON text denotes:
      [JSON.parse] of [JSON.stringify] is the identity on this data, and
      two texts are equal exactly when the values are (numbers by value). *)

From Stdlib Require Import QArith Qabs Qround ZArith String Bool List Lia Lqa.
Import ListNotations.

(** ** JavaScript arrays *)

Section Arrays.
Context {A : Type}.

(** [a.push(x)] *)
Definition push (a : list A) (x : A) : list A := a ++ [x].

(** [a[a.length - 1]]; [None] stands for [undefined]. *)
Fixpoint top (a : list A) : option A :=
  match a with
  | [] => None
  | [x] => Some x
  | _ :: r => top r
  end.

(** [a.pop()] : the popped element together with the shortened array. *)
Definition pop (a : list A) : option (A * list A) :=
  match top a with
  | Some x => Some (x, removelast a)
  | None => None
  end.

(** [a.shift()] (the removed element is never used by the editor). *)
Definition shift (a : list A) : list A := tl a.

(** [h.push(x); if (h.length > 50) h.shift()], the tail of every
    [saveState]. *)
Definition pushCapped (h : list A) (x : A) : list A :=
  if (50 <? length (push h x))%nat then shift (push h x) else push h x.

(** [a.findIndex(p)]; [None] stands for [-1]. *)
Fixpoint findIndex (p : A -> bool) (a : list A) : option nat :=
  match a with
  | [] => None
  | x :: r => if p x then Some 0%nat else option_map S (findIndex p r)
  end.

(** [a[i] = x] on a copy of [a], for an index inside the array. *)
Fixpoint assign (a : list A) (i : nat) (x : A) : list A :=
  match a, i with
  | [], _ => []
  | _ :: r, O => x :: r
  | y :: r, S j => y :: assign r j x
  end.
End Arrays.

(** ** Numbers *)

Definition number := Q.

Definition Qltb (x y : Q) : bool := negb (Qle_bool y x).
Definition Qgtb (x y : Q) : bool := Qltb y x.
Definition Qgeb (x y : Q) : bool := Qle_bool y x.

(** [Math.max(a, b)] and [Math.min(a, b)] *)
Definition Math_max (a b : number) : number := if Qle_bool a b then b else a.
Definition Math_min (a b : number) : number := if Qle_bool a b then a else b.

(** [JSON.stringify] comparison helpers: equality of the serialized
    values. *)
Definition option_eqb {A} (eqb : A -> A -> bool) (x y : option A) : bool :=
  match x, y with
  | Some a, Some b => eqb a b
  | None, None => true
  | _, _ => false
  end.

Fixpoint list_eqb {A} (eqb : A -> A -> bool) (x y : list A) : bool :=
  match x, y with
  | [], [] => true
  | a :: x', b :: y' => eqb a b && list_eqb eqb x' y'
  | _, _ => false
  end.

(** ** Media items and clips *)

Inductive MediaType := video | audio.

Definition MediaType_eqb (a b : MediaType) : bool :=
  match a, b with
  | video, video | audio, audio => true
  | _, _ => false
  end.

Module MediaItem.
Record t := mk {
  id : string;
  url : string;
  type : MediaType;
  name : string;
  duration : number
}.
End MediaItem.

Module Clip.
Record t := mk {
  id : string;
  mediaId : string;
  startTime : number;
  duration : number;
  offset : number;
  type : MediaType;
  muted : bool;
  volume : option number;
  isSilence : option bool;
  stabilized : option bool
}.

Definition with_id (v : string) (c : t) : t :=
  mk v (mediaId c) (startTime c) (duration c) (offset c) (type c)
     (muted c) (volume c) (isSilence c) (stabilized c).
Definition with_startTime (v : number) (c : t) : t :=
  mk (id c) (mediaId c) v (duration c) (offset c) (type c)
     (muted c) (volume c) (isSilence c) (stabilized c).
Definition with_duration (v : number) (c : t) : t :=
  mk (id c) (mediaId c) (startTime c) v (offset c) (type c)
     (muted c) (volume c) (isSilence c) (stabilized c).
Definition with_offset (v : number) (c : t) : t :=
  mk (id c) (mediaId c) (startTime c) (duration c) v (type c)
     (muted c) (volume c) (isSilence c) (stabilized c).

Definition eqb (a b : t) : bool :=
  String.eqb (id a) (id b) && String.eqb (mediaId a) (mediaId b)
  && Qeq_bool (startTime a) (startTime b)
  && Qeq_bool (duration a) (duration b)
  && Qeq_bool (offset a) (offset b)
  && MediaType_eqb (type a) (type b)
  && Bool.eqb (muted a) (muted b)
  && option_eqb Qeq_bool (volume a) (volume b)
  && option_eqb Bool.eqb (isSilence a) (isSilence b)
  && option_eqb Bool.eqb (stabilized a) (stabilized b).
End Clip.

(** [c.id === id] and [c.id !== id] *)
Definition hasId (i : string) (c : Clip.t) : bool := String.eqb (Clip.id c) i.
Definition lacksId (i : string) (c : Clip.t) : bool := negb (hasId i c).

(** [checkCollision(trackClips, newClip)], identical in [state.ts] and in
    both scripts of [part_003]. *)
Definition collides (newClip c : Clip.t) : bool :=
  negb (String.eqb (Clip.id c) (Clip.id newClip))
  && negb (Qgeb (Clip.startTime newClip) (Clip.startTime c + Clip.duration c)
           || Qle_bool (Clip.startTime newClip + Clip.duration newClip)
                       (Clip.startTime c)).

Definition checkCollision (trackClips : list Clip.t) (newClip : Clip.t) : bool :=
  existsb (collides newClip) trackClips.

(** The end of a clip on the timeline, and what it means for two clips
    to overlap: their half-open intervals [[startTime, startTime + duration)]
    share a point. *)
Definition clipEnd (c : Clip.t) : number := Clip.startTime c + Clip.duration c.

Definition overlap (a b : Clip.t) : Prop :=
  exists x : Q,
    Clip.startTime a <= x /\ x < clipEnd a
    /\ Clip.startTime b <= x /\ x < clipEnd b.



(** [!id] for [string | null]: [null] and the empty string are falsy. *)
Definition falsyId (i : option string) : bool :=
  match i with
  | None => true
  | Some s => String.eqb s EmptyString
  end.

(** [sel === id] for a selection of type [string | null]. *)
Definition selIs (sel : option string) (i : string) : bool :=
  match sel with
  | Some s => String.eqb s i
  | None => false
  end.

(** ** [state.ts] : the Angular [StateService] *)

Module StateService.

(** The object serialized by [saveState], [undo] and [redo]. *)
Record Snapshot := mkSnapshot {
  snap_videoTrack : list Clip.t;
  snap_audioTracks : list (list Clip.t);
  snap_selectedClipId : option string;
  snap_playbackTime : number;
  snap_zoom : number
}.

(** Equality of two serialized snapshots ([===] on the JSON texts). *)
Definition Snapshot_eqb (a b : Snapshot) : bool :=
  list_eqb Clip.eqb (snap_videoTrack a) (snap_videoTrack b)
  && list_eqb (list_eqb Clip.eqb) (snap_audioTracks a) (snap_audioTracks b)
  && option_eqb String.eqb (snap_selectedClipId a) (snap_selectedClipId b)
  && Qeq_bool (snap_playbackTime a) (snap_playbackTime b)
  && Qeq_bool (snap_zoom a) (snap_zoom b).

(** The signals and the two private stacks of the service. *)
Record AppState := mkState {
  media : list MediaItem.t;
  videoTrack : list Clip.t;
  audioTracks : list (list Clip.t);
  playbackTime : number;
  isPlaying : bool;
  zoom : number;
  selectedClipId : option string;
  historyStack : list Snapshot;
  redoStack : list Snapshot
}.

(** [new StateService()] *)
Definition initial : AppState :=
  mkState [] [] [[]; []] 0 false 20 None [] [].

Definition set_videoTrack (v : list Clip.t) (s : AppState) : AppState :=
  mkState (media s) v (audioTracks s) (playbackTime s) (isPlaying s)
          (zoom s) (selectedClipId s) (historyStack s) (redoStack s).
Definition set_audioTracks (v : list (list Clip.t)) (s : AppState) : AppState :=
  mkState (media s) (videoTrack s) v (playbackTime s) (isPlaying s)
          (zoom s) (selectedClipId s) (historyStack s) (redoStack s).
Definition set_selectedClipId (v : option string) (s : AppState) : AppState :=
  mkState (media s) (videoTrack s) (audioTracks s) (playbackTime s)
          (isPlaying s) (zoom s) v (historyStack s) (redoStack s).
Definition set_stacks (h r : list Snapshot) (s : AppState) : AppState :=
  mkState (media s) (videoTrack s) (audioTracks s) (playbackTime s)
          (isPlaying s) (zoom s) (selectedClipId s) h r.

(** The argument of [JSON.stringify] in [saveState], [undo], [redo]. *)
Definition snapshot (s : AppState) : Snapshot :=
  mkSnapshot (videoTrack s) (audioTracks s) (selectedClipId s)
             (playbackTime s) (zoom s).

(** The guard of [saveState]: the serialized state equals the entry
    on top of the history stack. *)
Definition duplicateOfTop (s : AppState) : bool :=
  (0 <? length (historyStack s))%nat
  && option_eqb Snapshot_eqb (top (historyStack s)) (Some (snapshot s)).

(** [saveState()] *)
Definition saveState (s : AppState) : AppState :=
  let snap := snapshot s in
  let h := historyStack s in
  if (0 <? length h)%nat && option_eqb Snapshot_eqb (top h) (Some snap)
  then s
  else
    let h1 := push h snap in
    let h2 := if (50 <? length h1)%nat then shift h1 else h1 in
    set_stacks h2 [] s.

(** The number of snapshots held by the two stacks together. *)
Definition stacked (s : AppState) : nat :=
  (length (historyStack s) + length (redoStack s))%nat.

(** [restoreState(snapshot)] *)
Definition restoreState (snap : Snapshot) (s : AppState) : AppState :=
  mkState (media s) (snap_videoTrack snap) (snap_audioTracks snap)
          (snap_playbackTime snap) (isPlaying s) (snap_zoom snap)
          (snap_selectedClipId snap) (historyStack s) (redoStack s).

(** [undo()] *)
Definition undo (s : AppState) : AppState :=
  if (length (historyStack s) =? 0)%nat then s
  else
    let r := push (redoStack s) (snapshot s) in
    match pop (historyStack s) with
    | Some (snap, h) => restoreState snap (set_stacks h r s)
    | None => s
    end.

(** [redo()] *)
Definition redo (s : AppState) : AppState :=
  if (length (redoStack s) =? 0)%nat then s
  else
    let h := push (historyStack s) (snapshot s) in
    match pop (redoStack s) with
    | Some (snap, r) => restoreState snap (set_stacks h r s)
    | None => s
    end.

(** [findClip(id)] *)
Fixpoint findInLanes (i : string) (lanes : list (list Clip.t)) : option Clip.t :=
  match lanes with
  | [] => None
  | t :: r =>
      match find (hasId i) t with
      | Some a => Some a
      | None => findInLanes i r
      end
  end.

Definition findClip (i : string) (s : AppState) : option Clip.t :=
  match find (hasId i) (videoTrack s) with
  | Some v => Some v
  | None => findInLanes i (audioTracks s)
  end.

(** [Partial<Clip>] : the keys present in an update. *)
Record Patch := mkPatch {
  p_id : option string;
  p_mediaId : option string;
  p_startTime : option number;
  p_duration : option number;
  p_offset : option number;
  p_type : option MediaType;
  p_muted : option bool;
  p_volume : option number;
  p_stabilized : option bool
}.


(** [{ duration: d }] and [{ startTime: t }], the two updates made by
    the service and by the timeline component. *)
Definition patchDuration (d : number) : Patch :=
  mkPatch None None None (Some d) None None None None None.
Definition patchStartTime (t : number) : Patch :=
  mkPatch None None (Some t) None None None None None None.

Definition orElse {A} (o : option A) (d : A) : A :=
  match o with Some v => v | None => d end.

Definition orKeep {A} (o k : option A) : option A :=
  match o with Some v => Some v | None => k end.

(** [{ ...clip, ...updates }] *)
Definition spread (c : Clip.t) (u : Patch) : Clip.t :=
  Clip.mk (orElse (p_id u) (Clip.id c))
          (orElse (p_mediaId u) (Clip.mediaId c))
          (orElse (p_startTime u) (Clip.startTime c))
          (orElse (p_duration u) (Clip.duration c))
          (orElse (p_offset u) (Clip.offset c))
          (orElse (p_type u) (Clip.type c))
          (orElse (p_muted u) (Clip.muted c))
          (orKeep (p_volume u) (Clip.volume c))
          (Clip.isSilence c)
          (orKeep (p_stabilized u) (Clip.stabilized c)).

(** The body of the [map] callback of [updateClip]: the updated track
    and whether the clip was found in it. *)
Definition updateInTrack (clipId : string) (u : Patch) (track : list Clip.t)
  : list Clip.t * bool :=
  match findIndex (hasId clipId) track with
  | Some idx =>
      match nth_error track idx with
      | Some c => (assign track idx (spread c u), true)
      | None => (track, true)
      end
  | None => (track, false)
  end.

(** [updateClip(clipId, updates)] *)
Definition updateClip (clipId : string) (u : Patch) (s : AppState) : AppState :=
  match findIndex (hasId clipId) (videoTrack s) with
  | Some _ => set_videoTrack (fst (updateInTrack clipId u (videoTrack s))) s
  | None =>
      let r := map (updateInTrack clipId u) (audioTracks s) in
      if existsb snd r then set_audioTracks (map fst r) s else s
  end.

(** [deleteClip(clipId)] *)
Definition deleteClip (clipId : string) (s : AppState) : AppState :=
  let s1 := saveState s in
  let s2 := set_videoTrack (filter (lacksId clipId) (videoTrack s1)) s1 in
  let s3 := set_audioTracks (map (filter (lacksId clipId)) (audioTracks s2)) s2 in
  if selIs (selectedClipId s3) clipId then set_selectedClipId None s3 else s3.

(** The literal [0.05] in the guard of [splitClip()]: the binary64
    number that it denotes, a little above one twentieth. *)
Definition splitMargin : number := 3602879701896397 # 72057594037927936.

(** [splitClip()]; [newId] is the value of ['clip_' + Date.now()]. *)
Definition splitClip (newId : string) (s : AppState) : AppState :=
  if falsyId (selectedClipId s) then s
  else
    match selectedClipId s with
    | None => s
    | Some clipId =>
        match findClip clipId s with
        | None => s
        | Some clip =>
            let currentTime := playbackTime s in
            let relTime := currentTime - Clip.startTime clip in
            if Qgtb relTime splitMargin
               && Qltb relTime (Clip.duration clip - splitMargin)
            then
              let s1 := saveState s in
              let newClip :=
                Clip.with_offset (Clip.offset clip + relTime)
                  (Clip.with_duration (Clip.duration clip - relTime)
                    (Clip.with_startTime currentTime
                      (Clip.with_id newId clip))) in
              let s2 := updateClip (Clip.id clip)
                          (patchDuration relTime) s1 in
              match Clip.type clip with
              | video => set_videoTrack (videoTrack s2 ++ [newClip]) s2
              | audio =>
                  set_audioTracks
                    (map (fun track =>
                            if existsb (hasId (Clip.id clip)) track
                            then track ++ [newClip] else track)
                         (audioTracks s2)) s2
              end
            else s
        end
    end.

(** [addClipToTimeline(mediaItem, startTime)]; [newId] is the value of
    ['clip_' + Date.now() + Math.random().toString(36).substr(2, 5)].
    [None] is the [TypeError] raised when an audio item is added while
    [audioTracks] has no lane 0. *)
Definition addClipToTimeline (newId : string) (mediaItem : MediaItem.t)
    (startTime : number) (s : AppState) : option AppState :=
  let s1 := saveState s in
  let clip :=
    Clip.mk newId (MediaItem.id mediaItem) (Math_max 0 startTime)
            (MediaItem.duration mediaItem) 0 (MediaItem.type mediaItem)
            false (Some 1) None None in
  match MediaItem.type mediaItem with
  | video => Some (set_videoTrack (videoTrack s1 ++ [clip]) s1)
  | audio =>
      let newAudioTracks := audioTracks s1 in
      match nth_error newAudioTracks 0 with
      | None => None
      | Some lane0 =>
          let hasCollision := checkCollision lane0 clip in
          let targetTrackIndex :=
            match nth_error newAudioTracks 1 with
            | Some _ => if hasCollision then 1%nat else 0%nat
            | None => 0%nat
            end in
          match nth_error newAudioTracks targetTrackIndex with
          | Some lane =>
              Some (set_audioTracks
                      (assign newAudioTracks targetTrackIndex (lane ++ [clip]))
                      s1)
          | None => None
          end
      end
  end.


(** [addToTimelineSmart(item)]: the clip that ends last in a track
    ([reduce] with [a.end > b.end ? a : b]). *)
Definition laterEnd (a b : Clip.t) : Clip.t :=
  if Qgtb (Clip.startTime a + Clip.duration a)
          (Clip.startTime b + Clip.duration b) then a else b.

Definition lastClip (clips : list Clip.t) : option Clip.t :=
  match clips with
  | [] => None
  | c :: r => Some (fold_left laterEnd r c)
  end.

Definition endOfLast (clips : list Clip.t) : number :=
  match lastClip clips with
  | Some c => Clip.startTime c + Clip.duration c
  | None => 0
  end.

(** [None] is the [TypeError] of the fallback branch, reached only when
    [audioTracks] is empty. *)
Definition addToTimelineSmart (newId : string) (item : MediaItem.t)
    (s : AppState) : option AppState :=
  let s1 := saveState s in
  let clip0 :=
    Clip.mk newId (MediaItem.id item) 0 (MediaItem.duration item) 0
            (MediaItem.type item) false (Some 1) None None in
  match MediaItem.type item with
  | video =>
      let clip := Clip.with_startTime (endOfLast (videoTrack s1)) clip0 in
      Some (set_videoTrack (videoTrack s1 ++ [clip]) s1)
  | audio =>
      match audioTracks s1 with
      | trackClips :: rest =>
          let clip := Clip.with_startTime (endOfLast trackClips) clip0 in
          Some (set_audioTracks ((trackClips ++ [clip]) :: rest) s1)
      | [] => None
      end
  end.

(** Every clip of the timeline, the video track first. *)
Definition allClips (s : AppState) : list Clip.t :=
  videoTrack s ++ concat (audioTracks s).



(** What a user or a component can do to the service. *)
Inductive Op :=
| OpSave
| OpUndo
| OpRedo
| OpAddSmart (newId : string) (item : MediaItem.t)
| OpAddClip (newId : string) (item : MediaItem.t) (startTime : number)
| OpUpdateClip (clipId : string) (u : Patch)
| OpDeleteClip (clipId : string)
| OpSplitClip (newId : string)
| OpSelect (sel : option string)
| OpSeek (t : number)
| OpZoom (z : number)
| OpPlaying (b : bool).

(** One operation; an operation that throws leaves the state as it was
    at the throw, which is after its [saveState]. *)
Definition step (s : AppState) (o : Op) : AppState :=
  match o with
  | OpSave => saveState s
  | OpUndo => undo s
  | OpRedo => redo s
  | OpAddSmart i m =>
      match addToTimelineSmart i m s with Some s' => s' | None => saveState s end
  | OpAddClip i m t =>
      match addClipToTimeline i m t s with Some s' => s' | None => saveState s end
  | OpUpdateClip i u => updateClip i u s
  | OpDeleteClip i => deleteClip i s
  | OpSplitClip i => splitClip i s
  | OpSelect sel => set_selectedClipId sel s
  | OpSeek t =>
      mkState (media s) (videoTrack s) (audioTracks s) t (isPlaying s)
              (zoom s) (selectedClipId s) (historyStack s) (redoStack s)
  | OpZoom z =>
      mkState (media s) (videoTrack s) (audioTracks s) (playbackTime s)
              (isPlaying s) z (selectedClipId s) (historyStack s) (redoStack s)
  | OpPlaying b =>
      mkState (media s) (videoTrack s) (audioTracks s) (playbackTime s)
              b (zoom s) (selectedClipId s) (historyStack s) (redoStack s)
  end.

Definition run (ops : list Op) (s : AppState) : AppState :=
  fold_left step ops s.

End StateService.

(** ** [script.js] : the first script, one flat audio track *)

Module Script.

(** [state.tracks] *)
Record Tracks := mkTracks {
  tr_video : list Clip.t;
  tr_audio : list Clip.t
}.

(** A history entry: a deep copy of the tracks and three scalars. *)
Record Snapshot := mkSnapshot {
  snap_tracks : Tracks;
  snap_selectedClipId : option string;
  snap_playbackTime : number;
  snap_zoom : number
}.

(** [state], [historyStack] and [redoStack]. *)
Record State := mkState {
  media : list MediaItem.t;
  tracks : Tracks;
  playbackTime : number;
  isPlaying : bool;
  zoom : number;
  selectedClipId : option string;
  historyStack : list Snapshot;
  redoStack : list Snapshot
}.

Definition initial : State :=
  mkState [] (mkTracks [] []) 0 false 10 None [] [].

Definition set_tracks (v : Tracks) (s : State) : State :=
  mkState (media s) v (playbackTime s) (isPlaying s) (zoom s)
          (selectedClipId s) (historyStack s) (redoStack s).
Definition set_selectedClipId (v : option string) (s : State) : State :=
  mkState (media s) (tracks s) (playbackTime s) (isPlaying s) (zoom s)
          v (historyStack s) (redoStack s).
Definition set_stacks (h r : list Snapshot) (s : State) : State :=
  mkState (media s) (tracks s) (playbackTime s) (isPlaying s) (zoom s)
          (selectedClipId s) h r.

Definition snapshot (s : State) : Snapshot :=
  mkSnapshot (tracks s) (selectedClipId s) (playbackTime s) (zoom s).

(** [saveState()] : no comparison with the previous entry. *)
Definition saveState (s : State) : State :=
  let h1 := push (historyStack s) (snapshot s) in
  let h2 := if (50 <? length h1)%nat then shift h1 else h1 in
  set_stacks h2 [] s.

(** [seek(time)], as far as [state] is concerned. *)
Definition seek (time : number) (s : State) : State :=
  mkState (media s) (tracks s) (Math_max 0 time) (isPlaying s) (zoom s)
          (selectedClipId s) (historyStack s) (redoStack s).

(** [restoreState(snapshot)] *)
Definition restoreState (snap : Snapshot) (s : State) : State :=
  let s1 :=
    mkState (media s) (snap_tracks snap) (snap_playbackTime snap)
            (isPlaying s) (snap_zoom snap) (snap_selectedClipId snap)
            (historyStack s) (redoStack s) in
  seek (playbackTime s1) s1.

(** [undo()] *)
Definition undo (s : State) : State :=
  if (length (historyStack s) =? 0)%nat then s
  else
    let r := push (redoStack s) (snapshot s) in
    match pop (historyStack s) with
    | Some (snap, h) => restoreState snap (set_stacks h r s)
    | None => s
    end.

(** [redo()] *)
Definition redo (s : State) : State :=
  if (length (redoStack s) =? 0)%nat then s
  else
    let h := push (historyStack s) (snapshot s) in
    match pop (redoStack s) with
    | Some (snap, r) => restoreState snap (set_stacks h r s)
    | None => s
    end.

(** Track selector: [state.tracks[trackType]]. *)
Definition getTrack (ty : MediaType) (t : Tracks) : list Clip.t :=
  match ty with video => tr_video t | audio => tr_audio t end.
Definition setTrack (ty : MediaType) (v : list Clip.t) (t : Tracks) : Tracks :=
  match ty with
  | video => mkTracks v (tr_audio t)
  | audio => mkTracks (tr_video t) v
  end.

(** The lookup shared by the split handler and [removeSilence]: the
    video track first, then the audio track. *)
Definition locate (i : string) (t : Tracks) : option (MediaType * Clip.t) :=
  match find (hasId i) (tr_video t) with
  | Some c => Some (video, c)
  | None =>
      match find (hasId i) (tr_audio t) with
      | Some c => Some (audio, c)
      | None => None
      end
  end.

(** [clip.duration = v] on the object returned by [find]: the first
    clip of the track with that id. *)
Definition mutateFirst (i : string) (f : Clip.t -> Clip.t)
    (track : list Clip.t) : list Clip.t :=
  match findIndex (hasId i) track with
  | Some idx =>
      match nth_error track idx with
      | Some c => assign track idx (f c)
      | None => track
      end
  | None => track
  end.

(** The number of snapshots held by the two stacks together. *)
Definition stacked (s : State) : nat :=
  (length (historyStack s) + length (redoStack s))%nat.

(** A change of the tracks, the selection, the playback time or the zoom
    that leaves the two stacks alone (a drag, a seek, a zoom, the body of
    a command after its [saveState]). *)
Definition edit (f : Snapshot -> Snapshot) (s : State) : State :=
  let v := f (snapshot s) in
  mkState (media s) (snap_tracks v) (snap_playbackTime v) (isPlaying s)
          (snap_zoom v) (snap_selectedClipId v) (historyStack s) (redoStack s).

(** The history seen from outside: a save, an undo, a redo, a command
    (a save followed by an edit) or an edit without a save. *)
Inductive Op :=
| OpSave
| OpUndo
| OpRedo
| OpCommand (f : Snapshot -> Snapshot)
| OpEdit (f : Snapshot -> Snapshot).

Definition step (s : State) (o : Op) : State :=
  match o with
  | OpSave => saveState s
  | OpUndo => undo s
  | OpRedo => redo s
  | OpCommand f => edit f (saveState s)
  | OpEdit f => edit f s
  end.

Definition run (ops : list Op) (s : State) : State := fold_left step ops s.

(** The click handler of [tool-delete]. *)
Definition toolDelete (s : State) : State :=
  if falsyId (selectedClipId s) then s
  else
    match selectedClipId s with
    | None => s
    | Some sel =>
        let s1 := saveState s in
        let t := mkTracks (filter (lacksId sel) (tr_video (tracks s1)))
                          (filter (lacksId sel) (tr_audio (tracks s1))) in
        set_selectedClipId None (set_tracks t s1)
    end.

(** The click handler of [tool-split]; [newId] is ['clip_' + Date.now()]. *)
Definition toolSplit (newId : string) (s : State) : State :=
  if falsyId (selectedClipId s) then s
  else
    match selectedClipId s with
    | None => s
    | Some sel =>
        match locate sel (tracks s) with
        | None => s
        | Some (trackType, clip) =>
            let relativeTime := playbackTime s - Clip.startTime clip in
            if Qgtb relativeTime 0 && Qltb relativeTime (Clip.duration clip)
            then
              let s1 := saveState s in
              let newClip :=
                Clip.with_offset (Clip.offset clip + relativeTime)
                  (Clip.with_duration (Clip.duration clip - relativeTime)
                    (Clip.with_startTime (playbackTime s)
                      (Clip.with_id newId clip))) in
              let tr1 := mutateFirst sel (Clip.with_duration relativeTime)
                           (getTrack trackType (tracks s1)) in
              set_tracks (setTrack trackType (push tr1 newClip) (tracks s1)) s1
            else s
        end
    end.

(** [addClipToTimeline(mediaItem, startTime)]; [newId] is
    ['clip_' + Date.now()]. *)
Definition addClipToTimeline (newId : string) (mediaItem : MediaItem.t)
    (startTime : number) (s : State) : State :=
  let s1 := saveState s in
  let clip :=
    Clip.mk newId (MediaItem.id mediaItem) (Math_max 0 startTime)
            (MediaItem.duration mediaItem) 0 (MediaItem.type mediaItem)
            false None None None in
  let ty := MediaItem.type mediaItem in
  set_tracks (setTrack ty (push (getTrack ty (tracks s1)) clip) (tracks s1)) s1.


(** *** Silence removal ([removeSilence]) *)

(** A speech chunk found in the decoded audio, in seconds. *)
Record Chunk := mkChunk { ch_start : number; ch_end : number }.

Inductive SegType := silence | speech.
Record Segment := mkSegment {
  seg_start : number;
  seg_end : number;
  seg_type : SegType
}.

(** The maximum of [Math.abs(channels[c][i])] over the channels. *)
Definition amplitudeAt (channels : list (list number)) (i : nat) : number :=
  fold_left
    (fun amplitude ch =>
       match nth_error ch i with
       | Some v => let val := Qabs v in
                   if Qgtb val amplitude then val else amplitude
       | None => amplitude
       end)
    channels 0.

Record Scan := mkScan {
  sc_chunks : list Chunk;
  sc_isSilent : bool;
  sc_lastChangeIndex : nat
}.

Definition seconds (i : nat) (sampleRate : number) : number :=
  inject_Z (Z.of_nat i) / sampleRate.

(** One iteration of the detection loop, at sample [i]. *)
Definition scanStep (channels : list (list number)) (sampleRate : number)
    (st : Scan) (i : nat) : Scan :=
  let threshold := 0.005 in
  if Qgtb (amplitudeAt channels i) threshold then
    if sc_isSilent st then mkScan (sc_chunks st) false i else st
  else
    if negb (sc_isSilent st) then
      mkScan (push (sc_chunks st)
                   (mkChunk (seconds (sc_lastChangeIndex st) sampleRate)
                            (seconds i sampleRate)))
             true i
    else st.

(** The chunks of speech in the whole buffer; [length] is
    [channels[0].length]. *)
Definition detectChunks (channels : list (list number)) (sampleRate : number)
    (length : nat) : list Chunk :=
  let st := fold_left (scanStep channels sampleRate) (seq 0 length)
                      (mkScan [] true 0%nat) in
  if negb (sc_isSilent st)
  then push (sc_chunks st)
            (mkChunk (seconds (sc_lastChangeIndex st) sampleRate)
                     (seconds length sampleRate))
  else sc_chunks st.

(** The body of [visibleChunks.forEach]: segments so far and [cursor]. *)
Definition segmentStep (endOfClip : number)
    (acc : list Segment * number) (chunk : Chunk) : list Segment * number :=
  let '(allSegments, cursor) := acc in
  let gapStart := cursor in
  let gapEnd := Math_max cursor (ch_start chunk) in
  let segs1 := if Qgtb gapEnd gapStart
               then push allSegments (mkSegment gapStart gapEnd silence)
               else allSegments in
  let speechStart := Math_max cursor (ch_start chunk) in
  let speechEnd := Math_min endOfClip (ch_end chunk) in
  let segs2 := if Qgtb speechEnd speechStart
               then push segs1 (mkSegment speechStart speechEnd speech)
               else segs1 in
  (segs2, speechEnd).

Definition allSegmentsOf (clip : Clip.t) (visibleChunks : list Chunk)
  : list Segment :=
  let endOfClip := Clip.offset clip + Clip.duration clip in
  let '(segs, cursor) :=
    fold_left (segmentStep endOfClip) visibleChunks ([], Clip.offset clip) in
  if Qltb cursor endOfClip
  then push segs (mkSegment cursor endOfClip silence)
  else segs.

Definition isSilenceSeg (g : Segment) : bool :=
  match seg_type g with silence => true | speech => false end.

(** The body of [allSegments.forEach]: the clips created so far and
    [currentTimelinePos]; the k-th created clip takes the id [ids k]
    (['split_' + Date.now() + Math.random()]). *)
Definition placeStep (ids : nat -> string) (clip : Clip.t)
    (acc : list Clip.t * number) (g : Segment) : list Clip.t * number :=
  let '(newClips, currentTimelinePos) := acc in
  let duration := seg_end g - seg_start g in
  if Qgtb duration 0.05 then
    let newClip :=
      Clip.mk (ids (length newClips)) (Clip.mediaId clip) currentTimelinePos
              duration (seg_start g) (Clip.type clip) (Clip.muted clip)
              None (Some (isSilenceSeg g)) None in
    (push newClips newClip, currentTimelinePos + duration)
  else acc.

Definition placeSegments (ids : nat -> string) (clip : Clip.t)
    (allSegments : list Segment) : list Clip.t :=
  fst (fold_left (placeStep ids clip) allSegments ([], Clip.startTime clip)).

(** [c.isSilence] as a condition. *)
Definition silent (c : Clip.t) : bool :=
  match Clip.isSilence c with Some b => b | None => false end.

(** The body of [remainingClips.forEach]: clips repositioned so far and
    [ripplePos]. *)
Definition rippleStep (acc : list Clip.t * number) (c : Clip.t)
  : list Clip.t * number :=
  let '(done, ripplePos) := acc in
  (push done (Clip.with_startTime ripplePos c), ripplePos + Clip.duration c).

Definition ripple (startTime : number) (clips : list Clip.t) : list Clip.t :=
  fst (fold_left rippleStep clips ([], startTime)).

(** The layout loop as the specification words it: one clip per segment
    longer than 0.05 s, in order, the k-th with the id [ids k], laid end
    to end from [t0], with [offset = segment.start],
    [duration = segment.end - segment.start], the media, the kind and
    the mute state of the original, and the tag of the segment. *)
Fixpoint layoutSpec (ids : nat -> string) (clip : Clip.t) (k : nat)
    (t0 : number) (segs : list Segment) : list Clip.t :=
  match segs with
  | [] => []
  | g :: rest =>
      let d := seg_end g - seg_start g in
      if Qgtb d 0.05 then
        Clip.mk (ids k) (Clip.mediaId clip) t0 d (seg_start g)
                (Clip.type clip) (Clip.muted clip)
                None (Some (isSilenceSeg g)) None
        :: layoutSpec ids clip (S k) (t0 + d) rest
      else layoutSpec ids clip k t0 rest
  end.

(** The clips [cs] moved end to end from [t0]. *)
Fixpoint rippleFrom (t0 : number) (cs : list Clip.t) : list Clip.t :=
  match cs with
  | [] => []
  | c :: r => Clip.with_startTime t0 c :: rippleFrom (t0 + Clip.duration c) r
  end.



(** Chunks whose ends do not decrease along the list and are all at
    least [lo]. *)
Fixpoint endsAbove (lo : number) (chunks : list Chunk) : Prop :=
  match chunks with
  | [] => True
  | c :: r => lo <= ch_end c /\ endsAbove (ch_end c) r
  end.


(** What the detection loop keeps true: the ends of the chunks do not
    decrease, none is after the last change, and the last change is not
    after the sample [i] about to be read. *)
Definition scanInv (sampleRate : number) (i : nat) (st : Scan) : Prop :=
  endsAbove 0 (sc_chunks st)
  /\ Forall (fun c => ch_end c <= seconds (sc_lastChangeIndex st) sampleRate)
            (sc_chunks st)
  /\ (sc_lastChangeIndex st <= i)%nat.


(** The result of the analysis phase of [removeSilence]: the track and
    the clip it works on and the segments to lay out, or nothing when
    the function returns early. *)
Definition analyse (channels : list (list number)) (sampleRate : number)
    (s : State) : option (MediaType * Clip.t * list Segment) :=
  if falsyId (selectedClipId s) then None
  else
    match selectedClipId s with
    | None => None
    | Some sel =>
        match locate sel (tracks s) with
        | None => None
        | Some (trackType, clip) =>
            match find (fun m => String.eqb (MediaItem.id m) (Clip.mediaId clip))
                       (media s) with
            | None => None
            | Some _ =>
                match channels with
                | [] => None
                | ch0 :: _ =>
                    let chunks := detectChunks channels sampleRate (length ch0) in
                    match chunks with
                    | [] => None
                    | _ =>
                        let visibleChunks :=
                          filter (fun chunk =>
                                    Qgtb (ch_end chunk) (Clip.offset clip)
                                    && Qltb (ch_start chunk)
                                            (Clip.offset clip + Clip.duration clip))
                                 chunks in
                        match visibleChunks with
                        | [] => None
                        | _ => Some (trackType, clip,
                                     allSegmentsOf clip visibleChunks)
                        end
                    end
                end
            end
        end
    end.

(** Step 1 of [removeSilence]: save, drop the original, lay out every
    segment.  The result carries the clips just created. *)
Definition splitStep (ids : nat -> string) (trackType : MediaType)
    (clip : Clip.t) (allSegments : list Segment) (s : State)
  : State * list Clip.t :=
  let s1 := saveState s in
  let kept := filter (lacksId (Clip.id clip)) (getTrack trackType (tracks s1)) in
  let newClips := placeSegments ids clip allSegments in
  (set_tracks (setTrack trackType (kept ++ newClips) (tracks s1)) s1, newClips).

(** Step 2 of [removeSilence]: save again, drop the silence clips and
    close the gaps between the clips that were kept.  The kept clips
    are the same objects in [newClips] and at the end of the track. *)
Definition deleteStep (trackType : MediaType) (clip : Clip.t)
    (newClips : list Clip.t) (s : State) : State :=
  let s1 := saveState s in
  let track := getTrack trackType (tracks s1) in
  let older := firstn (length track - length newClips) track in
  let remainingClips := filter (fun c => negb (silent c)) newClips in
  let track' := filter (fun c => negb (silent c)) older
                ++ ripple (Clip.startTime clip) remainingClips in
  set_tracks (setTrack trackType track' (tracks s1)) s1.

(** [removeSilence()], once the audio of the clip is decoded into
    [channels] at [sampleRate]. *)
Definition removeSilence (ids : nat -> string)
    (channels : list (list number)) (sampleRate : number) (s : State) : State :=
  match analyse channels sampleRate s with
  | None => s
  | Some (trackType, clip, allSegments) =>
      let '(s1, newClips) := splitStep ids trackType clip allSegments s in
      deleteStep trackType clip newClips s1
  end.


(** *** Thumbnail cache and capture queue *)

(** The key [`${media.id}_${Math.floor(thumbTime * 10)}`], kept as the
    pair it is built from. *)
Definition CacheKey := (string * Z)%type.

Definition cacheKeyOf (mediaId : string) (thumbTime : number) : CacheKey :=
  (mediaId, Qfloor (thumbTime * 10)).

Definition CacheKey_eqb (a b : CacheKey) : bool :=
  String.eqb (fst a) (fst b) && Z.eqb (snd a) (snd b).

(** A queued task [{ url, time, cacheKey, resolve }]; [tk_tag] tells
    apart the closures [onSeek] and [onError] made for different tasks. *)
Record ThumbTask := mkTask {
  tk_url : string;
  tk_time : number;
  tk_cacheKey : CacheKey;
  tk_tag : nat
}.

(** The module-level variables of the pipeline, the listeners waiting
    on [sharedThumbVideo], the outstanding [setTimeout(processThumbQueue)]
    calls and a log of every seek issued on the shared element. *)
Record Thumbs := mkThumbs {
  thumbnailCache : list (CacheKey * string);
  thumbQueue : list ThumbTask;
  isProcessingThumbs : bool;
  playing : bool;
  seekedListeners : list ThumbTask;
  errorListeners : list ThumbTask;
  timers : nat;
  captures : list ThumbTask;
  created : nat
}.

Definition idle : Thumbs := mkThumbs [] [] false false [] [] 0 [] 0.

(** [thumbnailCache[cacheKey]] *)
Fixpoint cacheGet (k : CacheKey) (c : list (CacheKey * string)) : option string :=
  match c with
  | [] => None
  | (k', v) :: r => if CacheKey_eqb k' k then Some v else cacheGet k r
  end.

(** A cache lookup used as a condition: present and not the empty
    string. *)
Definition cached (k : CacheKey) (c : list (CacheKey * string)) : bool :=
  match cacheGet k c with
  | Some v => negb (String.eqb v EmptyString)
  | None => false
  end.

(** [thumbQueue.splice(0, thumbQueue.length - 20)] when the queue is
    longer than 50. *)
Definition prune (q : list ThumbTask) : list ThumbTask :=
  if (50 <? length q)%nat then skipn (length q - 20) q else q.

(** [processThumbQueue()] *)
Definition processThumbQueue (t : Thumbs) : Thumbs :=
  if playing t then
    mkThumbs (thumbnailCache t) (thumbQueue t) (isProcessingThumbs t)
             (playing t) (seekedListeners t) (errorListeners t)
             (S (timers t)) (captures t) (created t)
  else if isProcessingThumbs t then t
  else
    match thumbQueue t with
    | [] => t
    | task :: rest =>
        mkThumbs (thumbnailCache t) (prune rest) true (playing t)
                 (push (seekedListeners t) task) (push (errorListeners t) task)
                 (timers t) (push (captures t) task) (created t)
    end.

(** [captureThumbnail(url, time, cacheKey)] *)
Definition captureThumbnail (url : string) (time : number) (k : CacheKey)
    (t : Thumbs) : Thumbs :=
  let task := mkTask url time k (created t) in
  processThumbQueue
    (mkThumbs (thumbnailCache t) (push (thumbQueue t) task)
              (isProcessingThumbs t) (playing t) (seekedListeners t)
              (errorListeners t) (timers t) (captures t) (S (created t))).

(** One thumbnail of [drawVideoThumbnails]: the cache first, a capture
    request otherwise. *)
Definition requestThumbnail (mediaId url : string) (thumbTime : number)
    (t : Thumbs) : Thumbs :=
  let cacheKey := cacheKeyOf mediaId thumbTime in
  if cached cacheKey (thumbnailCache t) then t
  else captureThumbnail url thumbTime cacheKey t.

(** [onSeek] of [task], run with the frame [dataURL] on the canvas. *)
Definition onSeek (dataURL : string) (t : Thumbs) (task : ThumbTask) : Thumbs :=
  mkThumbs ((tk_cacheKey task, dataURL) :: thumbnailCache t) (thumbQueue t)
           false (playing t)
           (filter (fun l => negb (tk_tag l =? tk_tag task)%nat) (seekedListeners t))
           (errorListeners t)
           (if (0 <? length (thumbQueue t))%nat then S (timers t) else timers t)
           (captures t) (created t).

(** [onError] of [task]. *)
Definition onError (t : Thumbs) (task : ThumbTask) : Thumbs :=
  mkThumbs (thumbnailCache t) (thumbQueue t) false (playing t)
           (filter (fun l => negb (tk_tag l =? tk_tag task)%nat) (seekedListeners t))
           (filter (fun l => negb (tk_tag l =? tk_tag task)%nat) (errorListeners t))
           (S (timers t)) (captures t) (created t).

(** What can happen to the pipeline. *)
Inductive ThumbEvent :=
| Request (mediaId url : string) (thumbTime : number)
| Seeked (dataURL : string)
| Errored
| Timer
| SetPlaying (b : bool).

(** One event.  A [seeked] or [error] event runs the listeners that are
    registered when it is dispatched; they are [once] listeners and
    are gone afterwards. *)
Definition thumbStep (t : Thumbs) (e : ThumbEvent) : Thumbs :=
  match e with
  | Request m u time => requestThumbnail m u time t
  | Seeked d =>
      let ls := seekedListeners t in
      fold_left (onSeek d)
        ls
        (mkThumbs (thumbnailCache t) (thumbQueue t) (isProcessingThumbs t)
                  (playing t) [] (errorListeners t) (timers t)
                  (captures t) (created t))
  | Errored =>
      let ls := errorListeners t in
      fold_left onError
        ls
        (mkThumbs (thumbnailCache t) (thumbQueue t) (isProcessingThumbs t)
                  (playing t) (seekedListeners t) [] (timers t)
                  (captures t) (created t))
  | Timer =>
      match timers t with
      | O => t
      | S n =>
          processThumbQueue
            (mkThumbs (thumbnailCache t) (thumbQueue t) (isProcessingThumbs t)
                      (playing t) (seekedListeners t) (errorListeners t) n
                      (captures t) (created t))
      end
  | SetPlaying b =>
      mkThumbs (thumbnailCache t) (thumbQueue t) (isProcessingThumbs t) b
               (seekedListeners t) (errorListeners t) (timers t)
               (captures t) (created t)
  end.

Definition thumbRun (es : list ThumbEvent) (t : Thumbs) : Thumbs :=
  fold_left thumbStep es t.

(** The seeks issued so far for the cache key [k]. *)
Definition capturesOf (k : CacheKey) (t : Thumbs) : list ThumbTask :=
  filter (fun task => CacheKey_eqb (tk_cacheKey task) k) (captures t).

(** The tasks waiting in the queue for the cache key [k]. *)
Definition queuedFor (k : CacheKey) (t : Thumbs) : list ThumbTask :=
  filter (fun task => CacheKey_eqb (tk_cacheKey task) k) (thumbQueue t).

(** A task that asks for another key than [k]. *)
Definition otherKey (k : CacheKey) (task : ThumbTask) : Prop :=
  CacheKey_eqb (tk_cacheKey task) k = false.

(** The key [k] is cached, no queued task asks for it, and [cs] are the
    captures made for it. *)
Definition settled (k : CacheKey) (cs : list ThumbTask) (t : Thumbs) : Prop :=
  cached k (thumbnailCache t) = true
  /\ Forall (otherKey k) (thumbQueue t)
  /\ capturesOf k t = cs.

(** Every frame delivered by a [seeked] event is a non-empty data URL,
    as [canvas.toDataURL()] returns. *)
Definition framed (e : ThumbEvent) : Prop :=
  match e with
  | Seeked d => d <> EmptyString
  | _ => True
  end.

End Script.

(** ** [part_003], second script : two audio lanes, JSON-string history *)

Module Part003.

(** [state.tracks] *)
Record Tracks := mkTracks {
  tr_video : list Clip.t;
  tr_audio : list (list Clip.t)
}.

Definition Tracks_eqb (a b : Tracks) : bool :=
  list_eqb Clip.eqb (tr_video a) (tr_video b)
  && list_eqb (list_eqb Clip.eqb) (tr_audio a) (tr_audio b).

(** The object behind a JSON history entry. *)
Record Snapshot := mkSnapshot {
  snap_tracks : Tracks;
  snap_selectedClipId : option string;
  snap_playbackTime : number;
  snap_zoom : number
}.

(** [===] on two JSON history entries. *)
Definition Snapshot_eqb (a b : Snapshot) : bool :=
  Tracks_eqb (snap_tracks a) (snap_tracks b)
  && option_eqb String.eqb (snap_selectedClipId a) (snap_selectedClipId b)
  && Qeq_bool (snap_playbackTime a) (snap_playbackTime b)
  && Qeq_bool (snap_zoom a) (snap_zoom b).

Record State := mkState {
  media : list MediaItem.t;
  tracks : Tracks;
  playbackTime : number;
  isPlaying : bool;
  zoom : number;
  selectedClipId : option string;
  historyStack : list Snapshot;
  redoStack : list Snapshot
}.

Definition initial : State :=
  mkState [] (mkTracks [] [[]; []]) 0 false 20 None [] [].

Definition set_tracks (v : Tracks) (s : State) : State :=
  mkState (media s) v (playbackTime s) (isPlaying s) (zoom s)
          (selectedClipId s) (historyStack s) (redoStack s).
Definition set_stacks (h r : list Snapshot) (s : State) : State :=
  mkState (media s) (tracks s) (playbackTime s) (isPlaying s) (zoom s)
          (selectedClipId s) h r.

Definition snapshot (s : State) : Snapshot :=
  mkSnapshot (tracks s) (selectedClipId s) (playbackTime s) (zoom s).

(** The guard of [saveState]: the serialized state equals the entry
    on top of the history stack. *)
Definition duplicateOfTop (s : State) : bool :=
  (0 <? length (historyStack s))%nat
  && option_eqb Snapshot_eqb (top (historyStack s)) (Some (snapshot s)).

(** [saveState()] *)
Definition saveState (s : State) : State :=
  let snap := snapshot s in
  let h := historyStack s in
  if (0 <? length h)%nat && option_eqb Snapshot_eqb (top h) (Some snap)
  then s
  else
    let h1 := push h snap in
    let h2 := if (50 <? length h1)%nat then shift h1 else h1 in
    set_stacks h2 [] s.

(** [seek(time)], as far as [state] is concerned. *)
Definition seek (time : number) (s : State) : State :=
  mkState (media s) (tracks s) (Math_max 0 time) (isPlaying s) (zoom s)
          (selectedClipId s) (historyStack s) (redoStack s).

(** [restoreState(json)] *)
Definition restoreState (snap : Snapshot) (s : State) : State :=
  let s1 :=
    mkState (media s) (snap_tracks snap) (snap_playbackTime snap)
            (isPlaying s) (snap_zoom snap) (snap_selectedClipId snap)
            (historyStack s) (redoStack s) in
  seek (playbackTime s1) s1.

(** [undo()] *)
Definition undo (s : State) : State :=
  if (length (historyStack s) =? 0)%nat then s
  else
    let r := push (redoStack s) (snapshot s) in
    match pop (historyStack s) with
    | Some (snap, h) => restoreState snap (set_stacks h r s)
    | None => s
    end.

(** [redo()] *)
Definition redo (s : State) : State :=
  if (length (redoStack s) =? 0)%nat then s
  else
    let h := push (historyStack s) (snapshot s) in
    match pop (redoStack s) with
    | Some (snap, r) => restoreState snap (set_stacks h r s)
    | None => s
    end.

(** The number of snapshots held by the two stacks together. *)
Definition stacked (s : State) : nat :=
  (length (historyStack s) + length (redoStack s))%nat.

(** A change of the tracks, the selection, the playback time or the zoom
    that leaves the two stacks alone. *)
Definition edit (f : Snapshot -> Snapshot) (s : State) : State :=
  let v := f (snapshot s) in
  mkState (media s) (snap_tracks v) (snap_playbackTime v) (isPlaying s)
          (snap_zoom v) (snap_selectedClipId v) (historyStack s) (redoStack s).

(** The history seen from outside: a save, an undo, a redo, a command
    (a save followed by an edit) or an edit without a save. *)
Inductive Op :=
| OpSave
| OpUndo
| OpRedo
| OpCommand (f : Snapshot -> Snapshot)
| OpEdit (f : Snapshot -> Snapshot).

Definition step (s : State) (o : Op) : State :=
  match o with
  | OpSave => saveState s
  | OpUndo => undo s
  | OpRedo => redo s
  | OpCommand f => edit f (saveState s)
  | OpEdit f => edit f s
  end.

Definition run (ops : list Op) (s : State) : State := fold_left step ops s.

(** [findClip(id)] *)
Fixpoint findInLanes (i : string) (lanes : list (list Clip.t)) : option Clip.t :=
  match lanes with
  | [] => None
  | t :: r =>
      match find (hasId i) t with
      | Some a => Some a
      | None => findInLanes i r
      end
  end.

Definition findClip (i : string) (t : Tracks) : option Clip.t :=
  match find (hasId i) (tr_video t) with
  | Some v => Some v
  | None => findInLanes i (tr_audio t)
  end.

(** [addClipToTimeline(mediaItem, startTime)]; [None] is the
    [TypeError] raised when an audio item meets no lane 0. *)
Definition addClipToTimeline (newId : string) (mediaItem : MediaItem.t)
    (startTime : number) (s : State) : option State :=
  let s1 := saveState s in
  let clip :=
    Clip.mk newId (MediaItem.id mediaItem) (Math_max 0 startTime)
            (MediaItem.duration mediaItem) 0 (MediaItem.type mediaItem)
            false None None None in
  match MediaItem.type mediaItem with
  | video =>
      Some (set_tracks (mkTracks (push (tr_video (tracks s1)) clip)
                                 (tr_audio (tracks s1))) s1)
  | audio =>
      let lanes := tr_audio (tracks s1) in
      match nth_error lanes 0 with
      | None => None
      | Some lane0 =>
          let hasCollision := checkCollision lane0 clip in
          let targetTrackIndex :=
            match nth_error lanes 1 with
            | Some _ => if hasCollision then 1%nat else 0%nat
            | None => 0%nat
            end in
          match nth_error lanes targetTrackIndex with
          | Some lane =>
              Some (set_tracks
                      (mkTracks (tr_video (tracks s1))
                                (assign lanes targetTrackIndex (push lane clip)))
                      s1)
          | None => None
          end
      end
  end.

(** *** Silence removal ([removeSilenceTool]) *)

(** [Math.abs(data[i])]; [None] is the [NaN] read outside the buffer,
    for which every comparison is false. *)
Definition sampleAbs (data : list number) (i : Z) : option number :=
  if (i <? 0)%Z then None else option_map Qabs (nth_error data (Z.to_nat i)).

Definition gtNum (v : option number) (x : number) : bool :=
  match v with Some a => Qgtb a x | None => false end.
Definition leNum (v : option number) (x : number) : bool :=
  match v with Some a => Qle_bool a x | None => false end.

(** The values of [i] in [for (i = startSample; i < endSample; i += 100)]. *)
Definition scanIndices (startSample endSample : Z) : list Z :=
  map (fun k => (startSample + 100 * Z.of_nat k)%Z)
      (seq 0 (Z.to_nat ((endSample - startSample + 99) / 100))).

(** The peak of the scanned samples. *)
Definition peak (data : list number) (startSample endSample : Z) : number :=
  fold_left
    (fun maxVal i =>
       match sampleAbs data i with
       | Some v => if Qgtb v maxVal then v else maxVal
       | None => maxVal
       end)
    (scanIndices startSample endSample) 0.

Inductive RangeType := silence | speech.
Record Range := mkRange { r_start : Z; r_end : Z; r_type : RangeType }.

Record Scan := mkScan {
  sc_ranges : list Range;
  sc_isSpeech : bool;
  sc_rangeStart : Z
}.

Definition minSilenceDur : number := 0.15.
Definition minSpeechDur : number := 0.15.

(** The look-ahead loop over [j]: some scanned sample within
    [minSilenceDur] after [i], and before [endSample], is above the
    threshold. *)
Definition futureSpeech (data : list number) (sampleRate threshold : number)
    (endSample i : Z) : bool :=
  existsb
    (fun j =>
       Qltb (inject_Z (Z.of_nat j)) ((minSilenceDur * sampleRate) / 100)
       && (i + Z.of_nat j * 100 <? endSample)%Z
       && gtNum (sampleAbs data (i + Z.of_nat j * 100)) threshold)
    (seq 1 (Z.to_nat ((endSample - i + 99) / 100))).

(** One iteration of the classification loop, at sample [i]. *)
Definition scanStep (data : list number) (sampleRate threshold : number)
    (endSample : Z) (st : Scan) (i : Z) : Scan :=
  let val := sampleAbs data i in
  if gtNum val threshold && negb (sc_isSpeech st) then
    mkScan (push (sc_ranges st) (mkRange (sc_rangeStart st) i silence)) true i
  else if leNum val threshold && sc_isSpeech st then
    if futureSpeech data sampleRate threshold endSample i then st
    else mkScan (push (sc_ranges st) (mkRange (sc_rangeStart st) i speech))
                false i
  else st.

(** [ranges] after the loop and the final [push]. *)
Definition detectRanges (data : list number) (sampleRate threshold : number)
    (startSample endSample : Z) : list Range :=
  let st := fold_left (scanStep data sampleRate threshold endSample)
                      (scanIndices startSample endSample)
                      (mkScan [] false startSample) in
  push (sc_ranges st)
       (mkRange (sc_rangeStart st) endSample
                (if sc_isSpeech st then speech else silence)).

Definition rangeSeconds (r : Range) (sampleRate : number) : number :=
  inject_Z (r_end r - r_start r) / sampleRate.

Definition isSpeechRange (r : Range) : bool :=
  match r_type r with speech => true | silence => false end.

(** [speechSegments] of a clip over the decoded channel [data]. *)
Definition speechSegmentsOf (data : list number) (sampleRate : number)
    (clip : Clip.t) : list Range :=
  let startSample := Qfloor (Clip.offset clip * sampleRate) in
  let endSample :=
    Qfloor ((Clip.offset clip + Clip.duration clip) * sampleRate) in
  let maxVal := peak data startSample endSample in
  let threshold := Math_max 0.01 (maxVal * 0.15) in
  filter (fun r => isSpeechRange r
                   && Qgtb (rangeSeconds r sampleRate) minSpeechDur)
         (detectRanges data sampleRate threshold startSample endSample).

(** [t.splice(t.findIndex(c => c.id === id), 1)] when the id is found. *)
Fixpoint removeFirst (i : string) (t : list Clip.t) : list Clip.t :=
  match t with
  | [] => []
  | c :: r => if hasId i c then r else c :: removeFirst i r
  end.

(** The body of [speechSegments.forEach]: clips created so far and
    [insertTime]; the k-th clip takes the id [ids k]
    (['auto_' + Date.now() + Math.random()]). *)
Definition placeStep (ids : nat -> string) (sampleRate : number)
    (clip : Clip.t) (acc : list Clip.t * number) (seg : Range)
  : list Clip.t * number :=
  let '(newClips, insertTime) := acc in
  let segDuration := inject_Z (r_end seg - r_start seg) / sampleRate in
  let segOffset := inject_Z (r_start seg) / sampleRate in
  let newClip :=
    Clip.mk (ids (length newClips)) (Clip.mediaId clip) insertTime
            segDuration segOffset (Clip.type clip) (Clip.muted clip)
            None None None in
  (push newClips newClip, insertTime + segDuration).

Definition placeSegments (ids : nat -> string) (sampleRate : number)
    (clip : Clip.t) (segs : list Range) : list Clip.t :=
  fst (fold_left (placeStep ids sampleRate clip) segs ([], Clip.startTime clip)).

(** The ripple as the specification words it: one clip per retained
    segment, in order, the k-th with the id [ids k], laid end to end
    from [t0], with [offset = segment.start] and
    [duration = segment.end - segment.start] in seconds, and the media,
    the kind and the mute state of the original. *)
Fixpoint rippleSpec (ids : nat -> string) (sampleRate : number) (clip : Clip.t)
    (k : nat) (t0 : number) (segs : list Range) : list Clip.t :=
  match segs with
  | [] => []
  | seg :: rest =>
      let d := inject_Z (r_end seg - r_start seg) / sampleRate in
      Clip.mk (ids k) (Clip.mediaId clip) t0 d
              (inject_Z (r_start seg) / sampleRate)
              (Clip.type clip) (Clip.muted clip) None None None
      :: rippleSpec ids sampleRate clip (S k) (t0 + d) rest
  end.

(** The samples covered by some ranges. *)
Definition totalSamples (rs : list Range) : Z :=
  fold_right (fun r acc => (r_end r - r_start r + acc)%Z) 0%Z rs.

(** What the classification loop keeps true: every range is well
    oriented, the ranges found so far cover the samples from
    [startSample] to [rangeStart], and [rangeStart] is [startSample] or a
    scanned index. *)
Definition scanInv (startSample endSample : Z) (st : Scan) : Prop :=
  Forall (fun r => (r_start r <= r_end r)%Z) (sc_ranges st)
  /\ totalSamples (sc_ranges st) = (sc_rangeStart st - startSample)%Z
  /\ (sc_rangeStart st = startSample \/ (sc_rangeStart st < endSample)%Z).

(** The tracks once the original is removed and the new clips pushed;
    [None] is the [TypeError] of [state.tracks.audio[0].push] without
    a lane 0. *)
Definition rippleTracks (clip : Clip.t) (newClips : list Clip.t) (t : Tracks)
  : option Tracks :=
  let v := filter (lacksId (Clip.id clip)) (tr_video t) in
  let a := map (removeFirst (Clip.id clip)) (tr_audio t) in
  match Clip.type clip with
  | video => Some (mkTracks (v ++ newClips) a)
  | audio =>
      match a, newClips with
      | lane0 :: rest, _ => Some (mkTracks v ((lane0 ++ newClips) :: rest))
      | [], [] => Some (mkTracks v a)
      | [], _ :: _ => None
      end
  end.

(** [removeSilenceTool()], with the decoded first channel [data] of
    the clip's media at [sampleRate]; [None] is a [TypeError]. *)
Definition removeSilenceTool (ids : nat -> string) (data : list number)
    (sampleRate : number) (s : State) : option State :=
  if falsyId (selectedClipId s) then Some s
  else
    match selectedClipId s with
    | None => Some s
    | Some sel =>
        match findClip sel (tracks s) with
        | None => Some s
        | Some clip =>
            match find (fun m => String.eqb (MediaItem.id m) (Clip.mediaId clip))
                       (media s) with
            | None => None
            | Some _ =>
                let speechSegments := speechSegmentsOf data sampleRate clip in
                match speechSegments with
                | [] => Some s
                | _ =>
                    let s1 := saveState s in
                    let newClips :=
                      placeSegments ids sampleRate clip speechSegments in
                    match rippleTracks clip newClips (tracks s1) with
                    | Some t => Some (set_tracks t s1)
                    | None => None
                    end
                end
            end
        end
    end.

End Part003.

(** ** Sample timelines *)

Module Sample.

Definition film : MediaItem.t :=
  MediaItem.mk "m_film" "blob:film" video "film.mp4" 10.
Definition song : MediaItem.t :=
  MediaItem.mk "m_song" "blob:song" audio "song.mp3" 4.

(** A 10 s video clip at 0, then twice a 4 s audio clip at 0; the video
    clip selected and the playhead at 6 s. *)
Definition ops : list StateService.Op :=
  [ StateService.OpAddClip "clip_v" film 0;
    StateService.OpAddClip "clip_a1" song 0;
    StateService.OpAddClip "clip_a2" song 0;
    StateService.OpSelect (Some "clip_v"%string);
    StateService.OpSeek 6 ].

Definition timeline : StateService.AppState :=
  StateService.run ops StateService.initial.

Definition videoClip : Clip.t :=
  Clip.mk "clip_v" "m_film" 0 10 0 video false (Some 1) None None.
Definition audioClip1 : Clip.t :=
  Clip.mk "clip_a1" "m_song" 0 4 0 audio false (Some 1) None None.
Definition audioClip2 : Clip.t :=
  Clip.mk "clip_a2" "m_song" 0 4 0 audio false (Some 1) None None.

(** A clip cut out of the film between two arbitrary times, and half a
    second and more of loud audio at 48 kHz. *)
Definition cutClip : Clip.t :=
  Clip.mk "clip_c" "m_film" 2 0.50001 0.12345 video false None None None.

Definition loudBuffer : list number := repeat 1 (Z.to_nat 30000).

Definition cutTimeline : Part003.State :=
  Part003.mkState [film] (Part003.mkTracks [cutClip] [[]; []]) 0 false 20
                  (Some "clip_c"%string) [] [].

(** A recorded talk in [script.js]: 0.1 s of speech, 0.2 s of silence
    and 0.1 s of speech at 8 kHz, as one selected audio clip at 1 s. *)
Definition talk : MediaItem.t :=
  MediaItem.mk "m_talk" "blob:talk" audio "talk.m4a" 0.4.

Definition talkClip : Clip.t :=
  Clip.mk "clip_t" "m_talk" 1 0.4 0 audio false None None None.

Definition talkChannels : list (list number) :=
  [ repeat 0.5 (Z.to_nat 800) ++ repeat 0 (Z.to_nat 1600)
    ++ repeat 0.5 (Z.to_nat 800) ].

Definition talkTimeline : Script.State :=
  Script.mkState [talk] (Script.mkTracks [] [talkClip]) 0 false 10
                 (Some "clip_t"%string) [] [].

Definition splitIds (k : nat) : string :=
  match k with
  | O => "split_0"
  | S O => "split_1"
  | _ => "split_2"
  end.





End Sample.

(** ** More of JavaScript's numbers *)

(** [Math.trunc], and [a % b] for numbers: the remainder has the sign of
    the dividend. *)
Definition Math_trunc (q : number) : Z :=
  if Qle_bool 0 q then Qfloor q else Qceiling q.

Definition jsRem (a b : number) : number :=
  a - b * inject_Z (Math_trunc (a / b)).

(** ** [state.ts] : the media library and the signals set from outside *)

Module StateServiceMedia.
Import StateService.

(** [addMedia(item)] *)
Definition addMedia (item : MediaItem.t) (s : AppState) : AppState :=
  mkState (media s ++ [item]) (videoTrack s) (audioTracks s) (playbackTime s)
          (isPlaying s) (zoom s) (selectedClipId s) (historyStack s)
          (redoStack s).

(** [getMedia(id)] *)
Definition getMedia (id : string) (s : AppState) : option MediaItem.t :=
  find (fun m => String.eqb (MediaItem.id m) id) (media s).

(** [playbackTime.set(v)], [zoom.set(v)] and [isPlaying.set(v)], as the
    components call them. *)
Definition set_playbackTime (v : number) (s : AppState) : AppState :=
  mkState (media s) (videoTrack s) (audioTracks s) v (isPlaying s) (zoom s)
          (selectedClipId s) (historyStack s) (redoStack s).
Definition set_zoom (v : number) (s : AppState) : AppState :=
  mkState (media s) (videoTrack s) (audioTracks s) (playbackTime s)
          (isPlaying s) v (selectedClipId s) (historyStack s) (redoStack s).
Definition set_isPlaying (v : bool) (s : AppState) : AppState :=
  mkState (media s) (videoTrack s) (audioTracks s) (playbackTime s)
          v (zoom s) (selectedClipId s) (historyStack s) (redoStack s).

(** The operations whose first statement is [this.saveState()]. *)
Definition savesFirst (o : Op) : bool :=
  match o with
  | OpSave | OpAddSmart _ _ | OpAddClip _ _ _ | OpDeleteClip _ => true
  | _ => false
  end.

End StateServiceMedia.

(** ** [timeline.ts] : the timeline component *)

Module Timeline.
Import StateService StateServiceMedia.

(** The drag state of the component. *)
Record Drag := mkDrag {
  isDragging : bool;
  dragClipId : option string;
  dragStartX : number;
  dragOriginalStart : number
}.

(** The fields as the class initialises them. *)
Definition noDrag : Drag := mkDrag false None 0 0.

(** The inner and the outer [forEach] of [totalWidth]. *)
Definition laneMax (maxTime : number) (lane : list Clip.t) : number :=
  fold_left (fun m c => Math_max m (Clip.startTime c + Clip.duration c))
            lane maxTime.

Definition maxTimeOf (s : AppState) : number :=
  fold_left laneMax (audioTracks s) (laneMax 0 (videoTrack s)).

(** [get totalWidth()] *)
Definition totalWidth (s : AppState) : number :=
  Math_max 20 (maxTimeOf s) * zoom s + 500.

(** [onMouseDown(event, clip)], with [event.clientX]. *)
Definition onMouseDown (clientX : number) (clip : Clip.t)
    (d : Drag) (s : AppState) : Drag * AppState :=
  (mkDrag true (Some (Clip.id clip)) clientX (Clip.startTime clip),
   set_selectedClipId (Some (Clip.id clip)) s).

(** [onMouseMove(event)] *)
Definition onMouseMove (clientX : number) (d : Drag) (s : AppState)
  : Drag * AppState :=
  if negb (isDragging d) || falsyId (dragClipId d) then (d, s)
  else
    match dragClipId d with
    | None => (d, s)
    | Some clipId =>
        let deltaPx := clientX - dragStartX d in
        let deltaSec := deltaPx / zoom s in
        let newStartTime := Math_max 0 (dragOriginalStart d + deltaSec) in
        (d, updateClip clipId (patchStartTime newStartTime) s)
    end.

(** [onMouseUp(event)] *)
Definition onMouseUp (d : Drag) (s : AppState) : Drag * AppState :=
  if isDragging d
  then (mkDrag false None (dragStartX d) (dragOriginalStart d), saveState s)
  else (d, s).

(** [onTimelineClick(event)]; [rectLeft] is the left edge of the tracks
    element. *)
Definition onTimelineClick (clientX rectLeft : number) (s : AppState)
  : AppState :=
  let x := clientX - rectLeft in
  let time := x / zoom s in
  set_selectedClipId None (set_playbackTime (Math_max 0 time) s).

(** [onWheel(event)]; [modifier] is [event.ctrlKey || event.metaKey]. *)
Definition onWheel (modifier : bool) (deltaY : number) (s : AppState)
  : AppState :=
  if modifier then
    let zoomChange := if Qgtb deltaY 0 then 0.9 else 1.1 in
    set_zoom (Math_max 1 (Math_min 200 (zoom s * zoomChange))) s
  else s.

(** [getClipStyle(clip)]: [left] and [width], in pixels. *)
Definition getClipStyle (clip : Clip.t) (s : AppState) : number * number :=
  (Clip.startTime clip * zoom s, Math_max 2 (Clip.duration clip * zoom s)).

(** [getMediaName(clip)] *)
Definition getMediaName (clip : Clip.t) (s : AppState) : string :=
  match getMedia (Clip.mediaId clip) s with
  | Some m => MediaItem.name m
  | None => "Missing"
  end.

(** [onClipClick(event, clip)] *)
Definition onClipClick (clip : Clip.t) (s : AppState) : AppState :=
  set_selectedClipId (Some (Clip.id clip)) s.

(** One turn of the [while] loop of [rulerTicks]. *)
Definition nextInterval (interval : number) : number :=
  if Qltb interval 1 then 1
  else if Qltb interval 2 then 2
  else if Qltb interval 5 then 5
  else if Qltb interval 10 then 10
  else if Qltb interval 30 then 30
  else if Qltb interval 60 then 60
  else interval + 60.

(** The [while] loop of [rulerTicks], run for at most [fuel] turns;
    [None] when it has not stopped by then. *)
Fixpoint tickInterval (fuel : nat) (zoom interval : number) : option number :=
  if Qltb (interval * zoom) 60 then
    match fuel with
    | O => None
    | S fuel' => tickInterval fuel' zoom (nextInterval interval)
    end
  else Some interval.

(** A stop of the loop at [r]: far enough apart, and no earlier rung
    of the ladder would have done. *)
Definition stopsAt (zoom r : number) : Prop :=
  60 <= r * zoom
  /\ 1 <= r
  /\ (r = 1 \/ exists p, nextInterval p = r /\ p * zoom < 60 /\ 1 <= p).

(** The loop started at [interval] stops, at a good place. *)
Definition stopsFrom (zoom interval : number) : Prop :=
  exists fuel r, tickInterval fuel zoom interval = Some r /\ stopsAt zoom r.

(** The values of [t] in [for (t = 0; t <= duration; t += interval)],
    for a positive [interval]. *)
Definition tickTimes (duration interval : number) : list number :=
  if Qltb duration 0 then []
  else map (fun k => inject_Z (Z.of_nat k) * interval)
           (seq 0 (S (Z.to_nat (Qfloor (duration / interval))))).

(** A tick: its position, and the minutes and the seconds of its
    label. *)
Record Tick := mkTick {
  tick_left : number;
  tick_minutes : Z;
  tick_seconds : number
}.

(** [get rulerTicks()] *)
Definition rulerTicks (fuel : nat) (s : AppState) : option (list Tick) :=
  let duration := totalWidth s / zoom s in
  match tickInterval fuel (zoom s) 1 with
  | None => None
  | Some interval =>
      Some (map (fun t => mkTick (t * zoom s) (Qfloor (t / 60)) (jsRem t 60))
                (tickTimes duration interval))
  end.

(** The [onloadedmetadata] handler of [processFile(file, startTime)],
    with the item it builds; [newId] is the id of the clip. *)
Definition processFile (newId : string) (item : MediaItem.t) (startTime : number)
    (s : AppState) : option AppState :=
  addClipToTimeline newId item startTime (addMedia item s).

(** What a run of pointer moves keeps of the state it started in. *)
Definition dragged (i : string) (c : Clip.t) (s s' : AppState) : Prop :=
  (exists t, findClip i s' = Some (Clip.with_startTime t c))
  /\ (forall j, j <> i -> findClip j s' = findClip j s)
  /\ zoom s' = zoom s /\ selectedClipId s' = selectedClipId s
  /\ playbackTime s' = playbackTime s
  /\ historyStack s' = historyStack s /\ redoStack s' = redoStack s.

(** What the pointer does to a clip between mouse down and mouse up. *)
Definition drag (clientX : number) (clip : Clip.t) (moves : list number)
    (d : Drag) (s : AppState) : Drag * AppState :=
  let '(d1, s1) := onMouseDown clientX clip d s in
  let '(d2, s2) :=
    fold_left (fun ds x => onMouseMove x (fst ds) (snd ds)) moves (d1, s1) in
  onMouseUp d2 s2.

End Timeline.

(** ** The toolbar component *)

Module Toolbar.
Import StateService StateServiceMedia.

(** The [onloadedmetadata] handler of [processFile(file)]. *)
Definition processFile (newId : string) (item : MediaItem.t) (s : AppState)
  : option AppState :=
  addToTimelineSmart newId item (addMedia item s).

(** [togglePlay()], as far as the service is concerned. *)
Definition togglePlay (s : AppState) : AppState :=
  set_isPlaying (negb (isPlaying s)) s.

(** [deleteClip()] *)
Definition deleteClip (s : AppState) : AppState :=
  if falsyId (selectedClipId s) then s
  else
    match selectedClipId s with
    | Some id => StateService.deleteClip id s
    | None => s
    end.

(** [zoomIn()] and [zoomOut()] *)
Definition zoomIn (s : AppState) : AppState :=
  set_zoom (Math_min 200 (zoom s * 1.5)) s.
Definition zoomOut (s : AppState) : AppState :=
  set_zoom (Math_max 1 (zoom s / 1.5)) s.

End Toolbar.

(** ** The audio service (second half of [player.ts]) *)

Module AudioService.

(** A pool entry [{ audio, source, gain }]: the source of the audio
    element, its position, whether it is paused, and [gain.gain.value].
    A call of [play()] is taken to start the element. *)
Record Item := mkItem {
  it_url : string;
  it_currentTime : number;
  it_paused : bool;
  it_gain : number
}.

(** [audioPool], in the order the keys were added. *)
Definition Pool := list (string * Item).

(** [audioPool[clipId]] *)
Fixpoint lookup (clipId : string) (pool : Pool) : option Item :=
  match pool with
  | [] => None
  | (k, v) :: r => if String.eqb k clipId then Some v else lookup clipId r
  end.

(** [audioPool[clipId] = item] *)
Fixpoint store (clipId : string) (item : Item) (pool : Pool) : Pool :=
  match pool with
  | [] => [(clipId, item)]
  | (k, v) :: r =>
      if String.eqb k clipId then (k, item) :: r
      else (k, v) :: store clipId item r
  end.

(** [Object.keys(audioPool)] *)
Definition keys (pool : Pool) : list string := map fst pool.

(** [playAudio(clipId, url, startTime, offset, volume, muted, playbackTime)];
    [None] is the [TypeError] of [gain.value] set from a volume that
    is [undefined]. *)
Definition playAudio (clipId url : string) (startTime offset : number)
    (volume : option number) (muted : bool) (playbackTime : number)
    (pool : Pool) : option Pool :=
  let item :=
    match lookup clipId pool with
    | Some item => item
    | None => mkItem url 0 true 1
    end in
  let clipTime := playbackTime - startTime + offset in
  let currentTime :=
    if Qgtb (Qabs (it_currentTime item - clipTime)) 0.3
    then clipTime else it_currentTime item in
  match (if muted then Some 0 else volume) with
  | Some vol => Some (store clipId (mkItem (it_url item) currentTime false vol) pool)
  | None => None
  end.

(** [pauseAudio(clipId)] *)
Definition pauseAudio (clipId : string) (pool : Pool) : Pool :=
  match lookup clipId pool with
  | Some item =>
      if negb (it_paused item)
      then store clipId
             (mkItem (it_url item) (it_currentTime item) true (it_gain item))
             pool
      else pool
  | None => pool
  end.

(** [cleanup(activeClipIds)] *)
Definition cleanup (activeClipIds : list string) (pool : Pool) : Pool :=
  filter (fun kv => existsb (String.eqb (fst kv)) activeClipIds) pool.

End AudioService.

(** ** [player.ts] : the player component *)

Module Player.
Import StateService StateServiceMedia.

(** The video element, as far as the component reads and writes it,
    and the gain node it is routed through. *)
Record VideoEl := mkVideo {
  v_src : string;
  v_currentTime : number;
  v_paused : bool;
  v_readyState : nat;
  v_opacity : number;
  v_scale : number;
  v_gain : number
}.

(** The component: [lastFrameTime], the video element and the pool of
    the audio service. *)
Record t := mk {
  lastFrameTime : number;
  video : VideoEl;
  pool : AudioService.Pool
}.

(** [time >= c.startTime && time < c.startTime + c.duration] *)
Definition covers (time : number) (c : Clip.t) : bool :=
  Qgeb time (Clip.startTime c)
  && Qltb time (Clip.startTime c + Clip.duration c).

(** [getVideoClipAtTime(time)] *)
Definition getVideoClipAtTime (time : number) (s : AppState) : option Clip.t :=
  find (covers time) (videoTrack s).

(** [getActiveClips(time)] *)
Definition getActiveClips (time : number) (s : AppState) : list Clip.t :=
  fold_left
    (fun clips track =>
       fold_left (fun clips c => if covers time c then push clips c else clips)
                 track clips)
    (audioTracks s) [].

(** The video half of [syncMedia(time, videoDriving)]; [None] is the
    [TypeError] of a gain set from a clip without a volume. *)
Definition syncVideo (time : number) (videoDriving : bool) (s : AppState)
    (v : VideoEl) : option VideoEl :=
  match getVideoClipAtTime time s with
  | Some videoClip =>
      let src :=
        match getMedia (Clip.mediaId videoClip) s with
        | Some media =>
            if negb (String.eqb (v_src v) (MediaItem.url media))
            then MediaItem.url media else v_src v
        | None => v_src v
        end in
      let clipTime := time - Clip.startTime videoClip + Clip.offset videoClip in
      let currentTime :=
        if negb videoDriving && Qgtb (Qabs (v_currentTime v - clipTime)) 0.1
        then clipTime else v_currentTime v in
      match (if Clip.muted videoClip then Some 0 else Clip.volume videoClip) with
      | None => None
      | Some vol =>
          let scale :=
            match Clip.stabilized videoClip with
            | Some true => 1.1
            | _ => 1
            end in
          let paused :=
            if isPlaying s && v_paused v then false
            else if negb (isPlaying s) && negb (v_paused v) then true
            else v_paused v in
          Some (mkVideo src currentTime paused (v_readyState v) 1 scale vol)
      end
  | None =>
      Some (mkVideo (v_src v) (v_currentTime v) true (v_readyState v) 0
                    (v_scale v) 0)
  end.

(** The body of [activeClips.forEach] in [syncMedia]. *)
Definition syncClip (time : number) (s : AppState)
    (acc : option AudioService.Pool) (clip : Clip.t)
  : option AudioService.Pool :=
  match acc with
  | None => None
  | Some pool =>
      match getMedia (Clip.mediaId clip) s with
      | Some media =>
          if negb (String.eqb (MediaItem.url media) EmptyString) then
            AudioService.playAudio (Clip.id clip) (MediaItem.url media)
              (Clip.startTime clip) (Clip.offset clip) (Clip.volume clip)
              (Clip.muted clip) time pool
          else Some pool
      | None => Some pool
      end
  end.

(** The audio half of [syncMedia]. *)
Definition syncAudio (time : number) (s : AppState) (pool : AudioService.Pool)
  : option AudioService.Pool :=
  let activeClips := getActiveClips time s in
  fold_left (syncClip time s) activeClips
            (Some (AudioService.cleanup (map Clip.id activeClips) pool)).

(** A clip of the timeline with a media item to play. *)
Definition playable (s : AppState) (c : Clip.t) : Prop :=
  exists m, getMedia (Clip.mediaId c) s = Some m
            /\ MediaItem.url m <> EmptyString.

(** What the loop of [syncMedia] over the active clips has reached
    when the clips [done] are behind it. *)
Definition poolInv (s : AppState) (ids : list string) (done : list Clip.t)
    (pool : AudioService.Pool) : Prop :=
  (forall k, In k (AudioService.keys pool) -> In k ids)
  /\ forall c, In c done -> playable s c ->
       exists item, AudioService.lookup (Clip.id c) pool = Some item
                    /\ AudioService.it_paused item = false.

(** [syncMedia(time, videoDriving)] *)
Definition syncMedia (time : number) (videoDriving : bool) (s : AppState)
    (p : t) : option t :=
  match syncVideo time videoDriving s (video p) with
  | None => None
  | Some v =>
      match syncAudio time s (pool p) with
      | None => None
      | Some pool' => Some (mk (lastFrameTime p) v pool')
      end
  end.

(** [togglePlay()] *)
Definition togglePlay (p : t) (s : AppState) : t * AppState :=
  let s1 := set_isPlaying (negb (isPlaying s)) s in
  if isPlaying s1 then (p, s1)
  else
    let v := video p in
    let v' := mkVideo (v_src v) (v_currentTime v) true (v_readyState v)
                      (v_opacity v) (v_scale v) (v_gain v) in
    let activeClips := getActiveClips (playbackTime s1) s1 in
    (mk (lastFrameTime p) v'
        (fold_left (fun pool c => AudioService.pauseAudio (Clip.id c) pool)
                   activeClips (pool p)),
     s1).

(** [renderLoop(timestamp)]; [None] when [syncMedia] throws. *)
Definition renderLoop (timestamp : number) (p : t) (s : AppState)
  : option (t * AppState) :=
  if isPlaying s then
    let last :=
      if Qeq_bool (lastFrameTime p) 0 then timestamp else lastFrameTime p in
    let dt := (timestamp - last) / 1000 in
    let p1 := mk timestamp (video p) (pool p) in
    let currentTime := playbackTime s in
    let driven :=
      match getVideoClipAtTime currentTime s with
      | Some videoClip =>
          if negb (v_paused (video p)) && (2 <? v_readyState (video p))%nat then
            let currentVideoTime := v_currentTime (video p) in
            let newTime :=
              Clip.startTime videoClip
              + (currentVideoTime - Clip.offset videoClip) in
            if Qltb (Qabs (newTime - currentTime)) 0.5 then Some newTime
            else None
          else None
      | None => None
      end in
    let '(videoDriving, s1) :=
      match driven with
      | Some newTime => (true, set_playbackTime newTime s)
      | None => (false, set_playbackTime (playbackTime s + dt) s)
      end in
    match syncMedia (playbackTime s1) videoDriving s1 p1 with
    | Some p2 => Some (p2, s1)
    | None => None
    end
  else Some (mk 0 (video p) (pool p), s).

(** The effect registered by the constructor: a sync whenever the
    player is paused. *)
Definition pausedEffect (p : t) (s : AppState) : option t :=
  if negb (isPlaying s) then syncMedia (playbackTime s) false s p
  else Some p.

End Player.

(** ** The Angular application: one service shared by three components *)

Module App.
Import StateService StateServiceMedia.

Record t := mk {
  svc : AppState;
  dragState : Timeline.Drag;
  player : Player.t
}.

(** The application as it starts: a fresh service, no drag, and a video
    element that has loaded nothing. *)
Definition start : t :=
  mk initial Timeline.noDrag
     (Player.mk 0 (Player.mkVideo EmptyString 0 true 0 1 1 1) []).

(** What the user, the browser and the frame clock can do.  A file
    event stands for the [onloadedmetadata] handler of [processFile],
    with the media item it builds and the id of the new clip. *)
Inductive Event :=
| MouseDown (clientX : number) (clip : Clip.t)
| MouseMove (clientX : number)
| MouseUp
| TimelineClick (clientX rectLeft : number)
| Wheel (modifier : bool) (deltaY : number)
| ClipClick (clip : Clip.t)
| FileDropped (newId : string) (item : MediaItem.t) (startTime : number)
| FileChosen (newId : string) (item : MediaItem.t)
| TogglePlay
| Delete
| Undo
| Redo
| ZoomIn
| ZoomOut
| Split (newId : string)
| PlayerTogglePlay
| Frame (timestamp : number)
| Effect
| VideoProgress (currentTime : number) (paused : bool) (readyState : nat).

(** One event; [None] when its handler throws. *)
Definition handle (a : t) (e : Event) : option t :=
  let s := svc a in
  match e with
  | MouseDown x clip =>
      let '(d, s') := Timeline.onMouseDown x clip (dragState a) s in
      Some (mk s' d (player a))
  | MouseMove x =>
      let '(d, s') := Timeline.onMouseMove x (dragState a) s in
      Some (mk s' d (player a))
  | MouseUp =>
      let '(d, s') := Timeline.onMouseUp (dragState a) s in
      Some (mk s' d (player a))
  | TimelineClick x rectLeft =>
      Some (mk (Timeline.onTimelineClick x rectLeft s) (dragState a) (player a))
  | Wheel m dy => Some (mk (Timeline.onWheel m dy s) (dragState a) (player a))
  | ClipClick clip =>
      Some (mk (Timeline.onClipClick clip s) (dragState a) (player a))
  | FileDropped newId item startTime =>
      option_map (fun s' => mk s' (dragState a) (player a))
                 (Timeline.processFile newId item startTime s)
  | FileChosen newId item =>
      option_map (fun s' => mk s' (dragState a) (player a))
                 (Toolbar.processFile newId item s)
  | TogglePlay => Some (mk (Toolbar.togglePlay s) (dragState a) (player a))
  | Delete => Some (mk (Toolbar.deleteClip s) (dragState a) (player a))
  | Undo => Some (mk (undo s) (dragState a) (player a))
  | Redo => Some (mk (redo s) (dragState a) (player a))
  | ZoomIn => Some (mk (Toolbar.zoomIn s) (dragState a) (player a))
  | ZoomOut => Some (mk (Toolbar.zoomOut s) (dragState a) (player a))
  | Split newId => Some (mk (splitClip newId s) (dragState a) (player a))
  | PlayerTogglePlay =>
      let '(p, s') := Player.togglePlay (player a) s in
      Some (mk s' (dragState a) p)
  | Frame timestamp =>
      option_map (fun ps => mk (snd ps) (dragState a) (fst ps))
                 (Player.renderLoop timestamp (player a) s)
  | Effect =>
      option_map (fun p => mk s (dragState a) p)
                 (Player.pausedEffect (player a) s)
  | VideoProgress currentTime paused readyState =>
      let p := player a in
      let v := Player.video p in
      Some (mk s (dragState a)
               (Player.mk (Player.lastFrameTime p)
                  (Player.mkVideo (Player.v_src v) currentTime paused readyState
                     (Player.v_opacity v) (Player.v_scale v) (Player.v_gain v))
                  (Player.pool p)))
  end.

(** A sequence of events, stopping at the first handler that throws. *)
Fixpoint run (es : list Event) (a : t) : option t :=
  match es with
  | [] => Some a
  | e :: r =>
      match handle a e with
      | Some a' => run r a'
      | None => None
      end
  end.

(** A clip as the service makes them: a volume, a start and a duration
    that are not negative, and a media item in the library [lib]. *)
Definition clipOk (lib : list MediaItem.t) (c : Clip.t) : Prop :=
  Clip.volume c <> None
  /\ 0 <= Clip.startTime c /\ 0 <= Clip.duration c
  /\ find (fun m => String.eqb (MediaItem.id m) (Clip.mediaId c)) lib <> None.

(** A snapshot the application can be in: a zoom between 1 and 200,
    two audio lanes, and clips that are all well formed. *)
Definition snapOk (lib : list MediaItem.t) (x : Snapshot) : Prop :=
  1 <= snap_zoom x /\ snap_zoom x <= 200
  /\ length (snap_audioTracks x) = 2%nat
  /\ Forall (clipOk lib) (snap_videoTrack x ++ concat (snap_audioTracks x)).

(** What every event keeps true: the current state and every entry of
    the two stacks are such snapshots. *)
Definition soundService (s : AppState) : Prop :=
  snapOk (media s) (snapshot s)
  /\ Forall (snapOk (media s)) (historyStack s)
  /\ Forall (snapOk (media s)) (redoStack s).

Definition sound (a : t) : Prop := soundService (svc a).

(** The files the browser hands over: their duration is
    [element.duration || 0], never negative. *)
Definition fromBrowser (e : Event) : Prop :=
  match e with
  | FileDropped _ item _ | FileChosen _ item => 0 <= MediaItem.duration item
  | _ => True
  end.

End App.

(** ** A sample session *)

Module Session.

(** A film chosen in the toolbar, a song dropped twice at 0, the film
    selected, the playhead put at 6 s. *)
Definition events : list App.Event :=
  [ App.FileChosen "clip_v" Sample.film;
    App.FileDropped "clip_a1" Sample.song 0;
    App.FileDropped "clip_a2" Sample.song 0;
    App.ClipClick Sample.videoClip;
    App.TimelineClick 130 10 ].

Definition service : StateService.AppState :=
  match App.run events App.start with
  | Some a => App.svc a
  | None => StateService.initial
  end.

End Session.

(** ** [script.js] : zooming and the filmstrip *)

Module ScriptView.
Import Script.

(** The tracks element: the left edge and the width of its bounding
    rectangle, and its [scrollLeft] as it is read and as it is assigned
    (a browser that cuts an assigned value down to the scrollable width
    is not represented). *)
Record View := mkView {
  rectLeft : number;
  rectWidth : number;
  scrollLeft : number
}.

Definition set_zoom (v : number) (s : State) : State :=
  mkState (media s) (tracks s) (playbackTime s) (isPlaying s) v
          (selectedClipId s) (historyStack s) (redoStack s).

(** [centerClientX || (rect.left + rect.width / 2)]: a missing or zero
    argument is falsy. *)
Definition orCentre (centerClientX : option number) (v : View) : number :=
  match centerClientX with
  | Some x => if Qeq_bool x 0 then rectLeft v + rectWidth v / 2 else x
  | None => rectLeft v + rectWidth v / 2
  end.

(** [zoom(newZoom, centerClientX)]: the state, the scroll position it
    assigns and the thumbnail queue as it leaves it to
    [renderTimeline()]. *)
Definition zoom (newZoom : number) (centerClientX : option number)
    (s : State) (v : View) (q : list ThumbTask)
  : State * View * list ThumbTask :=
  let mouseX := orCentre centerClientX v - rectLeft v in
  let timeAtMouse := (mouseX + scrollLeft v) / Script.zoom s in
  let oldZoom := Script.zoom s in
  let s' := set_zoom (Math_max 1 (Math_min 200 newZoom)) s in
  let q' :=
    if Qgtb (Qabs (Script.zoom s' - oldZoom) / oldZoom) 0.2 then [] else q in
  let newScroll := timeAtMouse * Script.zoom s' - mouseX in
  (s', mkView (rectLeft v) (rectWidth v) (Math_max 0 newScroll), q').

(** The [wheel] listener, with [e.ctrlKey || e.metaKey], [e.deltaY] and
    [e.clientX]. *)
Definition onWheel (modifier : bool) (deltaY clientX : number)
    (s : State) (v : View) (q : list ThumbTask)
  : State * View * list ThumbTask :=
  if modifier then
    let zoomChange := if Qgtb deltaY 0 then 0.9 else 1.1 in
    zoom (Script.zoom s * zoomChange) (Some clientX) s v q
  else (s, v, q).

(** The time shown under the pixel [x] of the tracks element. *)
Definition timeAt (x : number) (s : State) (v : View) : number :=
  (x - rectLeft v + scrollLeft v) / Script.zoom s.

(** The scroll container around the tracks: [scrollLeft] and
    [clientWidth]. *)
Record Container := mkContainer {
  containerScroll : number;
  containerWidth : number
}.

(** [numThumbs] and [thumbWidth] of [drawVideoThumbnails]. *)
Definition numThumbs (clip : Clip.t) (s : State) : Z :=
  Qceiling (Clip.duration clip * Script.zoom s / 150).

Definition thumbWidth (clip : Clip.t) (s : State) : number :=
  Clip.duration clip * Script.zoom s / inject_Z (numThumbs clip s).

(** The test made on the whole clip and on each thumbnail: out of the
    visible part of the container. *)
Definition hidden (left right : number) (c : Container) : bool :=
  Qltb right (containerScroll c)
  || Qgtb left (containerScroll c + containerWidth c).

(** The thumbnails of a clip that pass the visibility tests: the index
    [i] and [thumbTime] of each. *)
Definition visibleThumbs (clip : Clip.t) (s : State) (c : Container)
  : list (Z * number) :=
  let clipLeft := Clip.startTime clip * Script.zoom s in
  let clipRight := (Clip.startTime clip + Clip.duration clip) * Script.zoom s in
  if hidden clipLeft clipRight c then []
  else
    let n := numThumbs clip s in
    let w := thumbWidth clip s in
    flat_map
      (fun k =>
         let i := Z.of_nat k in
         let thumbOffset := inject_Z i * w in
         let thumbAbsLeft := clipLeft + thumbOffset in
         if hidden thumbAbsLeft (thumbAbsLeft + w) c then []
         else [(i, Clip.offset clip
                   + inject_Z i * (Clip.duration clip / inject_Z n))])
      (seq 0 (Z.to_nat n)).

(** The frame drawn by [exportLoop] on a canvas of [cw] by [ch] pixels
    for a video of [vw] by [vh]: [x], [y], [w], [h]. *)
Definition fitFrame (cw ch vw vh : number) : number * number * number * number :=
  let scale := Math_min (cw / vw) (ch / vh) in
  let w := vw * scale in
  let h := vh * scale in
  let x := (cw - w) / 2 in
  let y := (ch - h) / 2 in
  (x, y, w, h).

(** One capture at a time.  While [isProcessingThumbs] is set exactly
    one [seeked] listener waits on the shared video, with its [error]
    listener registered beside it; while it is not set none waits. *)
Definition oneAtATime (t : Thumbs) : Prop :=
  if isProcessingThumbs t then
    exists l, seekedListeners t = [l]
      /\ existsb (fun e => (tk_tag e =? tk_tag l)%nat) (errorListeners t) = true
  else seekedListeners t = [].

(** The sample [i] lies in the chunk [c]: [c.start <= i / sampleRate]
    and [i / sampleRate < c.end]. *)
Definition inChunk (sampleRate : number) (i : nat) (c : Chunk) : bool :=
  Qle_bool (ch_start c) (seconds i sampleRate)
  && Qltb (seconds i sampleRate) (ch_end c).

(** What the detection loop keeps true when it has read the samples
    below [i]: the chunks so far cover exactly the loud samples below
    [lastChangeIndex], and the samples from there on are all loud or
    all quiet, as [isSilent] says. *)
Definition exactSoFar (channels : list (list number)) (sr : number) (i : nat)
    (st : Scan) : Prop :=
  (sc_lastChangeIndex st <= i)%nat
  /\ Forall (fun c => ch_end c <= seconds (sc_lastChangeIndex st) sr)
            (sc_chunks st)
  /\ (forall j, (j < sc_lastChangeIndex st)%nat ->
        existsb (inChunk sr j) (sc_chunks st)
        = Qgtb (amplitudeAt channels j) 0.005)
  /\ (forall j, (sc_lastChangeIndex st <= j < i)%nat ->
        Qgtb (amplitudeAt channels j) 0.005 = negb (sc_isSilent st)).

End ScriptView.

(** ** [script.js] : the playback engine *)

Module ScriptPlayer.
Import Script.

(** [mainVideo], as far as the engine reads and writes it. *)
Record VideoEl := mkVideo {
  v_src : string;
  v_currentTime : number;
  v_paused : bool;
  v_muted : bool;
  v_opacity : number
}.

(** An element of [audioPool]; a call of [play()] is taken to start
    it. *)
Record AudioEl := mkAudio {
  a_url : string;
  a_currentTime : number;
  a_paused : bool
}.

(** The engine: the video element, [audioPool] in the order of its
    keys, [lastTime], and the scroll position and the width of the
    container of the tracks. *)
Record t := mk {
  video : VideoEl;
  audioPool : list (string * AudioEl);
  lastTime : number;
  scroll : number;
  offsetWidth : number
}.

Definition set_playbackTime (v : number) (s : State) : State :=
  mkState (media s) (tracks s) v (isPlaying s) (zoom s) (selectedClipId s)
          (historyStack s) (redoStack s).
Definition set_isPlaying (v : bool) (s : State) : State :=
  mkState (media s) (tracks s) (playbackTime s) v (zoom s) (selectedClipId s)
          (historyStack s) (redoStack s).

(** [state.playbackTime >= c.startTime &&
     state.playbackTime < c.startTime + c.duration] *)
Definition covers (time : number) (c : Clip.t) : bool :=
  Qgeb time (Clip.startTime c)
  && Qltb time (Clip.startTime c + Clip.duration c).

(** [state.media.find(m => m.id === clip.mediaId)] *)
Definition mediaOf (clip : Clip.t) (s : State) : option MediaItem.t :=
  find (fun m => String.eqb (MediaItem.id m) (Clip.mediaId clip)) (media s).

(** [audioPool[id]] and [audioPool[id] = audio] *)
Fixpoint lookup (id : string) (pool : list (string * AudioEl)) : option AudioEl :=
  match pool with
  | [] => None
  | (k, v) :: r => if String.eqb k id then Some v else lookup id r
  end.

Fixpoint store (id : string) (a : AudioEl) (pool : list (string * AudioEl))
  : list (string * AudioEl) :=
  match pool with
  | [] => [(id, a)]
  | (k, v) :: r =>
      if String.eqb k id then (k, a) :: r else (k, v) :: store id a r
  end.

(** [if (state.isPlaying && el.paused) el.play();
     else if (!state.isPlaying && !el.paused) el.pause()] *)
Definition follow (playing paused : bool) : bool :=
  if playing && paused then false
  else if negb playing && negb paused then true
  else paused.

(** The first part of [syncVideo()]: the video track.  [None] is the
    [TypeError] of [media.url] for a clip whose media item is gone. *)
Definition syncMain (s : State) (v : VideoEl) : option VideoEl :=
  match find (covers (playbackTime s)) (tr_video (tracks s)) with
  | Some clip =>
      match mediaOf clip s with
      | None => None
      | Some media =>
          let src :=
            if negb (String.eqb (v_src v) (MediaItem.url media))
            then MediaItem.url media else v_src v in
          let clipTime :=
            playbackTime s - Clip.startTime clip + Clip.offset clip in
          let currentTime :=
            if Qgtb (Qabs (v_currentTime v - clipTime)) 0.3
            then clipTime else v_currentTime v in
          Some (mkVideo src currentTime (follow (isPlaying s) (v_paused v))
                        (Clip.muted clip) 1)
      end
  | None => Some (mkVideo (v_src v) (v_currentTime v) true (v_muted v) 0)
  end.

(** The body of [activeAudioClips.forEach]. *)
Definition syncOne (s : State) (acc : option (list (string * AudioEl)))
    (clip : Clip.t) : option (list (string * AudioEl)) :=
  match acc with
  | None => None
  | Some pool =>
      let fresh :=
        match lookup (Clip.id clip) pool with
        | Some el => Some el
        | None =>
            match mediaOf clip s with
            | Some media => Some (mkAudio (MediaItem.url media) 0 true)
            | None => None
            end
        end in
      match fresh with
      | None => None
      | Some el =>
          let clipTime :=
            playbackTime s - Clip.startTime clip + Clip.offset clip in
          let currentTime :=
            if Qgtb (Qabs (a_currentTime el - clipTime)) 0.3
            then clipTime else a_currentTime el in
          Some (store (Clip.id clip)
                      (mkAudio (a_url el) currentTime
                               (follow (isPlaying s) (a_paused el)))
                      pool)
      end
  end.

(** The second part of [syncVideo()]: the audio track. *)
Definition syncPool (s : State) (pool : list (string * AudioEl))
  : option (list (string * AudioEl)) :=
  let activeAudioClips :=
    filter (covers (playbackTime s)) (tr_audio (tracks s)) in
  let kept :=
    filter (fun kv => existsb (hasId (fst kv)) activeAudioClips) pool in
  fold_left (syncOne s) activeAudioClips (Some kept).

(** [syncVideo()] *)
Definition syncVideo (s : State) (p : t) : option t :=
  match syncMain s (video p) with
  | None => None
  | Some v =>
      match syncPool s (audioPool p) with
      | None => None
      | Some pool => Some (mk v pool (lastTime p) (scroll p) (offsetWidth p))
      end
  end.

(** [renderLoop(timestamp)]; [None] when [syncVideo] throws, which
    also ends the loop. *)
Definition renderLoop (timestamp : number) (s : State) (p : t)
  : option (State * t) :=
  if isPlaying s then
    let last := if Qeq_bool (lastTime p) 0 then timestamp else lastTime p in
    let delta := (timestamp - last) / 1000 in
    let s1 := set_playbackTime (playbackTime s + delta) s in
    match syncVideo s1 (mk (video p) (audioPool p) last (scroll p) (offsetWidth p)) with
    | None => None
    | Some p1 =>
        let playheadPos := playbackTime s1 * zoom s1 in
        let scroll' :=
          if Qgtb playheadPos (scroll p1 + offsetWidth p1 - 50)
          then playheadPos - 50 else scroll p1 in
        Some (s1, mk (video p1) (audioPool p1) timestamp scroll' (offsetWidth p1))
    end
  else Some (s, mk (video p) (audioPool p) timestamp (scroll p) (offsetWidth p)).

(** [togglePlay()] *)
Definition togglePlay (s : State) (p : t) : State * t :=
  let s1 := set_isPlaying (negb (isPlaying s)) s in
  if negb (isPlaying s1) then
    let v := video p in
    (s1, mk (mkVideo (v_src v) (v_currentTime v) true (v_muted v) (v_opacity v))
            (map (fun kv => (fst kv, mkAudio (a_url (snd kv))
                                             (a_currentTime (snd kv)) true))
                 (audioPool p))
            (lastTime p) (scroll p) (offsetWidth p))
  else (s1, mk (video p) (audioPool p) 0 (scroll p) (offsetWidth p)).

(** A run of animation frames. *)
Fixpoint frames (timestamps : list number) (s : State) (p : t)
  : option (State * t) :=
  match timestamps with
  | [] => Some (s, p)
  | ts :: r =>
      match renderLoop ts s p with
      | Some (s', p') => frames r s' p'
      | None => None
      end
  end.

(** Every clip of the two tracks has its media item in the library. *)
Definition allMedia (s : State) : Prop :=
  Forall (fun c => mediaOf c s <> None)
         (tr_video (tracks s) ++ tr_audio (tracks s)).

End ScriptPlayer.

(** A film of 10 s with a song of 4 s under it from 1 s on, in
    [script.js], and the engine before the first frame. *)
Module ScriptSession.

Definition movie : Script.State :=
  Script.mkState [Sample.film; Sample.song]
    (Script.mkTracks
       [Clip.mk "clip_v" "m_film" 0 10 0 video false None None None]
       [Clip.mk "clip_a" "m_song" 1 4 0 audio false None None None])
    0 false 10 None [] [].

Definition engine : ScriptPlayer.t :=
  ScriptPlayer.mk (ScriptPlayer.mkVideo EmptyString 0 true false 1) [] 0 0 800.

End ScriptSession.

(** ** [part_003], second script : dragging and the audio of a clip *)

Module Part003Tools.
Import Part003.

(** [isDragging], [dragClipId], [dragStartX] and [dragOriginalStart]. *)
Record Drag := mkDrag {
  isDragging : bool;
  dragClipId : option string;
  dragStartX : number;
  dragOriginalStart : number
}.

Definition noDrag : Drag := mkDrag false None 0 0.

Definition set_selectedClipId (v : option string) (s : State) : State :=
  mkState (media s) (tracks s) (playbackTime s) (isPlaying s) (zoom s)
          v (historyStack s) (redoStack s).

(** An assignment [clip.f = v] on the object that [findClip(id)]
    returns: the first clip of that id in the video track, or else in
    the first lane that holds one. *)
Fixpoint mutateInLanes (i : string) (f : Clip.t -> Clip.t)
    (lanes : list (list Clip.t)) : list (list Clip.t) :=
  match lanes with
  | [] => []
  | t :: r =>
      match find (hasId i) t with
      | Some _ => Script.mutateFirst i f t :: r
      | None => t :: mutateInLanes i f r
      end
  end.

Definition mutateClip (i : string) (f : Clip.t -> Clip.t) (t : Tracks) : Tracks :=
  match find (hasId i) (tr_video t) with
  | Some _ => mkTracks (Script.mutateFirst i f (tr_video t)) (tr_audio t)
  | None => mkTracks (tr_video t) (mutateInLanes i f (tr_audio t))
  end.

(** [handleMouseDown(e)]; [clipId] is the [data-clip-id] of the clip
    element under the pointer, if there is one. *)
Definition handleMouseDown (clipId : option string) (clientX : number)
    (d : Drag) (s : State) : Drag * State :=
  match clipId with
  | None => (d, s)
  | Some i =>
      match findClip i (tracks s) with
      | Some clip =>
          (mkDrag true (Some i) clientX (Clip.startTime clip),
           set_selectedClipId (Some i) s)
      | None => (mkDrag true (Some i) clientX (dragOriginalStart d), s)
      end
  end.

(** [handleMouseMove(e)] *)
Definition handleMouseMove (clientX : number) (d : Drag) (s : State)
  : Drag * State :=
  if negb (isDragging d) || falsyId (dragClipId d) then (d, s)
  else
    match dragClipId d with
    | None => (d, s)
    | Some i =>
        let deltaPx := clientX - dragStartX d in
        let deltaSec := deltaPx / zoom s in
        match findClip i (tracks s) with
        | Some _ =>
            (d, set_tracks
                  (mutateClip i
                     (Clip.with_startTime
                        (Math_max 0 (dragOriginalStart d + deltaSec)))
                     (tracks s))
                  s)
        | None => (d, s)
        end
    end.

(** [handleMouseUp()] *)
Definition handleMouseUp (d : Drag) (s : State) : Drag * State :=
  if isDragging d
  then (mkDrag false None (dragStartX d) (dragOriginalStart d), saveState s)
  else (d, s).

(** A drag: the button goes down on the clip [i] at [x0], the pointer
    passes through [xs], and the button is released. *)
Definition drag (i : string) (x0 : number) (xs : list number)
    (d : Drag) (s : State) : Drag * State :=
  let '(d1, s1) := handleMouseDown (Some i) x0 d s in
  let '(d2, s2) :=
    fold_left (fun ds x => handleMouseMove x (fst ds) (snd ds)) xs (d1, s1) in
  handleMouseUp d2 s2.

(** What a run of pointer moves keeps of the state [s] it started in:
    the dragged clip is [c] at another start time, and nothing else has
    changed. *)
Definition held (i : string) (c : Clip.t) (s s' : State) : Prop :=
  (exists t, findClip i (tracks s') = Some (Clip.with_startTime t c))
  /\ (forall j, j <> i -> findClip j (tracks s') = findClip j (tracks s))
  /\ zoom s' = zoom s /\ selectedClipId s' = selectedClipId s
  /\ playbackTime s' = playbackTime s
  /\ historyStack s' = historyStack s /\ redoStack s' = redoStack s.

(** [clip.muted = true] *)
Definition mute (c : Clip.t) : Clip.t :=
  Clip.mk (Clip.id c) (Clip.mediaId c) (Clip.startTime c) (Clip.duration c)
          (Clip.offset c) (Clip.type c) true (Clip.volume c)
          (Clip.isSilence c) (Clip.stabilized c).

(** [extractAudio()]; [newId] is ['audio_' + Date.now()], and [None]
    is the [TypeError] of [state.tracks.audio[0].push] without a
    lane 0. *)
Definition extractAudio (newId : string) (s : State) : option State :=
  if falsyId (selectedClipId s) then Some s
  else
    match selectedClipId s with
    | None => Some s
    | Some sel =>
        match find (hasId sel) (tr_video (tracks s)) with
        | None => Some s
        | Some clip =>
            let s1 := saveState s in
            let audioClip :=
              Clip.mk newId (Clip.mediaId clip) (Clip.startTime clip)
                      (Clip.duration clip) (Clip.offset clip) audio false
                      (Clip.volume clip) (Clip.isSilence clip)
                      (Clip.stabilized clip) in
            match tr_audio (tracks s1) with
            | [] => None
            | lane0 :: rest =>
                Some (set_tracks
                        (mkTracks
                           (Script.mutateFirst sel mute (tr_video (tracks s1)))
                           (push lane0 audioClip :: rest))
                        s1)
            end
        end
    end.

(** Ranges that follow one another from [a] to [b], none of them
    reversed. *)
Fixpoint tiles (a b : Z) (rs : list Range) : Prop :=
  match rs with
  | [] => a = b
  | r :: rest => r_start r = a /\ (a <= r_end r)%Z /\ tiles (r_end r) b rest
  end.

(** Ranges of silence and of speech in turn, the first of the kind
    [first]. *)
Fixpoint alternating (first : bool) (rs : list Range) : Prop :=
  match rs with
  | [] => True
  | r :: rest => isSpeechRange r = first /\ alternating (negb first) rest
  end.

(** What the classification loop keeps true: the ranges so far follow
    one another from [startSample] to [rangeStart], silence and speech
    in turn, and [isSpeech] tells the kind of the range that is open. *)
Definition turns (startSample : Z) (st : Scan) : Prop :=
  tiles startSample (sc_rangeStart st) (sc_ranges st)
  /\ alternating false (sc_ranges st)
  /\ sc_isSpeech st = Nat.odd (length (sc_ranges st)).

End Part003Tools.

(** * Properties *)

(** ** Arrays *)

Section ArrayFacts.
Context {A : Type}.
Implicit Types (a : list A) (x : A).

Lemma top_push a x : top (push a x) = Some x.
Proof.
  unfold push. induction a as [|y r IH]; simpl; [reflexivity|].
  destruct (r ++ [x]) eqn:E; [destruct r; discriminate|exact IH].
Qed.

Lemma removelast_push a x : removelast (push a x) = a.
Proof. unfold push. apply removelast_last. Qed.

Lemma pop_push a x : pop (push a x) = Some (x, a).
Proof. unfold pop. now rewrite top_push, removelast_push. Qed.

Lemma length_push a x : length (push a x) = S (length a).
Proof. unfold push. rewrite length_app. simpl. lia. Qed.

Lemma top_nil_iff a : top a = None <-> a = [].
Proof.
  split; [|intros ->; reflexivity].
  induction a as [|y r IH]; [reflexivity|].
  simpl. destruct r; [discriminate|]. intros H. specialize (IH H). discriminate.
Qed.

Lemma top_tl a x : (2 <= length a)%nat -> top a = Some x -> top (tl a) = Some x.
Proof.
  destruct a as [|y [|z r]]; simpl; try lia. intros _ H. exact H.
Qed.

Lemma pop_length a x r : pop a = Some (x, r) -> length a = S (length r).
Proof.
  unfold pop. destruct (top a) eqn:E; [|discriminate].
  intros H. injection H as _ <-.
  assert (Hne : a <> []) by (intros ->; discriminate).
  destruct (exists_last Hne) as [r [y ->]].
  rewrite removelast_last, length_app. simpl. lia.
Qed.

Lemma pop_some a : a <> [] -> exists x r, pop a = Some (x, r) /\ a = push r x.
Proof.
  intros H. destruct (exists_last H) as [r [x ->]].
  exists x, r. split; [apply pop_push|reflexivity].
Qed.
End ArrayFacts.

(** ** Searching and updating arrays *)

Section SearchFacts.
Context {A : Type}.
Implicit Types (p : A -> bool) (l : list A) (x c : A).

Lemma find_none_existsb p l : find p l = None <-> existsb p l = false.
Proof.
  induction l as [|y l IH]; simpl; [tauto|].
  destruct (p y); simpl; [split; discriminate|exact IH].
Qed.

Lemma find_decompose p l c :
  find p l = Some c ->
  exists l1 l2, l = l1 ++ c :: l2 /\ p c = true /\ existsb p l1 = false.
Proof.
  induction l as [|y l IH]; simpl; [discriminate|].
  destruct (p y) eqn:E.
  - intros H. injection H as ->. exists [], l. auto.
  - intros H. destruct (IH H) as [l1 [l2 [-> [Hc Hn]]]].
    exists (y :: l1), l2. simpl. rewrite E. auto.
Qed.

Lemma findIndex_none p l : existsb p l = false -> findIndex p l = None.
Proof.
  induction l as [|y l IH]; simpl; [reflexivity|].
  destruct (p y); simpl; [discriminate|]. intros H. now rewrite IH.
Qed.

Lemma findIndex_mid p l1 c l2 :
  existsb p l1 = false -> p c = true ->
  findIndex p (l1 ++ c :: l2) = Some (length l1).
Proof.
  intros Hn Hc. induction l1 as [|y l1 IH]; simpl in *.
  - now rewrite Hc.
  - destruct (p y); simpl in *; [discriminate|]. now rewrite IH.
Qed.

Lemma nth_error_mid l1 c l2 : nth_error (l1 ++ c :: l2) (length l1) = Some c.
Proof. induction l1; simpl; auto. Qed.

Lemma assign_mid l1 c l2 x : assign (l1 ++ c :: l2) (length l1) x = l1 ++ x :: l2.
Proof. induction l1 as [|y l1 IH]; simpl; [reflexivity|]. now rewrite IH. Qed.

End SearchFacts.

(** ** Comparisons *)

Lemma Qltb_lt (x y : Q) : Qltb x y = true <-> x < y.
Proof.
  unfold Qltb. rewrite negb_true_iff. split.
  - intros H. apply Qnot_le_lt. intros L. apply Qle_bool_iff in L. congruence.
  - intros H. destruct (Qle_bool y x) eqn:E; [|reflexivity].
    apply Qle_bool_iff in E. apply Qle_not_lt in E. contradiction.
Qed.

Lemma Qltb_ge (x y : Q) : Qltb x y = false <-> y <= x.
Proof.
  unfold Qltb. rewrite negb_false_iff. apply Qle_bool_iff.
Qed.

Lemma Qgtb_gt (x y : Q) : Qgtb x y = true <-> y < x.
Proof. apply Qltb_lt. Qed.

Lemma Qgeb_ge (x y : Q) : Qgeb x y = true <-> y <= x.
Proof. apply Qle_bool_iff. Qed.

Lemma Qle_bool_false (x y : Q) : Qle_bool x y = false <-> y < x.
Proof.
  rewrite <- Qltb_lt. unfold Qltb. now rewrite negb_true_iff.
Qed.

Lemma Math_max_clamp (t : number) : 0 <= Math_max 0 t.
Proof.
  unfold Math_max. destruct (Qle_bool 0 t) eqn:E.
  - now apply Qle_bool_iff.
  - apply Qle_refl.
Qed.

Lemma Math_max_nonneg (t : number) : 0 <= t -> Math_max 0 t = t.
Proof.
  intros H. unfold Math_max. apply Qle_bool_iff in H. now rewrite H.
Qed.


Lemma hasId_eq (i : string) (c : Clip.t) : hasId i c = true <-> Clip.id c = i.
Proof. unfold hasId. apply String.eqb_eq. Qed.

(** ** Equality of serialized values *)

Lemma option_eqb_refl {A} (eqb : A -> A -> bool) :
  (forall a, eqb a a = true) -> forall o, option_eqb eqb o o = true.
Proof. intros H [a|]; simpl; auto. Qed.

Lemma list_eqb_refl {A} (eqb : A -> A -> bool) :
  (forall a, eqb a a = true) -> forall l, list_eqb eqb l l = true.
Proof. intros H l. induction l as [|a l IH]; simpl; [reflexivity|]. now rewrite H, IH. Qed.

Lemma Qeq_bool_refl' (q : Q) : Qeq_bool q q = true.
Proof. apply Qeq_bool_iff. reflexivity. Qed.

Lemma Bool_eqb_refl (b : bool) : Bool.eqb b b = true.
Proof. now destruct b. Qed.

Lemma Clip_eqb_refl (c : Clip.t) : Clip.eqb c c = true.
Proof.
  unfold Clip.eqb.
  rewrite !String.eqb_refl, !Qeq_bool_refl', Bool_eqb_refl.
  rewrite (option_eqb_refl Qeq_bool Qeq_bool_refl').
  rewrite !(option_eqb_refl Bool.eqb Bool_eqb_refl).
  now destruct (Clip.type c).
Qed.

(** ** The 50-entry cap, shared by the three copies of [saveState] *)

Section Cap.
Context {A : Type}.
Implicit Types (h : list A) (x : A).

Lemma pushCapped_length h x :
  (length h <= 50)%nat -> (length (pushCapped h x) <= 50)%nat.
Proof.
  intros H. unfold pushCapped.
  destruct (50 <? length (push h x))%nat eqn:E.
  - unfold shift. rewrite length_tl, length_push. lia.
  - apply Nat.ltb_ge in E. exact E.
Qed.

Lemma pushCapped_top h x : top (pushCapped h x) = Some x.
Proof.
  unfold pushCapped.
  destruct (50 <? length (push h x))%nat eqn:E; [|apply top_push].
  apply Nat.ltb_lt in E. apply top_tl; [lia|apply top_push].
Qed.

Lemma pushCapped_nonempty h x : (0 < length (pushCapped h x))%nat.
Proof.
  generalize (pushCapped_top h x).
  destruct (pushCapped h x); [discriminate|simpl; lia].
Qed.

Lemma pop_pushCapped h x :
  pop (pushCapped h x) = Some (x, removelast (pushCapped h x)).
Proof. unfold pop. now rewrite pushCapped_top. Qed.

(** Under a capped push the entry below the new one is the old top. *)
Lemma top_below_pushCapped h x : top (removelast (pushCapped h x)) = top h.
Proof.
  unfold pushCapped.
  destruct (50 <? length (push h x))%nat eqn:E.
  - apply Nat.ltb_lt in E. rewrite length_push in E.
    destruct h as [|y h]; [simpl in E; lia|].
    unfold shift, push. simpl tl. rewrite removelast_last.
    destruct h; [simpl in E; lia|reflexivity].
  - now rewrite removelast_push.
Qed.

(** Below the cap a push keeps every entry. *)
Lemma pushCapped_below h x :
  (length h < 50)%nat -> pushCapped h x = h ++ [x].
Proof.
  intros H. unfold pushCapped.
  destruct (50 <? length (push h x))%nat eqn:E; [|reflexivity].
  apply Nat.ltb_lt in E. rewrite length_push in E. lia.
Qed.

(** At the cap the oldest entry is the one that goes. *)
Lemma pushCapped_full h x :
  length h = 50%nat -> pushCapped h x = tl h ++ [x].
Proof.
  intros H. unfold pushCapped.
  destruct (50 <? length (push h x))%nat eqn:E.
  - unfold shift, push. destruct h; [discriminate|reflexivity].
  - apply Nat.ltb_ge in E. rewrite length_push in E. lia.
Qed.
End Cap.

(** ** [state.ts] : history *)

Module StateServiceFacts.
Import StateService.

Lemma Snapshot_eqb_refl (a : Snapshot) : Snapshot_eqb a a = true.
Proof.
  unfold Snapshot_eqb.
  rewrite (list_eqb_refl Clip.eqb Clip_eqb_refl).
  rewrite (list_eqb_refl _ (list_eqb_refl Clip.eqb Clip_eqb_refl)).
  rewrite (option_eqb_refl String.eqb String.eqb_refl).
  now rewrite !Qeq_bool_refl'.
Qed.

Lemma snapshot_set_stacks h r s : snapshot (set_stacks h r s) = snapshot s.
Proof. reflexivity. Qed.

(** [saveState] in terms of its guard and of the capped push. *)
Lemma saveState_unfold s :
  saveState s =
  if duplicateOfTop s then s
  else set_stacks (pushCapped (historyStack s) (snapshot s)) [] s.
Proof. reflexivity. Qed.

Lemma duplicateOfTop_after_push s :
  duplicateOfTop (set_stacks (pushCapped (historyStack s) (snapshot s)) [] s)
  = true.
Proof.
  unfold duplicateOfTop. simpl historyStack. rewrite snapshot_set_stacks.
  rewrite pushCapped_top. simpl. rewrite Snapshot_eqb_refl.
  generalize (pushCapped_nonempty (historyStack s) (snapshot s)).
  intros H. apply Nat.ltb_lt in H. now rewrite H.
Qed.

(** A second [saveState] with nothing changed in between is a no-op. *)
Lemma saveState_idempotent s : saveState (saveState s) = saveState s.
Proof.
  rewrite (saveState_unfold s).
  destruct (duplicateOfTop s) eqn:E.
  - rewrite saveState_unfold, E. reflexivity.
  - rewrite saveState_unfold, duplicateOfTop_after_push. reflexivity.
Qed.

Lemma saveState_visible s :
  snapshot (saveState s) = snapshot s
  /\ media (saveState s) = media s /\ isPlaying (saveState s) = isPlaying s.
Proof. rewrite saveState_unfold. destruct (duplicateOfTop s); auto. Qed.

Lemma saveState_stacked s :
  (stacked s <= 50)%nat -> (stacked (saveState s) <= 50)%nat.
Proof.
  rewrite saveState_unfold. destruct (duplicateOfTop s); [auto|].
  unfold stacked. simpl. intros H.
  generalize (pushCapped_length (historyStack s) (snapshot s)). lia.
Qed.

Lemma undo_stacked s : stacked (undo s) = stacked s.
Proof.
  unfold undo. destruct (length (historyStack s) =? 0)%nat eqn:E; [reflexivity|].
  destruct (pop (historyStack s)) as [[snap h]|] eqn:P; [|reflexivity].
  apply pop_length in P. unfold stacked. simpl. rewrite length_push. lia.
Qed.

Lemma redo_stacked s : stacked (redo s) = stacked s.
Proof.
  unfold redo. destruct (length (redoStack s) =? 0)%nat eqn:E; [reflexivity|].
  destruct (pop (redoStack s)) as [[snap r]|] eqn:P; [|reflexivity].
  apply pop_length in P. unfold stacked. simpl. rewrite length_push. lia.
Qed.

Lemma updateClip_stacks i u s :
  historyStack (updateClip i u s) = historyStack s
  /\ redoStack (updateClip i u s) = redoStack s.
Proof.
  unfold updateClip.
  destruct (findIndex (hasId i) (videoTrack s)); [now split|].
  destruct (existsb _ _); now split.
Qed.

Lemma step_stacked s o : (stacked s <= 50)%nat -> (stacked (step s o) <= 50)%nat.
Proof.
  intros H. pose proof (saveState_stacked s H) as HS.
  destruct o; simpl; auto.
  - now rewrite undo_stacked.
  - now rewrite redo_stacked.
  - unfold addToTimelineSmart.
    destruct (MediaItem.type item); [exact HS|].
    destruct (audioTracks (saveState s)); exact HS.
  - unfold addClipToTimeline.
    destruct (MediaItem.type item); [exact HS|].
    destruct (nth_error (audioTracks (saveState s)) 0); [|exact HS].
    destruct (nth_error (audioTracks (saveState s)) _); exact HS.
  - unfold stacked. destruct (updateClip_stacks clipId u s) as [-> ->]. exact H.
  - unfold deleteClip. simpl.
    destruct (selIs _ _); exact HS.
  - unfold splitClip.
    destruct (falsyId (selectedClipId s)); [exact H|].
    destruct (selectedClipId s); [|exact H].
    destruct (findClip s0 s); [|exact H].
    destruct (_ && _); [|exact H].
    unfold stacked.
    destruct (Clip.type t); simpl;
      match goal with
      | |- context [updateClip ?i ?u ?x] =>
          destruct (updateClip_stacks i u x) as [-> ->]
      end; exact HS.
Qed.

Lemma run_stacked ops s : (stacked s <= 50)%nat -> (stacked (run ops s) <= 50)%nat.
Proof.
  revert s. induction ops as [|o ops IH]; intros s H; [exact H|].
  simpl. apply IH, step_stacked, H.
Qed.

Lemma run_app ops1 ops2 s : run (ops1 ++ ops2) s = run ops2 (run ops1 s).
Proof. apply fold_left_app. Qed.

(** C2. Undo followed by redo gives back the state it started from:
    the tracks, the selection, the playback time and the zoom are those
    before the undo, and so are both stacks. *)
Theorem undo_then_redo (s : AppState) :
  historyStack s <> [] -> redo (undo s) = s.
Proof.
  intros H. destruct (pop_some (historyStack s) H) as [x [h [P E]]].
  unfold undo. rewrite P.
  destruct (length (historyStack s) =? 0)%nat eqn:L.
  { apply Nat.eqb_eq in L. destruct (historyStack s); [congruence|discriminate]. }
  set (s1 := restoreState x (set_stacks h (push (redoStack s) (snapshot s)) s)).
  assert (R : redoStack s1 = push (redoStack s) (snapshot s)) by reflexivity.
  assert (Hh : historyStack s1 = h) by reflexivity.
  assert (S1 : snapshot s1 = x) by (destruct x; reflexivity).
  unfold redo. rewrite R, Hh, S1, length_push, pop_push, <- E.
  simpl Nat.eqb. cbv iota. subst s1. destruct x, s; reflexivity.
Qed.

Lemma undo_then_redo_witness :
  let s := run [OpSeek 3; OpSave; OpSeek 7; OpSelect (Some "a"%string)] initial in
  historyStack s <> [] /\ redo (undo s) = s
  /\ playbackTime (undo s) = 3 /\ playbackTime (redo (undo s)) = 7.
Proof.
  assert (H : historyStack
                (run [OpSeek 3; OpSave; OpSeek 7; OpSelect (Some "a"%string)]
                     initial) <> []) by (vm_compute; discriminate).
  split; [exact H|]. split; [exact (undo_then_redo _ H)|].
  split; reflexivity.
Defined.

(** In [state.ts] two calls of [saveState] with nothing changed in
    between leave one new entry on the history stack: the second call
    finds its snapshot on top of the stack and returns without touching
    it. *)
Lemma saveState_twice_one_entry (s : AppState) :
  duplicateOfTop s = false ->
  (length (historyStack s) < 50)%nat ->
  duplicateOfTop (saveState s) = true
  /\ saveState (saveState s) = saveState s
  /\ historyStack (saveState (saveState s)) = historyStack s ++ [snapshot s].
Proof.
  intros D L. split; [|split].
  - rewrite saveState_unfold, D. apply duplicateOfTop_after_push.
  - apply saveState_idempotent.
  - rewrite saveState_idempotent, saveState_unfold, D. simpl.
    apply pushCapped_below, L.
Qed.

Lemma saveState_twice_one_entry_witness :
  let s := run [OpSave; OpSeek 4] initial in
  length (historyStack s) = 1%nat
  /\ saveState (saveState s) = saveState s
  /\ length (historyStack (saveState (saveState s))) = 2%nat.
Proof.
  assert (D : duplicateOfTop (run [OpSave; OpSeek 4] initial) = false)
    by reflexivity.
  assert (L : (length (historyStack (run [OpSave; OpSeek 4%Q] initial)) < 50)%nat)
    by (vm_compute; lia).
  destruct (saveState_twice_one_entry _ D L) as [_ [I E]].
  split; [reflexivity|]. split; [exact I|].
  rewrite E. reflexivity.
Defined.

(** At the cap, too, the second call changes nothing, and the first has
    dropped the oldest entry. *)
Lemma saveState_twice_at_cap (s : AppState) :
  duplicateOfTop s = false ->
  length (historyStack s) = 50%nat ->
  historyStack (saveState (saveState s)) = tl (historyStack s) ++ [snapshot s].
Proof.
  intros D L. rewrite saveState_idempotent, saveState_unfold, D. simpl.
  apply pushCapped_full, L.
Qed.

(** C4. Whatever is done to the service, the history stack never holds
    more than 50 snapshots; a push on a full stack drops the oldest
    entry; and a [saveState] that pushes leaves the redo stack empty. *)
Theorem history_capped (ops : list Op) :
  let s := run ops initial in
  (length (historyStack s) <= 50)%nat
  /\ (duplicateOfTop s = false ->
      redoStack (saveState s) = []
      /\ top (historyStack (saveState s)) = Some (snapshot s)
      /\ (length (historyStack s) = 50%nat ->
          historyStack (saveState s) = tl (historyStack s) ++ [snapshot s])).
Proof.
  intros s. split.
  - assert (H : (stacked s <= 50)%nat).
    { apply run_stacked. unfold stacked. simpl. lia. }
    unfold stacked in H. lia.
  - intros D. rewrite saveState_unfold, D. simpl.
    split; [reflexivity|]. split; [apply pushCapped_top|].
    apply pushCapped_full.
Qed.

Lemma history_capped_witness :
  let ops :=
    flat_map (fun k => [OpSeek (inject_Z (Z.of_nat k)); OpSave]) (seq 1 50)
    ++ [OpUndo; OpSeek 99] in
  let s := run ops initial in
  length (historyStack s) = 49%nat
  /\ length (redoStack s) = 1%nat
  /\ redoStack (saveState s) = []
  /\ length (historyStack (saveState (step (saveState s) (OpSeek 100)))) = 50%nat.
Proof.
  intros ops s.
  destruct (history_capped ops) as [_ H].
  assert (D : duplicateOfTop (run ops initial) = false) by (vm_compute; reflexivity).
  destruct (H D) as [R _].
  split; [vm_compute; reflexivity|]. split; [vm_compute; reflexivity|].
  split; [exact R|]. vm_compute; reflexivity.
Defined.

End StateServiceFacts.

(** ** [state.ts] : clips *)

Module StateServiceClips.
Import StateService.

Lemma saveState_tracks s :
  videoTrack (saveState s) = videoTrack s
  /\ audioTracks (saveState s) = audioTracks s
  /\ selectedClipId (saveState s) = selectedClipId s
  /\ playbackTime (saveState s) = playbackTime s
  /\ zoom (saveState s) = zoom s.
Proof.
  rewrite StateServiceFacts.saveState_unfold.
  destruct (duplicateOfTop s); simpl; auto.
Qed.


Lemma updateInTrack_absent i u t :
  existsb (hasId i) t = false -> updateInTrack i u t = (t, false).
Proof. intros H. unfold updateInTrack. now rewrite (findIndex_none _ _ H). Qed.

Lemma updateInTrack_mid i u l1 c l2 :
  existsb (hasId i) l1 = false -> hasId i c = true ->
  updateInTrack i u (l1 ++ c :: l2) = (l1 ++ spread c u :: l2, true).
Proof.
  intros Hn Hc. unfold updateInTrack.
  now rewrite (findIndex_mid _ _ _ _ Hn Hc), nth_error_mid, assign_mid.
Qed.













Lemma sample_timeline :
  videoTrack Sample.timeline = [Sample.videoClip]
  /\ audioTracks Sample.timeline = [[Sample.audioClip1]; [Sample.audioClip2]]
  /\ selectedClipId Sample.timeline = Some "clip_v"%string
  /\ playbackTime Sample.timeline = 6.
Proof. repeat split; reflexivity. Qed.



End StateServiceClips.

(** ** Collisions on an audio lane *)

Section Collisions.
Implicit Types (n c : Clip.t) (lane : list Clip.t).







End Collisions.

(** ** [state.ts] : placing a new clip *)

Module StateServicePlacement.
Import StateService.

(** The clip built by [addClipToTimeline]. *)
Lemma addClip_video newId m t s :
  MediaItem.type m = video ->
  addClipToTimeline newId m t s =
  Some (set_videoTrack
          (videoTrack (saveState s)
           ++ [Clip.mk newId (MediaItem.id m) (Math_max 0 t) (MediaItem.duration m)
                       0 video false (Some 1) None None])
          (saveState s)).
Proof. intros H. unfold addClipToTimeline. rewrite H. reflexivity. Qed.


End StateServicePlacement.

(** ** [state.ts] : operations on unknown ids and out-of-range input *)

Module StateServicePolicy.
Import StateService.







(** [splitClip] with nothing selected. *)
Lemma splitClip_unselected newId s :
  selectedClipId s = None -> splitClip newId s = s.
Proof. intros Hs. unfold splitClip. now rewrite Hs. Qed.









End StateServicePolicy.

(** ** [script.js] : history *)

Module ScriptFacts.
Import Script.

Lemma script_saveState_unfold s :
  saveState s = set_stacks (pushCapped (historyStack s) (snapshot s)) [] s.
Proof. reflexivity. Qed.

(** C3 fails in [script.js]: its [saveState] does not look at the top
    of the stack, every call pushes, and two calls in a row leave two
    equal entries. *)
Theorem saveState_twice_two_entries s :
  (length (historyStack s) < 49)%nat ->
  historyStack (saveState (saveState s))
  = historyStack s ++ [snapshot s; snapshot s].
Proof.
  intros L. rewrite !script_saveState_unfold. simpl.
  rewrite (pushCapped_below (historyStack s)) by lia.
  rewrite pushCapped_below.
  - rewrite <- app_assoc. reflexivity.
  - rewrite length_app. simpl. lia.
Qed.

Lemma saveState_twice_two_entries_witness :
  let s := Script.saveState (Script.saveState Script.initial) in
  length (historyStack s) = 2%nat
  /\ historyStack s = [snapshot Script.initial; snapshot Script.initial].
Proof.
  assert (L : (length (historyStack Script.initial) < 49)%nat) by (simpl; lia).
  pose proof (saveState_twice_two_entries Script.initial L) as H.
  split; [rewrite H; reflexivity|exact H].
Defined.

Lemma script_saveState_stacked s :
  (stacked s <= 50)%nat -> (stacked (saveState s) <= 50)%nat.
Proof.
  rewrite script_saveState_unfold. unfold stacked. simpl. intros H.
  generalize (pushCapped_length (historyStack s) (snapshot s)). lia.
Qed.

Lemma script_undo_stacked s : stacked (undo s) = stacked s.
Proof.
  unfold undo. destruct (length (historyStack s) =? 0)%nat eqn:E; [reflexivity|].
  destruct (pop (historyStack s)) as [[snap h]|] eqn:P; [|reflexivity].
  apply pop_length in P. unfold stacked. simpl. rewrite length_push. lia.
Qed.

Lemma script_redo_stacked s : stacked (redo s) = stacked s.
Proof.
  unfold redo. destruct (length (redoStack s) =? 0)%nat eqn:E; [reflexivity|].
  destruct (pop (redoStack s)) as [[snap r]|] eqn:P; [|reflexivity].
  apply pop_length in P. unfold stacked. simpl. rewrite length_push. lia.
Qed.

Lemma script_run_stacked ops s : (stacked s <= 50)%nat -> (stacked (run ops s) <= 50)%nat.
Proof.
  revert s. induction ops as [|o ops IH]; intros s H; [exact H|].
  simpl. apply IH. destruct o; simpl.
  - now apply script_saveState_stacked.
  - now rewrite script_undo_stacked.
  - now rewrite script_redo_stacked.
  - exact (script_saveState_stacked s H).
  - exact H.
Qed.

(** The cap holds in [script.js] as well, and every [saveState] empties
    the redo stack. *)
Lemma script_history_capped ops :
  (length (historyStack (run ops initial)) <= 50)%nat
  /\ redoStack (saveState (run ops initial)) = [].
Proof.
  split; [|reflexivity].
  assert (H : (stacked (run ops initial) <= 50)%nat)
    by (apply script_run_stacked; unfold stacked; simpl; lia).
  unfold stacked in H. lia.
Qed.

(** Undo then redo in [script.js]: the four saved components come back,
    for a playback time that [seek] does not clamp. *)
Lemma script_undo_then_redo s :
  historyStack s <> [] -> 0 <= playbackTime s ->
  snapshot (redo (undo s)) = snapshot s
  /\ redoStack (redo (undo s)) = redoStack s.
Proof.
  intros H T. destruct (pop_some (historyStack s) H) as [x [h [P E]]].
  unfold undo. rewrite P.
  destruct (length (historyStack s) =? 0)%nat eqn:L.
  { apply Nat.eqb_eq in L. destruct (historyStack s); [congruence|discriminate]. }
  set (s1 := restoreState x (set_stacks h (push (redoStack s) (snapshot s)) s)).
  assert (R : redoStack s1 = push (redoStack s) (snapshot s)) by reflexivity.
  unfold redo. rewrite R, length_push, pop_push.
  simpl Nat.eqb. cbv iota.
  unfold restoreState, seek, snapshot. simpl.
  rewrite (Math_max_nonneg _ T). split; reflexivity.
Qed.


Lemma mutateFirst_mid i f l1 c l2 :
  existsb (hasId i) l1 = false -> hasId i c = true ->
  mutateFirst i f (l1 ++ c :: l2) = l1 ++ f c :: l2.
Proof.
  intros Hn Hc. unfold mutateFirst.
  now rewrite (findIndex_mid _ _ _ _ Hn Hc), nth_error_mid, assign_mid.
Qed.


End ScriptFacts.

(** ** [script.js] : the thumbnail cache *)

Module ScriptThumbs.
Import Script.

Lemma CacheKey_eqb_refl k : CacheKey_eqb k k = true.
Proof. unfold CacheKey_eqb. now rewrite String.eqb_refl, Z.eqb_refl. Qed.

Lemma CacheKey_eqb_eq a b : CacheKey_eqb a b = true <-> a = b.
Proof.
  unfold CacheKey_eqb. destruct a as [a1 a2], b as [b1 b2]. simpl.
  rewrite andb_true_iff, String.eqb_eq, Z.eqb_eq. split.
  - intros [-> ->]. reflexivity.
  - intros H. injection H as -> ->. auto.
Qed.

(** A request whose key is in the cache touches nothing. *)
Lemma request_served m u time t :
  cached (cacheKeyOf m time) (thumbnailCache t) = true ->
  requestThumbnail m u time t = t.
Proof. intros H. unfold requestThumbnail. now rewrite H. Qed.

(** A request whose key is not in the cache is queued, and it is
    captured at once when the pipeline is at rest. *)
Lemma request_captured m u time t :
  cached (cacheKeyOf m time) (thumbnailCache t) = false ->
  playing t = false -> isProcessingThumbs t = false -> thumbQueue t = [] ->
  let task := mkTask u time (cacheKeyOf m time) (created t) in
  captures (requestThumbnail m u time t) = captures t ++ [task]
  /\ seekedListeners (requestThumbnail m u time t) = seekedListeners t ++ [task]
  /\ isProcessingThumbs (requestThumbnail m u time t) = true
  /\ thumbQueue (requestThumbnail m u time t) = []
  /\ thumbnailCache (requestThumbnail m u time t) = thumbnailCache t.
Proof.
  intros Hc Hp Hb Hq task. unfold requestThumbnail. rewrite Hc.
  unfold captureThumbnail, processThumbQueue. simpl.
  rewrite Hp, Hb, Hq. simpl. auto.
Qed.

(** A request that arrives while a capture is in flight is queued
    whatever its key. *)
Lemma request_queued m u time t :
  cached (cacheKeyOf m time) (thumbnailCache t) = false ->
  playing t = false -> isProcessingThumbs t = true ->
  thumbQueue (requestThumbnail m u time t)
  = thumbQueue t ++ [mkTask u time (cacheKeyOf m time) (created t)]
  /\ captures (requestThumbnail m u time t) = captures t.
Proof.
  intros Hc Hp Hb. unfold requestThumbnail. rewrite Hc.
  unfold captureThumbnail, processThumbQueue. simpl.
  rewrite Hp, Hb. auto.
Qed.

(** *** Once a key is cached, it is never captured again *)

Section Settled.
Variable k : CacheKey.

Lemma Forall_skipn_keep {A} (P : A -> Prop) n (l : list A) :
  Forall P l -> Forall P (skipn n l).
Proof.
  revert l. induction n as [|n IH]; intros l H; [exact H|].
  destruct l as [|x l]; [constructor|]. simpl. apply IH. now inversion H.
Qed.

Lemma prune_other q : Forall (otherKey k) q -> Forall (otherKey k) (prune q).
Proof.
  intros H. unfold prune. destruct (50 <? length q)%nat; [|exact H].
  now apply Forall_skipn_keep.
Qed.

Lemma capturesOf_push t task :
  otherKey k task ->
  filter (fun x => CacheKey_eqb (tk_cacheKey x) k) (push (captures t) task)
  = capturesOf k t.
Proof.
  intros H. unfold push, capturesOf. rewrite filter_app. simpl.
  unfold otherKey in H. rewrite H. apply app_nil_r.
Qed.

Lemma process_settled cs t :
  settled k cs t -> settled k cs (processThumbQueue t).
Proof.
  intros [Hc [Hq Hk]]. unfold processThumbQueue.
  destruct (playing t); [split; [exact Hc|split; [exact Hq|exact Hk]]|].
  destruct (isProcessingThumbs t); [split; [exact Hc|split; [exact Hq|exact Hk]]|].
  destruct (thumbQueue t) as [|task rest] eqn:Eq;
    [split; [exact Hc|split; [rewrite Eq; constructor|exact Hk]]|].
  apply Forall_cons_iff in Hq. destruct Hq as [Ht Hr].
  split; [exact Hc|]. split; [simpl; now apply prune_other|].
  unfold capturesOf. simpl captures. rewrite (capturesOf_push t task Ht).
  exact Hk.
Qed.

Lemma cached_cons k' d c :
  d <> EmptyString -> cached k c = true -> cached k ((k', d) :: c) = true.
Proof.
  intros Hd H. unfold cached in *. simpl.
  destruct (CacheKey_eqb k' k); [|exact H].
  apply negb_true_iff. now apply String.eqb_neq.
Qed.

Lemma onSeek_settled cs d ls t :
  d <> EmptyString -> settled k cs t -> settled k cs (fold_left (onSeek d) ls t).
Proof.
  intros Hd. revert t. induction ls as [|l ls IH]; intros t H; [exact H|].
  simpl. apply IH. destruct H as [Hc [Hq Hk]].
  split; [now apply cached_cons|]. split; [exact Hq|exact Hk].
Qed.

Lemma onError_settled cs ls t :
  settled k cs t -> settled k cs (fold_left onError ls t).
Proof.
  revert t. induction ls as [|l ls IH]; intros t H; [exact H|].
  simpl. apply IH. exact H.
Qed.

Lemma step_settled cs t e :
  framed e -> settled k cs t -> settled k cs (thumbStep t e).
Proof.
  intros Hf H. destruct e as [m u time|d| | |b]; simpl.
  - unfold requestThumbnail.
    destruct (cached (cacheKeyOf m time) (thumbnailCache t)) eqn:Ec; [exact H|].
    unfold captureThumbnail. apply process_settled.
    destruct H as [Hc [Hq Hk]].
    split; [exact Hc|]. split; [|exact Hk].
    simpl. unfold push. apply Forall_app. split; [exact Hq|].
    constructor; [|constructor]. unfold otherKey. simpl.
    destruct (CacheKey_eqb (cacheKeyOf m time) k) eqn:E; [|reflexivity].
    apply CacheKey_eqb_eq in E. rewrite E in Ec. congruence.
  - apply onSeek_settled; [exact Hf|exact H].
  - apply onError_settled. exact H.
  - destruct (timers t); [exact H|]. apply process_settled. exact H.
  - exact H.
Qed.

Lemma run_settled cs es t :
  Forall framed es -> settled k cs t -> settled k cs (thumbRun es t).
Proof.
  intros Hf. revert t. induction Hf as [|e es He _ IH]; intros t H; [exact H|].
  simpl. apply IH. now apply step_settled.
Qed.
End Settled.

(** Two requests for one key, the second made after the capture for the
    first has completed, and whatever else happens in between or
    afterwards: one capture. *)
Lemma one_capture_when_sequential m u t1 t2 d es :
  cacheKeyOf m t1 = cacheKeyOf m t2 -> d <> EmptyString -> Forall framed es ->
  let th := thumbRun (Request m u t1 :: Seeked d :: es) idle in
  requestThumbnail m u t2 th = th
  /\ length (capturesOf (cacheKeyOf m t1) th) = 1%nat.
Proof.
  intros Hk Hd Hes th.
  assert (S0 : settled (cacheKeyOf m t1)
                 [mkTask u t1 (cacheKeyOf m t1) 0%nat]
                 (thumbRun [Request m u t1; Seeked d] idle)).
  { unfold settled, capturesOf, cached. simpl.
    rewrite CacheKey_eqb_refl. simpl.
    split; [apply negb_true_iff; now apply String.eqb_neq|].
    split; [constructor|reflexivity]. }
  pose proof (run_settled (cacheKeyOf m t1) _ es _ Hes S0) as [Hc [_ Hcs]].
  change (thumbRun es (thumbRun [Request m u t1; Seeked d] idle)) with th in Hc, Hcs.
  split.
  - apply request_served. rewrite <- Hk. exact Hc.
  - rewrite Hcs. reflexivity.
Qed.

(** C9 fails when the second request is made before the capture for the
    first has completed: the cache is filled only by [onSeek], the second
    request finds it empty and is queued, and [processThumbQueue] does
    not look at the cache when it takes the task: two captures. *)
Theorem duplicate_capture (m u : string) (t1 t2 : number) (d : string) :
  cacheKeyOf m t1 = cacheKeyOf m t2 ->
  let th := thumbRun [Request m u t1; Request m u t2; Seeked d; Timer] idle in
  capturesOf (cacheKeyOf m t1) th
  = [mkTask u t1 (cacheKeyOf m t1) 0; mkTask u t2 (cacheKeyOf m t1) 1].
Proof.
  intros Hk th. unfold th, capturesOf. simpl. rewrite <- Hk.
  unfold cached. simpl. rewrite !CacheKey_eqb_refl. reflexivity.
Qed.

Lemma duplicate_capture_witness :
  let th := thumbRun [ Request "m_film" "blob:film" 0;
                       Request "m_film" "blob:film" 0.05;
                       Seeked "data:image/png;base64,AAAA"; Timer ] idle in
  cacheKeyOf "m_film" 0 = cacheKeyOf "m_film" 0.05
  /\ length (captures th) = 2%nat
  /\ length (capturesOf (cacheKeyOf "m_film" 0) th) = 2%nat.
Proof.
  intros th.
  assert (Hk : cacheKeyOf "m_film" 0 = cacheKeyOf "m_film" 0.05) by reflexivity.
  pose proof (duplicate_capture "m_film" "blob:film" 0 0.05
                "data:image/png;base64,AAAA" Hk) as H.
  split; [exact Hk|]. split; [reflexivity|].
  cbv zeta in H. fold th in H. rewrite H. reflexivity.
Defined.

End ScriptThumbs.

(** ** [part_003] : history *)

Module Part003Facts.
Import Part003.

Lemma p3_Tracks_eqb_refl (a : Tracks) : Tracks_eqb a a = true.
Proof.
  unfold Tracks_eqb.
  rewrite (list_eqb_refl Clip.eqb Clip_eqb_refl).
  now rewrite (list_eqb_refl _ (list_eqb_refl Clip.eqb Clip_eqb_refl)).
Qed.

Lemma p3_Snapshot_eqb_refl (a : Snapshot) : Snapshot_eqb a a = true.
Proof.
  unfold Snapshot_eqb.
  rewrite p3_Tracks_eqb_refl, (option_eqb_refl String.eqb String.eqb_refl).
  now rewrite !Qeq_bool_refl'.
Qed.

Lemma p3_saveState_unfold s :
  saveState s =
  if duplicateOfTop s then s
  else set_stacks (pushCapped (historyStack s) (snapshot s)) [] s.
Proof. reflexivity. Qed.

Lemma p3_duplicateOfTop_after_push s :
  duplicateOfTop (set_stacks (pushCapped (historyStack s) (snapshot s)) [] s)
  = true.
Proof.
  unfold duplicateOfTop. simpl historyStack.
  change (snapshot (set_stacks _ _ s)) with (snapshot s).
  rewrite pushCapped_top. simpl. rewrite p3_Snapshot_eqb_refl.
  generalize (pushCapped_nonempty (historyStack s) (snapshot s)).
  intros H. apply Nat.ltb_lt in H. now rewrite H.
Qed.

(** The same guard as in [state.ts]: a second [saveState] is a no-op. *)
Lemma p3_saveState_idempotent s : saveState (saveState s) = saveState s.
Proof.
  rewrite (p3_saveState_unfold s).
  destruct (duplicateOfTop s) eqn:E.
  - rewrite p3_saveState_unfold, E. reflexivity.
  - rewrite p3_saveState_unfold, p3_duplicateOfTop_after_push. reflexivity.
Qed.

Lemma p3_saveState_visible s :
  tracks (saveState s) = tracks s
  /\ selectedClipId (saveState s) = selectedClipId s
  /\ playbackTime (saveState s) = playbackTime s
  /\ zoom (saveState s) = zoom s
  /\ media (saveState s) = media s.
Proof. rewrite p3_saveState_unfold. destruct (duplicateOfTop s); simpl; auto. Qed.

(** After [saveState] the top of the history stack is the current state,
    as a serialized value. *)
Lemma saveState_top s :
  exists x h,
    pop (historyStack (saveState s)) = Some (x, h)
    /\ Snapshot_eqb x (snapshot s) = true.
Proof.
  rewrite p3_saveState_unfold. destruct (duplicateOfTop s) eqn:D.
  - unfold duplicateOfTop in D. apply andb_true_iff in D. destruct D as [_ D].
    unfold pop. destruct (top (historyStack s)) as [x|]; [|discriminate].
    exists x, (removelast (historyStack s)). auto.
  - simpl. unfold pop. rewrite pushCapped_top.
    eexists _, _. split; [reflexivity|apply p3_Snapshot_eqb_refl].
Qed.

Lemma p3_saveState_stacked s :
  (stacked s <= 50)%nat -> (stacked (saveState s) <= 50)%nat.
Proof.
  rewrite p3_saveState_unfold. destruct (duplicateOfTop s); [auto|].
  unfold stacked. simpl. intros H.
  generalize (pushCapped_length (historyStack s) (snapshot s)). lia.
Qed.

Lemma p3_undo_stacked s : stacked (undo s) = stacked s.
Proof.
  unfold undo. destruct (length (historyStack s) =? 0)%nat eqn:E; [reflexivity|].
  destruct (pop (historyStack s)) as [[snap h]|] eqn:P; [|reflexivity].
  apply pop_length in P. unfold stacked. simpl. rewrite length_push. lia.
Qed.

Lemma p3_redo_stacked s : stacked (redo s) = stacked s.
Proof.
  unfold redo. destruct (length (redoStack s) =? 0)%nat eqn:E; [reflexivity|].
  destruct (pop (redoStack s)) as [[snap r]|] eqn:P; [|reflexivity].
  apply pop_length in P. unfold stacked. simpl. rewrite length_push. lia.
Qed.

Lemma p3_run_stacked ops s : (stacked s <= 50)%nat -> (stacked (run ops s) <= 50)%nat.
Proof.
  revert s. induction ops as [|o ops IH]; intros s H; [exact H|].
  simpl. apply IH. destruct o; simpl.
  - now apply p3_saveState_stacked.
  - now rewrite p3_undo_stacked.
  - now rewrite p3_redo_stacked.
  - exact (p3_saveState_stacked s H).
  - exact H.
Qed.

(** The cap holds in [part_003] as well, and a [saveState] that pushes
    empties the redo stack. *)
Lemma p3_history_capped ops :
  (length (historyStack (run ops initial)) <= 50)%nat
  /\ (duplicateOfTop (run ops initial) = false ->
      redoStack (saveState (run ops initial)) = []).
Proof.
  split.
  - assert (H : (stacked (run ops initial) <= 50)%nat)
      by (apply p3_run_stacked; unfold stacked; simpl; lia).
    unfold stacked in H. lia.
  - intros D. now rewrite p3_saveState_unfold, D.
Qed.

(** Undo then redo in [part_003]. *)
Lemma p3_undo_then_redo s :
  historyStack s <> [] -> 0 <= playbackTime s ->
  snapshot (redo (undo s)) = snapshot s
  /\ redoStack (redo (undo s)) = redoStack s.
Proof.
  intros H T. destruct (pop_some (historyStack s) H) as [x [h [P E]]].
  unfold undo. rewrite P.
  destruct (length (historyStack s) =? 0)%nat eqn:L.
  { apply Nat.eqb_eq in L. destruct (historyStack s); [congruence|discriminate]. }
  set (s1 := restoreState x (set_stacks h (push (redoStack s) (snapshot s)) s)).
  assert (R : redoStack s1 = push (redoStack s) (snapshot s)) by reflexivity.
  unfold redo. rewrite R, length_push, pop_push.
  simpl Nat.eqb. cbv iota.
  unfold restoreState, seek, snapshot. simpl.
  rewrite (Math_max_nonneg _ T). split; reflexivity.
Qed.

(** *** Placing a new clip *)


End Part003Facts.

(** ** The lane of a new audio clip, in [state.ts] and in [part_003] *)

Module Placement.






End Placement.

(** ** [part_003] : silence removal *)

Module Part003Silence.
Import Part003.

(** *** The loop of [speechSegments.forEach] is the ripple of the
    specification *)



Lemma rippleSpec_length ids sr clip k t0 segs :
  length (rippleSpec ids sr clip k t0 segs) = length segs.
Proof.
  revert k t0. induction segs as [|seg rest IH]; intros k t0; simpl;
    [reflexivity|now rewrite IH].
Qed.


Lemma rippleSpec_inherits ids sr clip k t0 segs c :
  In c (rippleSpec ids sr clip k t0 segs) ->
  Clip.mediaId c = Clip.mediaId clip
  /\ Clip.type c = Clip.type clip
  /\ Clip.muted c = Clip.muted clip.
Proof.
  revert k t0. induction segs as [|seg rest IH]; intros k t0; simpl; [tauto|].
  intros [<-|H]; [auto|]. exact (IH _ _ H).
Qed.


(** *** The ranges found by the scan *)




Lemma scanIndices_below startS endS k :
  (k < Z.to_nat ((endS - startS + 99) / 100))%nat ->
  (startS + 100 * Z.of_nat k < endS)%Z.
Proof.
  intros H.
  assert (P : (0 < (endS - startS + 99) / 100)%Z) by lia.
  assert (Q : (Z.of_nat k < (endS - startS + 99) / 100)%Z) by lia.
  pose proof (Z.mul_div_le (endS - startS + 99) 100 ltac:(lia)). lia.
Qed.






(** [removeSilenceTool] when it finds speech, step by step. *)
Lemma removeSilenceTool_unfold ids data sr s sel clip m :
  selectedClipId s = Some sel -> sel <> EmptyString ->
  findClip sel (tracks s) = Some clip ->
  find (fun m => String.eqb (MediaItem.id m) (Clip.mediaId clip)) (media s)
  = Some m ->
  speechSegmentsOf data sr clip <> [] ->
  removeSilenceTool ids data sr s =
  match rippleTracks clip
          (placeSegments ids sr clip (speechSegmentsOf data sr clip))
          (tracks (saveState s)) with
  | Some t => Some (set_tracks t (saveState s))
  | None => None
  end.
Proof.
  intros Hsel Hne Hf Hm Hs. unfold removeSilenceTool.
  rewrite Hsel. simpl falsyId.
  destruct (String.eqb sel EmptyString) eqn:E.
  { apply String.eqb_eq in E. contradiction. }
  rewrite Hf, Hm.
  destruct (speechSegmentsOf data sr clip); [contradiction|reflexivity].
Qed.



End Part003Silence.

(** ** [script.js] : silence removal *)

Module ScriptSilence.
Import Script.

(** *** The two loops over the new clips *)

Lemma layout_fold ids clip segs acc t0 :
  fst (fold_left (placeStep ids clip) segs (acc, t0))
  = acc ++ layoutSpec ids clip (length acc) t0 segs.
Proof.
  revert acc t0. induction segs as [|g rest IH]; intros acc t0; simpl.
  - now rewrite app_nil_r.
  - destruct (Qgtb (seg_end g - seg_start g) 0.05).
    + rewrite IH. unfold push. rewrite length_app, <- app_assoc. simpl.
      now rewrite Nat.add_1_r.
    + apply IH.
Qed.

Lemma script_placeSegments_spec ids clip segs :
  placeSegments ids clip segs
  = layoutSpec ids clip 0 (Clip.startTime clip) segs.
Proof. unfold placeSegments. now rewrite layout_fold. Qed.

Lemma ripple_fold cs acc t0 :
  fst (fold_left rippleStep cs (acc, t0)) = acc ++ rippleFrom t0 cs.
Proof.
  revert acc t0. induction cs as [|c r IH]; intros acc t0; simpl.
  - now rewrite app_nil_r.
  - rewrite IH. unfold push. now rewrite <- app_assoc.
Qed.

Lemma ripple_spec t0 cs : ripple t0 cs = rippleFrom t0 cs.
Proof. unfold ripple. now rewrite ripple_fold. Qed.






(** *** The chunks found by the detection loop *)

Lemma seconds_mono sr i j :
  0 < sr -> (i <= j)%nat -> seconds i sr <= seconds j sr.
Proof.
  intros Hsr Hij. unfold seconds.
  apply Qmult_le_compat_r; [|apply Qlt_le_weak, Qinv_lt_0_compat, Hsr].
  rewrite <- Zle_Qle. lia.
Qed.









(** *** The segments laid over the clip *)

Lemma Math_max_ge_l a b : a <= Math_max a b.
Proof.
  unfold Math_max. destruct (Qle_bool a b) eqn:E.
  - now apply Qle_bool_iff.
  - apply Qle_refl.
Qed.

Lemma Math_min_le_l a b : Math_min a b <= a.
Proof.
  unfold Math_min. destruct (Qle_bool a b) eqn:E.
  - apply Qle_refl.
  - apply Qle_bool_false in E. lra.
Qed.







(** *** [removeSilence] as a whole *)


Lemma firstn_older {A} (kept newer : list A) :
  firstn (length (kept ++ newer) - length newer) (kept ++ newer) = kept.
Proof.
  rewrite length_app, Nat.add_sub.
  rewrite firstn_app, Nat.sub_diag, firstn_all. simpl. apply app_nil_r.
Qed.

Lemma getTrack_setTrack ty v t : getTrack ty (setTrack ty v t) = v.
Proof. now destruct ty. Qed.

Lemma setTrack_setTrack ty v w t : setTrack ty v (setTrack ty w t) = setTrack ty v t.
Proof. now destruct ty. Qed.

(** The two steps of [removeSilence], spelled out. *)
Lemma removeSilence_unfold ids channels sr s ty clip segs :
  analyse channels sr s = Some (ty, clip, segs) ->
  let kept := filter (lacksId (Clip.id clip)) (getTrack ty (tracks s)) in
  let newClips := layoutSpec ids clip 0 (Clip.startTime clip) segs in
  let s1 := set_tracks (setTrack ty (kept ++ newClips) (tracks s)) (saveState s) in
  let speechClips :=
    rippleFrom (Clip.startTime clip) (filter (fun c => negb (silent c)) newClips) in
  fst (splitStep ids ty clip segs s) = s1
  /\ removeSilence ids channels sr s
     = set_tracks
         (setTrack ty (filter (fun c => negb (silent c)) kept ++ speechClips)
                   (tracks s))
         (saveState s1).
Proof.
  intros Ha kept newClips s1 speechClips.
  assert (E1 : splitStep ids ty clip segs s = (s1, newClips)).
  { unfold splitStep. now rewrite script_placeSegments_spec. }
  split; [now rewrite E1|].
  unfold removeSilence. rewrite Ha, E1.
  unfold deleteStep.
  change (tracks (saveState s1)) with (setTrack ty (kept ++ newClips) (tracks s)).
  rewrite getTrack_setTrack, firstn_older, ripple_spec, setTrack_setTrack.
  reflexivity.
Qed.


End ScriptSilence.

(** ** Silence removal in both scripts *)

Module SilenceRipple.



End SilenceRipple.

(** ** Undoing a silence removal *)

Module SilenceUndo.

(** [undo] of [script.js] with a known entry on top of the stack. *)
Lemma script_undo_top (s : Script.State) (x : Script.Snapshot) :
  top (Script.historyStack s) = Some x ->
  0 <= Script.snap_playbackTime x ->
  Script.snapshot (Script.undo s) = x
  /\ Script.historyStack (Script.undo s) = removelast (Script.historyStack s).
Proof.
  intros Ht Hp. unfold Script.undo.
  destruct (length (Script.historyStack s) =? 0)%nat eqn:L.
  { apply Nat.eqb_eq in L. destruct (Script.historyStack s); discriminate. }
  unfold pop. rewrite Ht.
  unfold Script.restoreState, Script.seek, Script.snapshot. simpl.
  rewrite (Math_max_nonneg _ Hp). destruct x. auto.
Qed.

(** [undo] of [part_003] with a known entry on top of the stack. *)
Lemma p3_undo_top (s : Part003.State) (x : Part003.Snapshot) :
  top (Part003.historyStack s) = Some x ->
  0 <= Part003.snap_playbackTime x ->
  Part003.snapshot (Part003.undo s) = x.
Proof.
  intros Ht Hp. unfold Part003.undo.
  destruct (length (Part003.historyStack s) =? 0)%nat eqn:L.
  { apply Nat.eqb_eq in L. destruct (Part003.historyStack s); discriminate. }
  unfold pop. rewrite Ht.
  unfold Part003.restoreState, Part003.seek, Part003.snapshot. simpl.
  rewrite (Math_max_nonneg _ Hp). destruct x. auto.
Qed.

(** One undo after [removeSilenceTool] of [part_003]. *)
Lemma removeSilenceTool_undo ids data sr (s : Part003.State) sel clip m lane0 lanes :
  Part003.selectedClipId s = Some sel -> sel <> EmptyString ->
  Part003.findClip sel (Part003.tracks s) = Some clip ->
  find (fun m => String.eqb (MediaItem.id m) (Clip.mediaId clip)) (Part003.media s)
  = Some m ->
  Part003.speechSegmentsOf data sr clip <> [] ->
  Part003.tr_audio (Part003.tracks s) = lane0 :: lanes ->
  0 <= Part003.playbackTime s ->
  exists s',
    Part003.removeSilenceTool ids data sr s = Some s'
    /\ Part003.historyStack s'
       = (if Part003.duplicateOfTop s then Part003.historyStack s
          else pushCapped (Part003.historyStack s) (Part003.snapshot s))
    /\ Part003.Snapshot_eqb (Part003.snapshot (Part003.undo s'))
                            (Part003.snapshot s) = true.
Proof.
  intros Hsel Hne Hf Hm Hs Ha Hp.
  rewrite (Part003Silence.removeSilenceTool_unfold ids data sr s sel clip m
             Hsel Hne Hf Hm Hs).
  destruct (Part003Facts.p3_saveState_visible s) as [St _].
  assert (Hr : exists t,
             Part003.rippleTracks clip
               (Part003.placeSegments ids sr clip
                  (Part003.speechSegmentsOf data sr clip))
               (Part003.tracks (Part003.saveState s)) = Some t).
  { unfold Part003.rippleTracks. rewrite St, Ha. simpl map.
    destruct (Clip.type clip); eexists; reflexivity. }
  destruct Hr as [t Hr]. rewrite Hr.
  eexists. split; [reflexivity|].
  split.
  { simpl. rewrite Part003Facts.p3_saveState_unfold.
    destruct (Part003.duplicateOfTop s); reflexivity. }
  destruct (Part003Facts.saveState_top s) as [x [h [P E]]].
  assert (Ht : top (Part003.historyStack
                      (Part003.set_tracks t (Part003.saveState s))) = Some x).
  { simpl. unfold pop in P.
    destruct (top (Part003.historyStack (Part003.saveState s)));
      [|discriminate]. now injection P as -> _. }
  assert (Hx : 0 <= Part003.snap_playbackTime x).
  { unfold Part003.Snapshot_eqb in E.
    apply andb_true_iff in E. destruct E as [E _].
    apply andb_true_iff in E. destruct E as [_ E].
    apply Qeq_bool_iff in E. simpl in E. rewrite E. exact Hp. }
  rewrite (p3_undo_top _ x Ht Hx). exact E.
Qed.

(** The two snapshots of [removeSilence] of [script.js], and the two
    undos that take them back. *)
Lemma removeSilence_two_undos ids channels sr (s : Script.State) ty clip segs :
  Script.analyse channels sr s = Some (ty, clip, segs) ->
  0 <= Script.playbackTime s ->
  let s1 := fst (Script.splitStep ids ty clip segs s) in
  let s' := Script.removeSilence ids channels sr s in
  Script.historyStack s'
  = pushCapped (pushCapped (Script.historyStack s) (Script.snapshot s))
               (Script.snapshot s1)
  /\ Script.snapshot (Script.undo s') = Script.snapshot s1
  /\ Script.snapshot (Script.undo (Script.undo s')) = Script.snapshot s.
Proof.
  intros Ha Hp s1 s'.
  destruct (ScriptSilence.removeSilence_unfold ids channels sr s ty clip segs Ha)
    as [E1 E2].
  cbv zeta in E1, E2. fold s1 in E1. fold s' in E2. rewrite <- E1 in E2.
  assert (H1 : Script.historyStack s1
               = pushCapped (Script.historyStack s) (Script.snapshot s)).
  { rewrite E1. reflexivity. }
  assert (P1 : Script.playbackTime s1 = Script.playbackTime s).
  { rewrite E1. reflexivity. }
  assert (H2 : Script.historyStack s'
               = pushCapped (Script.historyStack s1) (Script.snapshot s1)).
  { rewrite E2. reflexivity. }
  split; [now rewrite H2, H1|].
  assert (T2 : top (Script.historyStack s') = Some (Script.snapshot s1)).
  { rewrite H2. apply pushCapped_top. }
  assert (Q1 : 0 <= Script.snap_playbackTime (Script.snapshot s1)).
  { change (0 <= Script.playbackTime s1). now rewrite P1. }
  destruct (script_undo_top s' _ T2 Q1) as [U1 U2].
  split; [exact U1|].
  assert (T1 : top (Script.historyStack (Script.undo s'))
               = Some (Script.snapshot s)).
  { rewrite U2, H2, top_below_pushCapped, H1. apply pushCapped_top. }
  apply (script_undo_top _ _ T1 Hp).
Qed.

(** C7, as the code has it.  Silence removal can be undone.
    [removeSilenceTool] of [part_003] makes one [saveState] before it
    touches the timeline (a push, unless the state is already on top of
    the stack), and one undo right after it brings back the timeline,
    the selection, the playback time and the zoom.  [removeSilence] of
    [script.js] saves twice, before the split into speech and silence
    clips and before the silence clips are deleted: one undo brings back
    the split timeline, a second one the timeline before the removal. *)
Theorem silence_removal_undo :
  (forall ids data sr (s : Part003.State) sel clip m lane0 lanes,
      Part003.selectedClipId s = Some sel -> sel <> EmptyString ->
      Part003.findClip sel (Part003.tracks s) = Some clip ->
      find (fun m => String.eqb (MediaItem.id m) (Clip.mediaId clip))
           (Part003.media s) = Some m ->
      Part003.speechSegmentsOf data sr clip <> [] ->
      Part003.tr_audio (Part003.tracks s) = lane0 :: lanes ->
      0 <= Part003.playbackTime s ->
      exists s',
        Part003.removeSilenceTool ids data sr s = Some s'
        /\ Part003.historyStack s'
           = (if Part003.duplicateOfTop s then Part003.historyStack s
              else pushCapped (Part003.historyStack s) (Part003.snapshot s))
        /\ Part003.Snapshot_eqb (Part003.snapshot (Part003.undo s'))
                                (Part003.snapshot s) = true)
  /\ (forall ids channels sr (s : Script.State) ty clip segs,
        Script.analyse channels sr s = Some (ty, clip, segs) ->
        0 <= Script.playbackTime s ->
        let s1 := fst (Script.splitStep ids ty clip segs s) in
        let s' := Script.removeSilence ids channels sr s in
        Script.historyStack s'
        = pushCapped (pushCapped (Script.historyStack s) (Script.snapshot s))
                     (Script.snapshot s1)
        /\ Script.snapshot (Script.undo s') = Script.snapshot s1
        /\ Script.snapshot (Script.undo (Script.undo s')) = Script.snapshot s).
Proof.
  split.
  - intros. eapply removeSilenceTool_undo; eassumption.
  - intros. now apply removeSilence_two_undos.
Qed.

Lemma silence_removal_undo_witness :
  (exists s',
      Part003.removeSilenceTool (fun _ => "auto_0"%string) Sample.loudBuffer 48000
                                Sample.cutTimeline = Some s'
      /\ Part003.Snapshot_eqb (Part003.snapshot (Part003.undo s'))
                              (Part003.snapshot Sample.cutTimeline) = true)
  /\ (let s' := Script.removeSilence Sample.splitIds Sample.talkChannels 8000
                                     Sample.talkTimeline in
      Script.snapshot (Script.undo (Script.undo s'))
      = Script.snapshot Sample.talkTimeline).
Proof.
  destruct silence_removal_undo as [P S]. split.
  - assert (Hsel : Part003.selectedClipId Sample.cutTimeline = Some "clip_c"%string)
      by reflexivity.
    assert (Hne : "clip_c"%string <> EmptyString) by discriminate.
    assert (Hf : Part003.findClip "clip_c" (Part003.tracks Sample.cutTimeline)
                 = Some Sample.cutClip) by reflexivity.
    assert (Hm : find (fun m => String.eqb (MediaItem.id m)
                                   (Clip.mediaId Sample.cutClip))
                      (Part003.media Sample.cutTimeline) = Some Sample.film)
      by reflexivity.
    assert (Hs : Part003.speechSegmentsOf Sample.loudBuffer 48000 Sample.cutClip
                 <> []) by (vm_compute; discriminate).
    assert (Ha : Part003.tr_audio (Part003.tracks Sample.cutTimeline) = [] :: [[]])
      by reflexivity.
    assert (Hp : 0 <= Part003.playbackTime Sample.cutTimeline)
      by (vm_compute; discriminate).
    destruct (P (fun _ => "auto_0"%string) Sample.loudBuffer 48000
                Sample.cutTimeline "clip_c"%string Sample.cutClip Sample.film
                [] [[]] Hsel Hne Hf Hm Hs Ha Hp) as [s' [E [_ U]]].
    exists s'. split; [exact E|exact U].
  - destruct (Script.analyse Sample.talkChannels 8000 Sample.talkTimeline)
      as [[[ty clip] segs]|] eqn:Ha.
    + assert (Hp : 0 <= Script.playbackTime Sample.talkTimeline)
        by (vm_compute; discriminate).
      destruct (S Sample.splitIds Sample.talkChannels 8000 Sample.talkTimeline
                  ty clip segs Ha Hp) as [_ [_ U]].
      exact U.
    + vm_compute in Ha. discriminate.
Defined.

(** C7 as it is worded fails in [script.js]: [removeSilence] pushes two
    snapshots, and the undo that follows it leaves the three clips of
    the split, the silence clip among them, in place of the original
    clip. *)
Lemma silence_removal_undo_counterexample :
  let s := Sample.talkTimeline in
  let s' := Script.removeSilence Sample.splitIds Sample.talkChannels 8000 s in
  length (Script.historyStack s) = 0%nat
  /\ length (Script.historyStack s') = 2%nat
  /\ map Clip.id (Script.tr_audio (Script.tracks s)) = ["clip_t"%string]
  /\ map Clip.id (Script.tr_audio (Script.tracks s'))
     = ["split_0"%string; "split_2"%string]
  /\ map Clip.id (Script.tr_audio (Script.tracks (Script.undo s')))
     = ["split_0"%string; "split_1"%string; "split_2"%string]
  /\ Script.tracks (Script.undo s') <> Script.tracks s
  /\ Script.tracks (Script.undo (Script.undo s')) = Script.tracks s.
Proof.
  intros s s'.
  split; [reflexivity|]. split; [vm_compute; reflexivity|].
  split; [reflexivity|]. split; [vm_compute; reflexivity|].
  split; [vm_compute; reflexivity|].
  split; [|vm_compute; reflexivity].
  intros E.
  apply (f_equal (fun t => length (Script.tr_audio t))) in E.
  vm_compute in E. discriminate.
Qed.

End SilenceUndo.

(** ** More comparisons *)

Lemma Math_max_ge_r (a b : number) : b <= Math_max a b.
Proof.
  unfold Math_max. destruct (Qle_bool a b) eqn:E; [apply Qle_refl|].
  apply Qle_bool_false in E. now apply Qlt_le_weak.
Qed.

Lemma Math_max_lub (a b c : number) : a <= c -> b <= c -> Math_max a b <= c.
Proof. intros Ha Hb. unfold Math_max. now destruct (Qle_bool a b). Qed.

Lemma Math_min_le_r (a b : number) : Math_min a b <= b.
Proof.
  unfold Math_min. destruct (Qle_bool a b) eqn:E; [|apply Qle_refl].
  now apply Qle_bool_iff.
Qed.

Lemma findIndex_none_find {A} (p : A -> bool) (l : list A) :
  findIndex p l = None <-> find p l = None.
Proof.
  induction l as [|y l IH]; simpl; [tauto|].
  destruct (p y); [split; discriminate|].
  destruct (findIndex p l); simpl.
  - split; [discriminate|]. intros H. apply IH in H. discriminate.
  - split; [intros _; now apply IH|reflexivity].
Qed.

Lemma Qabs_near_self (x e : Q) : 0 <= e -> Qabs (x - x) <= e.
Proof. intros H. setoid_replace (x - x) with 0 by ring. exact H. Qed.

(** ** [state.ts] : commands and the history *)

Module StateServiceCommands.
Import StateService StateServiceMedia.

(** [undo] brings back the entry on top of the history stack. *)
Lemma undo_top s x : top (historyStack s) = Some x -> snapshot (undo s) = x.
Proof.
  intros T. unfold undo.
  destruct (length (historyStack s) =? 0)%nat eqn:L.
  { apply Nat.eqb_eq in L. destruct (historyStack s); discriminate. }
  unfold pop. rewrite T. destruct x; reflexivity.
Qed.

(** After [saveState] the top of the history stack is the current
    state, as a serialized value. *)
Lemma saveState_top_eqb s :
  exists x, top (historyStack (saveState s)) = Some x
            /\ Snapshot_eqb x (snapshot s) = true.
Proof.
  rewrite StateServiceFacts.saveState_unfold.
  destruct (duplicateOfTop s) eqn:D.
  - unfold duplicateOfTop in D. apply andb_true_iff in D. destruct D as [_ D].
    destruct (top (historyStack s)) as [x|]; [|discriminate].
    exists x. auto.
  - simpl. rewrite pushCapped_top. exists (snapshot s).
    split; [reflexivity|apply StateServiceFacts.Snapshot_eqb_refl].
Qed.

Lemma step_saves_first s o :
  savesFirst o = true -> historyStack (step s o) = historyStack (saveState s).
Proof.
  destruct o; simpl; try discriminate; intros _.
  - reflexivity.
  - unfold addToTimelineSmart.
    destruct (MediaItem.type item); [reflexivity|].
    destruct (audioTracks (saveState s)); reflexivity.
  - unfold addClipToTimeline.
    destruct (MediaItem.type item); [reflexivity|].
    destruct (nth_error (audioTracks (saveState s)) 0); [|reflexivity].
    destruct (nth_error (audioTracks (saveState s)) _); reflexivity.
  - unfold deleteClip. simpl. destruct (selIs _ _); reflexivity.
Qed.

(** X1. An [undo] straight after a command that saves first (a save, a
    delete, an add at a time, a smart add) shows the state as it was
    before the command: tracks, selection, playback time and zoom. *)
Theorem undo_reverts_command (s : AppState) (o : Op) :
  savesFirst o = true ->
  Snapshot_eqb (snapshot (undo (step s o))) (snapshot s) = true.
Proof.
  intros H. destruct (saveState_top_eqb s) as [x [T E]].
  rewrite (undo_top (step s o) x); [exact E|].
  now rewrite (step_saves_first s o H).
Qed.

Lemma undo_reverts_command_witness :
  let s := Sample.timeline in
  let s' := step s (OpDeleteClip "clip_v") in
  videoTrack s = [Sample.videoClip] /\ videoTrack s' = []
  /\ Snapshot_eqb (snapshot (undo s')) (snapshot s) = true
  /\ videoTrack (undo s') = [Sample.videoClip].
Proof.
  assert (H : savesFirst (OpDeleteClip "clip_v") = true) by reflexivity.
  split; [reflexivity|]. split; [reflexivity|].
  split; [exact (undo_reverts_command Sample.timeline _ H)|reflexivity].
Defined.

(** *** Deleting *)

Lemma find_filter_lacksId i j (l : list Clip.t) :
  find (hasId j) (filter (lacksId i) l)
  = if String.eqb j i then None else find (hasId j) l.
Proof.
  induction l as [|c l IH]; simpl.
  - now destruct (String.eqb j i).
  - unfold lacksId at 1. destruct (hasId i c) eqn:Hi; simpl.
    + rewrite IH. destruct (String.eqb j i) eqn:E; [reflexivity|].
      destruct (hasId j c) eqn:Hj; [|reflexivity].
      apply hasId_eq in Hi. apply hasId_eq in Hj.
      apply String.eqb_neq in E. congruence.
    + destruct (hasId j c) eqn:Hj.
      * destruct (String.eqb j i) eqn:E; [|reflexivity].
        apply String.eqb_eq in E. subst j. congruence.
      * exact IH.
Qed.

Lemma findInLanes_filter i j (L : list (list Clip.t)) :
  findInLanes j (map (filter (lacksId i)) L)
  = if String.eqb j i then None else findInLanes j L.
Proof.
  induction L as [|t L IH]; simpl.
  - now destruct (String.eqb j i).
  - rewrite find_filter_lacksId, IH. now destruct (String.eqb j i).
Qed.

Lemma concat_map_filter {A} (p : A -> bool) (L : list (list A)) :
  concat (map (filter p) L) = filter p (concat L).
Proof.
  induction L as [|t L IH]; simpl; [reflexivity|]. now rewrite filter_app, IH.
Qed.

Lemma deleteClip_tracks i s :
  videoTrack (deleteClip i s) = filter (lacksId i) (videoTrack s)
  /\ audioTracks (deleteClip i s) = map (filter (lacksId i)) (audioTracks s).
Proof.
  destruct (StateServiceClips.saveState_tracks s) as [V [A _]].
  unfold deleteClip. destruct (selIs _ _); simpl; now rewrite V, A.
Qed.

(** X2. After [deleteClip(id)] no clip is found under [id], every
    other id finds what it found before, and what is left of the
    timeline is the clips with another id, in their order. *)
Theorem deleteClip_lookup (i : string) (s : AppState) :
  findClip i (deleteClip i s) = None
  /\ (forall j, j <> i -> findClip j (deleteClip i s) = findClip j s)
  /\ allClips (deleteClip i s) = filter (lacksId i) (allClips s).
Proof.
  destruct (deleteClip_tracks i s) as [V A].
  assert (F : forall j, findClip j (deleteClip i s)
                        = if String.eqb j i then None else findClip j s).
  { intros j. unfold findClip. rewrite V, A, find_filter_lacksId, findInLanes_filter.
    now destruct (String.eqb j i). }
  split; [|split].
  - rewrite F. now rewrite String.eqb_refl.
  - intros j Hj. rewrite F. apply String.eqb_neq in Hj. now rewrite Hj.
  - unfold allClips. rewrite V, A, filter_app. f_equal. apply concat_map_filter.
Qed.

(** *** Updating *)

Lemma find_replace_same_id j (l1 l2 : list Clip.t) (c c' : Clip.t) :
  Clip.id c' = Clip.id c ->
  find (hasId j) (l1 ++ c' :: l2)
  = match find (hasId j) (l1 ++ c :: l2) with
    | Some x => if existsb (hasId j) l1 then Some x
                else if hasId j c then Some c' else Some x
    | None => None
    end.
Proof.
  intros E. induction l1 as [|y l1 IH]; simpl.
  - assert (H : hasId j c' = hasId j c) by (unfold hasId; now rewrite E).
    rewrite H. destruct (hasId j c); [reflexivity|].
    now destruct (find (hasId j) l2).
  - destruct (hasId j y); [reflexivity|]. exact IH.
Qed.

Lemma spread_id c u : p_id u = None -> Clip.id (spread c u) = Clip.id c.
Proof. intros H. unfold spread. simpl. now rewrite H. Qed.

(** What [find] sees of a track after the update of the first clip
    with the id [i]. *)
Lemma find_updateInTrack i j u (t : list Clip.t) :
  p_id u = None ->
  find (hasId j) (fst (updateInTrack i u t))
  = if String.eqb j i
    then option_map (fun c => spread c u) (find (hasId i) t)
    else find (hasId j) t.
Proof.
  intros Hu. destruct (find (hasId i) t) as [c|] eqn:F.
  - destruct (find_decompose _ _ _ F) as [l1 [l2 [-> [Hc Hn]]]].
    rewrite (StateServiceClips.updateInTrack_mid i u l1 c l2 Hn Hc). simpl fst.
    rewrite (find_replace_same_id j l1 l2 c (spread c u) (spread_id c u Hu)).
    destruct (String.eqb j i) eqn:E.
    + apply String.eqb_eq in E. subst j. rewrite F, Hn, Hc. reflexivity.
    + destruct (find (hasId j) (l1 ++ c :: l2)) as [x|] eqn:Fj; [|reflexivity].
      destruct (existsb (hasId j) l1); [reflexivity|].
      destruct (hasId j c) eqn:Hj; [|reflexivity].
      apply hasId_eq in Hc. apply hasId_eq in Hj. apply String.eqb_neq in E.
      congruence.
  - apply find_none_existsb in F.
    rewrite (StateServiceClips.updateInTrack_absent i u t F). simpl fst.
    destruct (String.eqb j i) eqn:E; [|reflexivity].
    apply String.eqb_eq in E. subst j. now apply find_none_existsb.
Qed.

Lemma findInLanes_update i j u (L : list (list Clip.t)) :
  p_id u = None ->
  findInLanes j (map fst (map (updateInTrack i u) L))
  = if String.eqb j i
    then option_map (fun c => spread c u) (findInLanes i L)
    else findInLanes j L.
Proof.
  intros Hu. induction L as [|t L IH]; simpl.
  - now destruct (String.eqb j i).
  - rewrite (find_updateInTrack i j u t Hu), IH.
    destruct (String.eqb j i) eqn:E.
    + destruct (find (hasId i) t); reflexivity.
    + reflexivity.
Qed.

Lemma existsb_snd_update i u (L : list (list Clip.t)) :
  existsb snd (map (updateInTrack i u) L) = false ->
  findInLanes i L = None /\ map fst (map (updateInTrack i u) L) = L.
Proof.
  induction L as [|t L IH]; simpl; [auto|].
  intros H. apply orb_false_iff in H. destruct H as [H1 H2].
  destruct (IH H2) as [F M].
  unfold updateInTrack in *.
  destruct (findIndex (hasId i) t) as [idx|] eqn:FI.
  { destruct (nth_error t idx); discriminate. }
  simpl. rewrite M.
  assert (Fi : find (hasId i) t = None) by now apply findIndex_none_find.
  now rewrite Fi.
Qed.

(** [findClip] after [updateClip], for an update that leaves ids alone. *)
Lemma findClip_updateClip i j u s :
  p_id u = None ->
  findClip j (updateClip i u s)
  = if String.eqb j i
    then option_map (fun c => spread c u) (findClip i s)
    else findClip j s.
Proof.
  intros Hu. unfold updateClip.
  destruct (findIndex (hasId i) (videoTrack s)) as [idx|] eqn:FI.
  - unfold findClip. simpl videoTrack. simpl audioTracks.
    rewrite (find_updateInTrack i j u (videoTrack s) Hu).
    assert (Fi : find (hasId i) (videoTrack s) <> None).
    { intros N. apply findIndex_none_find in N. congruence. }
    destruct (String.eqb j i) eqn:E; [|reflexivity].
    destruct (find (hasId i) (videoTrack s)); [reflexivity|congruence].
  - assert (Fi : find (hasId i) (videoTrack s) = None)
      by now apply findIndex_none_find.
    destruct (existsb snd (map (updateInTrack i u) (audioTracks s))) eqn:X.
    + unfold findClip. simpl videoTrack. simpl audioTracks.
      rewrite (findInLanes_update i j u _ Hu).
      destruct (String.eqb j i) eqn:E; [|reflexivity].
      apply String.eqb_eq in E. subst j. now rewrite Fi.
    + destruct (existsb_snd_update i u _ X) as [F _].
      destruct (String.eqb j i) eqn:E; [|reflexivity].
      apply String.eqb_eq in E. subst j.
      unfold findClip. now rewrite Fi, F.
Qed.

(** X3. After [updateClip(id, updates)] with updates that leave the id
    alone, [findClip(id)] returns the clip it returned before with the
    updates applied, and every other id finds what it found before. *)
Theorem updateClip_lookup (i : string) (u : Patch) (s : AppState) (c : Clip.t) :
  findClip i s = Some c -> p_id u = None ->
  findClip i (updateClip i u s) = Some (spread c u)
  /\ forall j, j <> i -> findClip j (updateClip i u s) = findClip j s.
Proof.
  intros F Hu. split.
  - rewrite (findClip_updateClip i i u s Hu), String.eqb_refl, F. reflexivity.
  - intros j Hj. rewrite (findClip_updateClip i j u s Hu).
    apply String.eqb_neq in Hj. now rewrite Hj.
Qed.

Lemma updateClip_lookup_witness :
  let s := Sample.timeline in
  let s' := updateClip "clip_a2" (patchStartTime 7) s in
  findClip "clip_a2" s = Some Sample.audioClip2
  /\ findClip "clip_a2" s' = Some (Clip.with_startTime 7 Sample.audioClip2)
  /\ findClip "clip_a1" s' = Some Sample.audioClip1.
Proof.
  assert (F : findClip "clip_a2" Sample.timeline = Some Sample.audioClip2)
    by reflexivity.
  assert (Hu : p_id (patchStartTime 7) = None) by reflexivity.
  destruct (updateClip_lookup "clip_a2" (patchStartTime 7) Sample.timeline
              Sample.audioClip2 F Hu) as [A B].
  split; [exact F|]. split; [exact A|].
  rewrite B; [reflexivity|discriminate].
Defined.

(** *** Appending at the end of a lane *)

Lemma laterEnd_cases a b :
  (laterEnd a b = a /\ clipEnd b <= clipEnd a)
  \/ (laterEnd a b = b /\ clipEnd a <= clipEnd b).
Proof.
  unfold laterEnd, clipEnd.
  destruct (Qgtb _ _) eqn:E.
  - left. split; [reflexivity|]. apply Qgtb_gt in E. now apply Qlt_le_weak.
  - right. split; [reflexivity|]. unfold Qgtb in E. now apply Qltb_ge in E.
Qed.

Lemma fold_laterEnd (r : list Clip.t) (c : Clip.t) :
  let m := fold_left laterEnd r c in
  In m (c :: r) /\ forall x, In x (c :: r) -> clipEnd x <= clipEnd m.
Proof.
  revert c. induction r as [|y r IH]; intros c; simpl.
  - split; [now left|]. intros x [<-|[]]. apply Qle_refl.
  - destruct (IH (laterEnd c y)) as [I M]. simpl in I, M.
    destruct (laterEnd_cases c y) as [[E L]|[E L]]; rewrite E in *.
    + split.
      * destruct I as [I|I]; [now left|right; now right].
      * intros x [<-|[<-|Hx]].
        -- apply M. now left.
        -- apply Qle_trans with (clipEnd c); [exact L|]. apply M. now left.
        -- apply M. now right.
    + split.
      * destruct I as [I|I]; [right; now left|right; now right].
      * intros x [<-|[<-|Hx]].
        -- apply Qle_trans with (clipEnd y); [exact L|]. apply M. now left.
        -- apply M. now left.
        -- apply M. now right.
Qed.

(** The time at which a smart add puts its clip: no clip of the lane
    ends after it, and one ends at it unless the lane is empty. *)
Lemma endOfLast_spec (lane : list Clip.t) :
  (forall x, In x lane -> clipEnd x <= endOfLast lane)
  /\ match lane with
     | [] => endOfLast lane = 0
     | _ => exists x, In x lane /\ endOfLast lane = clipEnd x
     end.
Proof.
  unfold endOfLast, lastClip. destruct lane as [|c r].
  - split; [intros x []|reflexivity].
  - destruct (fold_laterEnd r c) as [I M]. split; [exact M|].
    exists (fold_left laterEnd r c). split; [exact I|reflexivity].
Qed.

Lemma starts_after_no_collision (lane : list Clip.t) (n : Clip.t) :
  (forall x, In x lane -> clipEnd x <= Clip.startTime n) ->
  checkCollision lane n = false /\ forall x, In x lane -> ~ overlap n x.
Proof.
  intros H. split.
  - unfold checkCollision. destruct (existsb (collides n) lane) eqn:E; [|reflexivity].
    apply existsb_exists in E. destruct E as [x [Hx C]].
    unfold collides in C. apply andb_true_iff in C. destruct C as [_ C].
    apply negb_true_iff in C. apply orb_false_iff in C. destruct C as [C _].
    specialize (H x Hx). unfold clipEnd in H. apply Qgeb_ge in H. congruence.
  - intros x Hx [t [A [_ [_ B]]]]. specialize (H x Hx).
    apply (Qlt_irrefl t). apply Qlt_le_trans with (clipEnd x); [exact B|].
    now apply Qle_trans with (Clip.startTime n).
Qed.

(** X4. [addToTimelineSmart] puts the new clip at the end of its lane
    (the video track, or the first audio lane): it starts where the
    clip that ends last ends, or at 0 on an empty lane, so that no clip
    of the lane overlaps it; it throws only for an audio item when
    there is no audio lane at all. *)
Theorem addToTimelineSmart_at_end (newId : string) (item : MediaItem.t)
    (s : AppState) :
  match addToTimelineSmart newId item s with
  | Some s' =>
      exists lane clip,
        match MediaItem.type item with
        | video => lane = videoTrack s /\ videoTrack s' = lane ++ [clip]
                   /\ audioTracks s' = audioTracks s
        | audio => exists rest, audioTracks s = lane :: rest
                   /\ audioTracks s' = (lane ++ [clip]) :: rest
                   /\ videoTrack s' = videoTrack s
        end
        /\ clip = Clip.mk newId (MediaItem.id item) (endOfLast lane)
                          (MediaItem.duration item) 0 (MediaItem.type item)
                          false (Some 1) None None
        /\ (forall x, In x lane -> clipEnd x <= Clip.startTime clip)
        /\ (forall x, In x lane -> ~ overlap clip x)
        /\ checkCollision lane clip = false
        /\ match lane with
           | [] => Clip.startTime clip = 0
           | _ => exists x, In x lane /\ Clip.startTime clip = clipEnd x
           end
  | None => MediaItem.type item = audio /\ audioTracks s = []
  end.
Proof.
  destruct (StateServiceClips.saveState_tracks s) as [V [A _]].
  unfold addToTimelineSmart. rewrite V, A.
  assert (G : forall lane,
    let clip := Clip.mk newId (MediaItem.id item) (endOfLast lane)
                  (MediaItem.duration item) 0 (MediaItem.type item)
                  false (Some 1) None None in
    (forall x, In x lane -> clipEnd x <= Clip.startTime clip)
    /\ (forall x, In x lane -> ~ overlap clip x)
    /\ checkCollision lane clip = false
    /\ match lane with
       | [] => Clip.startTime clip = 0
       | _ => exists x, In x lane /\ Clip.startTime clip = clipEnd x
       end).
  { intros lane clip. destruct (endOfLast_spec lane) as [M E].
    assert (M' : forall x, In x lane -> clipEnd x <= Clip.startTime clip) by exact M.
    destruct (starts_after_no_collision lane clip M') as [C O].
    repeat split; auto. }
  destruct (MediaItem.type item) eqn:T.
  - exists (videoTrack s). eexists. split; [|split; [reflexivity|]].
    + simpl. rewrite A. auto.
    + rewrite <- T. apply G.
  - destruct (audioTracks s) as [|lane rest] eqn:L; [auto|].
    exists lane. eexists. split; [|split; [reflexivity|]].
    + exists rest. simpl. rewrite V. auto.
    + rewrite <- T. apply G.
Qed.

End StateServiceCommands.

(** ** [timeline.ts] : the timeline component *)

Module TimelineFacts.
Import StateService StateServiceMedia Timeline.

(** *** Dragging *)

Lemma updateClip_scalars i u s :
  zoom (updateClip i u s) = zoom s
  /\ selectedClipId (updateClip i u s) = selectedClipId s
  /\ playbackTime (updateClip i u s) = playbackTime s
  /\ media (updateClip i u s) = media s.
Proof.
  unfold updateClip.
  destruct (findIndex (hasId i) (videoTrack s)); [now repeat split|].
  destruct (existsb _ _); now repeat split.
Qed.

Lemma findClip_same_tracks j s s' :
  videoTrack s' = videoTrack s -> audioTracks s' = audioTracks s ->
  findClip j s' = findClip j s.
Proof. intros V A. unfold findClip. now rewrite V, A. Qed.

Lemma findClip_saveState j s : findClip j (saveState s) = findClip j s.
Proof.
  destruct (StateServiceClips.saveState_tracks s) as [V [A _]].
  now apply findClip_same_tracks.
Qed.

(** A pointer move during a drag, as a function of the service alone. *)
Lemma onMouseMove_dragging x d s i :
  isDragging d = true -> dragClipId d = Some i -> i <> EmptyString ->
  onMouseMove x d s
  = (d, updateClip i
          (patchStartTime
             (Math_max 0 (dragOriginalStart d + (x - dragStartX d) / zoom s)))
          s).
Proof.
  intros D I N. unfold onMouseMove. rewrite D, I. simpl.
  apply String.eqb_neq in N. now rewrite N.
Qed.

Lemma dragged_move i c s s' t :
  dragged i c s s' ->
  dragged i c s (updateClip i (patchStartTime t) s')
  /\ findClip i (updateClip i (patchStartTime t) s')
     = Some (Clip.with_startTime t c).
Proof.
  intros [[t0 F] [O [Z [S [P [H R]]]]]].
  assert (Hu : p_id (patchStartTime t) = None) by reflexivity.
  pose proof (StateServiceCommands.findClip_updateClip i i (patchStartTime t) s' Hu) as Fi.
  rewrite String.eqb_refl, F in Fi. simpl in Fi.
  destruct (updateClip_scalars i (patchStartTime t) s') as [Z' [S' [P' _]]].
  destruct (StateServiceFacts.updateClip_stacks i (patchStartTime t) s') as [H' R'].
  split; [|exact Fi].
  split; [exists t; exact Fi|].
  split.
  { intros j Hj.
    rewrite (StateServiceCommands.findClip_updateClip i j (patchStartTime t) s' Hu).
    apply String.eqb_neq in Hj as E. rewrite E. now apply O. }
  repeat split; congruence.
Qed.

Lemma moves_dragged i c d s moves :
  isDragging d = true -> dragClipId d = Some i -> i <> EmptyString ->
  forall s', dragged i c s s' ->
  let r := fold_left (fun ds x => onMouseMove x (fst ds) (snd ds)) moves (d, s') in
  fst r = d /\ dragged i c s (snd r).
Proof.
  intros D I N. induction moves as [|x moves IH]; intros s' G; simpl.
  - auto.
  - rewrite (onMouseMove_dragging x d s' i D I N). simpl fst. simpl snd.
    apply IH. now apply dragged_move.
Qed.

(** X5. A drag of a clip (mouse down on it, any pointer moves, mouse
    up) leaves the clip at the start time of the last pointer position,
    [max(0, original + (x - x0) / zoom)], whatever the moves before it
    were; no other clip, the zoom and the playback time are not
    touched, the clip is selected, and the history ends with the state
    as the drag left it. *)
Theorem drag_places_clip (x0 x : number) (c : Clip.t) (moves : list number)
    (d : Drag) (s : AppState) :
  findClip (Clip.id c) s = Some c -> Clip.id c <> EmptyString ->
  0 < zoom s ->
  let t := Math_max 0 (Clip.startTime c + (x - x0) / zoom s) in
  let r := drag x0 c (moves ++ [x]) d s in
  findClip (Clip.id c) (snd r) = Some (Clip.with_startTime t c)
  /\ 0 <= t
  /\ (forall j, j <> Clip.id c -> findClip j (snd r) = findClip j s)
  /\ zoom (snd r) = zoom s /\ playbackTime (snd r) = playbackTime s
  /\ selectedClipId (snd r) = Some (Clip.id c)
  /\ isDragging (fst r) = false /\ dragClipId (fst r) = None
  /\ exists e, top (historyStack (snd r)) = Some e
               /\ Snapshot_eqb e (snapshot (snd r)) = true.
Proof.
  intros F N Z t r. subst r. unfold drag, onMouseDown.
  set (d1 := mkDrag true (Some (Clip.id c)) x0 (Clip.startTime c)).
  set (s1 := set_selectedClipId (Some (Clip.id c)) s).
  assert (F1 : forall j, findClip j s1 = findClip j s) by reflexivity.
  assert (G : dragged (Clip.id c) c s1 s1).
  { split; [exists (Clip.startTime c); rewrite F1, F; destruct c; reflexivity|].
    repeat split; reflexivity. }
  rewrite fold_left_app.
  destruct (moves_dragged (Clip.id c) c d1 s1 moves eq_refl eq_refl N s1 G)
    as [E1 G2].
  destruct (fold_left _ moves (d1, s1)) as [d2 s2]. simpl in E1, G2. subst d2.
  simpl fold_left.
  rewrite (onMouseMove_dragging x d1 s2 (Clip.id c) eq_refl eq_refl N).
  simpl fst. simpl snd. unfold onMouseUp. simpl isDragging. cbv iota.
  simpl fst. simpl snd.
  assert (Zs : zoom s2 = zoom s) by (destruct G2 as [_ [_ [Zs _]]]; exact Zs).
  rewrite Zs.
  simpl dragOriginalStart. simpl dragStartX. fold t.
  destruct (dragged_move (Clip.id c) c s1 s2 t G2) as [G3 F3].
  set (s3 := updateClip (Clip.id c) (patchStartTime t) s2) in *.
  destruct G3 as [_ [O3 [Z3 [S3 [P3 _]]]]].
  destruct (StateServiceClips.saveState_tracks s3) as [_ [_ [Sv [Pv Zv]]]].
  split; [now rewrite findClip_saveState|].
  split; [apply Math_max_clamp|].
  split; [intros j Hj; rewrite findClip_saveState, (O3 j Hj); apply F1|].
  split; [now rewrite Zv, Z3|]. split; [now rewrite Pv, P3|].
  split; [now rewrite Sv, S3|]. split; [reflexivity|]. split; [reflexivity|].
  destruct (StateServiceCommands.saveState_top_eqb s3) as [e [T E]].
  exists e. split; [exact T|].
  destruct (StateServiceFacts.saveState_visible s3) as [V _]. now rewrite V.
Qed.

Lemma drag_places_clip_witness :
  let s := Sample.timeline in
  let r := drag 100 Sample.audioClip2 [140; 90; 160] noDrag s in
  option_map Clip.startTime (findClip "clip_a2" (snd r)) = Some (60 # 20)
  /\ findClip "clip_a1" (snd r) = Some Sample.audioClip1
  /\ length (historyStack (snd r)) = S (length (historyStack s)).
Proof.
  assert (F : findClip (Clip.id Sample.audioClip2) Sample.timeline
              = Some Sample.audioClip2) by reflexivity.
  assert (N : Clip.id Sample.audioClip2 <> EmptyString) by discriminate.
  assert (Z : 0 < zoom Sample.timeline) by reflexivity.
  destruct (drag_places_clip 100 160 Sample.audioClip2 [140; 90] noDrag
              Sample.timeline F N Z) as [A [_ [B _]]].
  assert (D : "clip_a1"%string <> Clip.id Sample.audioClip2) by discriminate.
  split; [exact (f_equal (option_map Clip.startTime) A)|].
  split; [exact (B "clip_a1"%string D)|reflexivity].
Defined.

(** *** Layout *)

Lemma laneMax_ge m lane : m <= laneMax m lane.
Proof.
  unfold laneMax. revert m. induction lane as [|c lane IH]; intros m; simpl.
  - apply Qle_refl.
  - apply Qle_trans with (Math_max m (Clip.startTime c + Clip.duration c));
      [apply ScriptSilence.Math_max_ge_l|apply IH].
Qed.

Lemma laneMax_covers m lane c : In c lane -> clipEnd c <= laneMax m lane.
Proof.
  unfold laneMax. revert m. induction lane as [|y lane IH]; intros m; simpl.
  - intros [].
  - intros [->|H]; [|now apply IH].
    apply Qle_trans with (Math_max m (Clip.startTime c + Clip.duration c));
      [apply Math_max_ge_r|apply laneMax_ge].
Qed.

Lemma lanesMax_ge m (L : list (list Clip.t)) : m <= fold_left laneMax L m.
Proof.
  revert m. induction L as [|t L IH]; intros m; simpl; [apply Qle_refl|].
  apply Qle_trans with (laneMax m t); [apply laneMax_ge|apply IH].
Qed.

Lemma lanesMax_covers m (L : list (list Clip.t)) c :
  In c (concat L) -> clipEnd c <= fold_left laneMax L m.
Proof.
  revert m. induction L as [|t L IH]; intros m; simpl; [intros []|].
  intros H. apply in_app_or in H. destruct H as [H|H]; [|now apply IH].
  apply Qle_trans with (laneMax m t); [now apply laneMax_covers|apply lanesMax_ge].
Qed.

Lemma maxTimeOf_covers s c : In c (allClips s) -> clipEnd c <= maxTimeOf s.
Proof.
  unfold allClips, maxTimeOf. intros H. apply in_app_or in H. destruct H as [H|H].
  - apply Qle_trans with (laneMax 0 (videoTrack s));
      [now apply laneMax_covers|apply lanesMax_ge].
  - now apply lanesMax_covers.
Qed.

(** X6. The timeline is wide enough for everything on it: with a zoom
    that is not negative, the element drawn for a clip that starts at
    or after 0 with a duration that is not negative begins at or after
    the left edge, is at least 2 pixels wide, and ends at least 498
    pixels before [totalWidth]; and [totalWidth] is at least 20 seconds
    plus 500 pixels. *)
Theorem clips_fit_timeline (s : AppState) (c : Clip.t) :
  0 <= zoom s -> In c (allClips s) ->
  0 <= Clip.startTime c -> 0 <= Clip.duration c ->
  let '(x, w) := getClipStyle c s in
  0 <= x /\ 2 <= w
  /\ x + w + 498 <= totalWidth s
  /\ clipEnd c * zoom s + 500 <= totalWidth s
  /\ 20 * zoom s + 500 <= totalWidth s.
Proof.
  intros Z I S D. unfold getClipStyle, totalWidth.
  pose proof (maxTimeOf_covers s c I) as M.
  pose proof (Math_max_ge_r 20 (maxTimeOf s)) as M1.
  pose proof (ScriptSilence.Math_max_ge_l 20 (maxTimeOf s)) as M2.
  set (w := Math_max 20 (maxTimeOf s)) in *.
  assert (E : clipEnd c * zoom s <= w * zoom s).
  { apply Qmult_le_compat_r; [|exact Z]. now apply Qle_trans with (maxTimeOf s). }
  assert (T : 20 * zoom s <= w * zoom s) by (apply Qmult_le_compat_r; assumption).
  assert (L : 0 <= Clip.startTime c * zoom s) by (apply Qmult_le_0_compat; assumption).
  assert (W : 0 <= Clip.duration c * zoom s) by (apply Qmult_le_0_compat; assumption).
  unfold clipEnd in *.
  split; [exact L|]. split; [apply ScriptSilence.Math_max_ge_l|].
  split; [|split; lra].
  unfold Math_max. destruct (Qle_bool 2 (Clip.duration c * zoom s)); lra.
Qed.

Lemma clips_fit_timeline_witness :
  let s := Sample.timeline in
  let '(x, w) := getClipStyle Sample.videoClip s in
  x == 0 /\ w == 200 /\ totalWidth s == 900.
Proof.
  assert (Z : 0 <= zoom Sample.timeline) by (vm_compute; discriminate).
  assert (I : In Sample.videoClip (allClips Sample.timeline)) by (left; reflexivity).
  assert (S : 0 <= Clip.startTime Sample.videoClip) by (vm_compute; discriminate).
  assert (D : 0 <= Clip.duration Sample.videoClip) by (vm_compute; discriminate).
  pose proof (clips_fit_timeline Sample.timeline Sample.videoClip Z I S D) as H.
  vm_compute. repeat split.
Defined.

(** *** The ruler *)

Lemma tickInterval_more fuel k zoom interval r :
  tickInterval fuel zoom interval = Some r ->
  tickInterval (fuel + k) zoom interval = Some r.
Proof.
  revert interval. induction fuel as [|fuel IH]; intros interval; simpl.
  - destruct (Qltb (interval * zoom) 60) eqn:E; [discriminate|].
    intros H. destruct k; simpl; now rewrite E.
  - destruct (Qltb (interval * zoom) 60); [apply IH|auto].
Qed.

Lemma nextInterval_above interval :
  60 <= interval -> nextInterval interval = interval + 60.
Proof.
  intros H. unfold nextInterval.
  assert (L : forall k, k <= 60 -> Qltb interval k = false).
  { intros k Hk. apply Qltb_ge. now apply Qle_trans with 60. }
  rewrite !L; [reflexivity| | | | | |]; discriminate.
Qed.

Lemma tickInterval_above zoom n : forall interval,
  60 <= interval -> 60 <= (interval + 60 * inject_Z (Z.of_nat n)) * zoom ->
  (exists p, nextInterval p = interval /\ p * zoom < 60 /\ 1 <= p) ->
  exists r, tickInterval n zoom interval = Some r /\ stopsAt zoom r.
Proof.
  induction n as [|n IH]; intros interval H B P.
  - simpl in *. assert (B' : 60 <= interval * zoom).
    { setoid_replace (interval * zoom) with ((interval + 60 * inject_Z 0) * zoom);
        [exact B|ring]. }
    apply Qltb_ge in B' as E. rewrite E. exists interval.
    split; [reflexivity|]. split; [exact B'|]. split; [|right; exact P].
    apply Qle_trans with 60; [discriminate|exact H].
  - simpl tickInterval. destruct (Qltb (interval * zoom) 60) eqn:E.
    + rewrite (nextInterval_above interval H). apply IH.
      * apply Qle_trans with interval; [exact H|]. lra.
      * setoid_replace ((interval + 60 + 60 * inject_Z (Z.of_nat n)) * zoom)
          with ((interval + 60 * inject_Z (Z.of_nat (S n))) * zoom); [exact B|].
        rewrite Nat2Z.inj_succ. unfold Z.succ. rewrite inject_Z_plus. ring.
      * exists interval. split; [apply nextInterval_above, H|].
        split; [now apply Qltb_lt|]. apply Qle_trans with 60; [discriminate|exact H].
    + exists interval. apply Qltb_ge in E.
      split; [reflexivity|]. split; [exact E|]. split; [|right; exact P].
      apply Qle_trans with 60; [discriminate|exact H].
Qed.

Lemma stopsFrom_rung zoom p :
  1 <= p ->
  (p = 1 \/ exists p0, nextInterval p0 = p /\ p0 * zoom < 60 /\ 1 <= p0) ->
  (p * zoom < 60 -> stopsFrom zoom (nextInterval p)) ->
  stopsFrom zoom p.
Proof.
  intros H1 P N. destruct (Qltb (p * zoom) 60) eqn:E.
  - apply Qltb_lt in E as L. destruct (N L) as [fuel [r [T St]]].
    exists (S fuel), r. split; [|exact St]. simpl. now rewrite E.
  - exists 0%nat, p. split; [simpl; now rewrite E|].
    apply Qltb_ge in E. now repeat split.
Qed.

Lemma enough_rungs zoom :
  0 < zoom ->
  60 <= (60 + 60 * inject_Z (Z.of_nat (Z.to_nat (Qceiling (1 / zoom))))) * zoom.
Proof.
  intros Z.
  assert (P : 0 < 1 / zoom).
  { unfold Qdiv. rewrite Qmult_1_l. now apply Qinv_lt_0_compat. }
  pose proof (Qle_ceiling (1 / zoom)) as C.
  assert (C0 : (0 <= Qceiling (1 / zoom))%Z).
  { rewrite Zle_Qle. apply Qle_trans with (1 / zoom); [now apply Qlt_le_weak|exact C]. }
  rewrite Z2Nat.id by exact C0.
  set (n := inject_Z (Qceiling (1 / zoom))) in *.
  assert (M : 1 <= n * zoom).
  { setoid_replace 1 with ((1 / zoom) * zoom).
    - apply Qmult_le_compat_r; [exact C|now apply Qlt_le_weak].
    - field. intros E. rewrite E in Z. now apply Qlt_irrefl in Z. }
  assert (Z60 : 0 <= 60 * zoom) by (apply Qmult_le_0_compat; [discriminate|now apply Qlt_le_weak]).
  setoid_replace ((60 + 60 * n) * zoom) with (60 * zoom + 60 * (n * zoom)) by ring.
  lra.
Qed.

Lemma tickInterval_stops zoom : 0 < zoom -> stopsFrom zoom 1.
Proof.
  intros Z.
  apply stopsFrom_rung; [discriminate|now left|]. intros L1.
  change (nextInterval 1) with 2.
  apply stopsFrom_rung;
    [discriminate|right; exists 1; repeat split; [exact L1|discriminate]|].
  intros L2. change (nextInterval 2) with 5.
  apply stopsFrom_rung;
    [discriminate|right; exists 2; repeat split; [exact L2|discriminate]|].
  intros L5. change (nextInterval 5) with 10.
  apply stopsFrom_rung;
    [discriminate|right; exists 5; repeat split; [exact L5|discriminate]|].
  intros L10. change (nextInterval 10) with 30.
  apply stopsFrom_rung;
    [discriminate|right; exists 10; repeat split; [exact L10|discriminate]|].
  intros L30. change (nextInterval 30) with 60.
  destruct (tickInterval_above zoom (Z.to_nat (Qceiling (1 / zoom))) 60)
    as [r [T St]].
  - discriminate.
  - now apply enough_rungs.
  - exists 30. repeat split; [exact L30|discriminate].
  - exists (Z.to_nat (Qceiling (1 / zoom))), r. now split.
Qed.

Lemma tickInterval_never zoom :
  zoom <= 0 -> forall fuel interval, 0 <= interval ->
  tickInterval fuel zoom interval = None.
Proof.
  intros Z. induction fuel as [|fuel IH]; intros interval H; simpl.
  - assert (L : interval * zoom < 60).
    { apply Qle_lt_trans with 0; [|reflexivity].
      setoid_replace 0 with (interval * 0) by ring.
      rewrite !(Qmult_comm interval). now apply Qmult_le_compat_r. }
    apply Qltb_lt in L. now rewrite L.
  - assert (L : interval * zoom < 60).
    { apply Qle_lt_trans with 0; [|reflexivity].
      setoid_replace 0 with (interval * 0) by ring.
      rewrite !(Qmult_comm interval). now apply Qmult_le_compat_r. }
    apply Qltb_lt in L. rewrite L. apply IH.
    unfold nextInterval.
    repeat (match goal with |- context [if ?b then _ else _] => destruct b end;
            try discriminate).
    lra.
Qed.

Lemma tickTimes_bound duration interval t :
  0 <= duration -> 0 < interval -> In t (tickTimes duration interval) ->
  0 <= t /\ t <= duration.
Proof.
  intros D I H. unfold tickTimes in H.
  apply Qltb_ge in D as E. rewrite E in H.
  apply in_map_iff in H. destruct H as [k [<- K]]. apply in_seq in K.
  assert (Q0 : 0 <= duration / interval).
  { apply Qle_shift_div_l; [exact I|]. now rewrite Qmult_0_l. }
  assert (F0 : (0 <= Qfloor (duration / interval))%Z).
  { rewrite <- (Qfloor_Z 0). now apply Qfloor_resp_le. }
  assert (K' : (Z.of_nat k <= Qfloor (duration / interval))%Z) by lia.
  rewrite Zle_Qle in K'.
  pose proof (Qfloor_le (duration / interval)) as FL.
  assert (KQ : inject_Z (Z.of_nat k) <= duration / interval)
    by (now apply Qle_trans with (inject_Z (Qfloor (duration / interval)))).
  assert (K0 : 0 <= inject_Z (Z.of_nat k)).
  { change 0 with (inject_Z 0). rewrite <- Zle_Qle. lia. }
  split.
  - apply Qmult_le_0_compat; [exact K0|now apply Qlt_le_weak].
  - setoid_replace duration with ((duration / interval) * interval).
    + apply Qmult_le_compat_r; [exact KQ|now apply Qlt_le_weak].
    + field. intros X. rewrite X in I. now apply Qlt_irrefl in I.
Qed.

(** X7. The ruler.  With a positive zoom the [while] loop of
    [rulerTicks] stops, at the first step of the ladder 1, 2, 5, 10, 30,
    60, 120, 180, ... that puts the ticks at least 60 pixels apart; the
    ticks stand at the multiples of that distance from 0 on, none
    beyond [totalWidth].  With a zoom of 0 or less the loop never
    stops. *)
Theorem rulerTicks_spaced (s : AppState) :
  (0 < zoom s ->
   exists fuel interval ticks,
     rulerTicks fuel s = Some ticks
     /\ stopsAt (zoom s) interval
     /\ map tick_left ticks
        = map (fun k => inject_Z (Z.of_nat k) * interval * zoom s)
              (seq 0 (length ticks))
     /\ ticks <> []
     /\ Forall (fun k => 0 <= tick_left k /\ tick_left k <= totalWidth s) ticks)
  /\ (zoom s <= 0 -> forall fuel, rulerTicks fuel s = None).
Proof.
  split.
  - intros Z. destruct (tickInterval_stops (zoom s) Z) as [fuel [interval [T St]]].
    exists fuel, interval. unfold rulerTicks. rewrite T. eexists.
    split; [reflexivity|]. split; [exact St|].
    assert (I : 0 < interval).
    { destruct St as [_ [I _]]. apply Qlt_le_trans with 1; [reflexivity|exact I]. }
    assert (W : 0 <= totalWidth s).
    { unfold totalWidth.
      pose proof (ScriptSilence.Math_max_ge_l 20 (maxTimeOf s)) as M.
      assert (0 <= Math_max 20 (maxTimeOf s) * zoom s).
      { apply Qmult_le_0_compat; [|now apply Qlt_le_weak].
        apply Qle_trans with 20; [discriminate|exact M]. }
      lra. }
    assert (D : 0 <= totalWidth s / zoom s).
    { apply Qle_shift_div_l; [exact Z|]. now rewrite Qmult_0_l. }
    split; [|split].
    + rewrite length_map, map_map. simpl tick_left.
      unfold tickTimes. apply Qltb_ge in D as E. rewrite E.
      rewrite map_map, length_map, length_seq. reflexivity.
    + unfold tickTimes. apply Qltb_ge in D as E. rewrite E. discriminate.
    + apply Forall_forall. intros k Hk. apply in_map_iff in Hk.
      destruct Hk as [t [<- Ht]]. simpl tick_left.
      destruct (tickTimes_bound _ _ t D I Ht) as [T0 T1].
      split; [apply Qmult_le_0_compat; [exact T0|now apply Qlt_le_weak]|].
      apply Qle_trans with ((totalWidth s / zoom s) * zoom s).
      * apply Qmult_le_compat_r; [exact T1|now apply Qlt_le_weak].
      * rewrite Qmult_comm, Qmult_div_r; [apply Qle_refl|].
        intros X. rewrite X in Z. now apply Qlt_irrefl in Z.
  - intros Z fuel. unfold rulerTicks.
    rewrite (tickInterval_never (zoom s) Z fuel 1); [reflexivity|discriminate].
Qed.

Lemma rulerTicks_spaced_witness :
  exists ticks,
    rulerTicks 6 Sample.timeline = Some ticks
    /\ map tick_left (firstn 3 ticks) = [0 * 5 * 20; 1 * 5 * 20; 2 * 5 * 20]
    /\ length ticks = 10%nat.
Proof.
  assert (Z : 0 < zoom Sample.timeline) by reflexivity.
  destruct (rulerTicks_spaced Sample.timeline) as [H _].
  destruct (H Z) as [_ _].
  eexists. split; [vm_compute; reflexivity|]. split; reflexivity.
Defined.

End TimelineFacts.

(** ** The audio service *)

Module AudioServiceFacts.
Import AudioService.

Lemma lookup_store_same k v p : lookup k (store k v p) = Some v.
Proof.
  induction p as [|[k' v'] p IH]; simpl.
  - now rewrite String.eqb_refl.
  - destruct (String.eqb k' k) eqn:E; simpl; rewrite E; [reflexivity|exact IH].
Qed.

Lemma lookup_store_other j k v p :
  j <> k -> lookup j (store k v p) = lookup j p.
Proof.
  intros N. induction p as [|[k' v'] p IH]; simpl.
  - apply not_eq_sym in N. apply String.eqb_neq in N. now rewrite N.
  - destruct (String.eqb k' k) eqn:E; simpl.
    + apply String.eqb_eq in E. subst k'.
      apply not_eq_sym in N. apply String.eqb_neq in N. now rewrite N.
    + destruct (String.eqb k' j); [reflexivity|exact IH].
Qed.

Lemma keys_store k v p j : In j (keys (store k v p)) -> j = k \/ In j (keys p).
Proof.
  unfold keys. induction p as [|[k' v'] p IH]; simpl.
  - intros [<-|[]]. now left.
  - destruct (String.eqb k' k) eqn:E; simpl.
    + intros [<-|H]; [right; now left|right; now right].
    + intros [<-|H]; [right; now left|].
      destruct (IH H) as [->|H']; [now left|right; now right].
Qed.

Lemma lookup_keys k p : lookup k p <> None <-> In k (keys p).
Proof.
  unfold keys. induction p as [|[k' v'] p IH]; simpl.
  - split; [congruence|tauto].
  - destruct (String.eqb k' k) eqn:E.
    + apply String.eqb_eq in E. split; [now left|discriminate].
    + apply String.eqb_neq in E. rewrite IH. split; [now right|].
      intros [H|H]; [contradiction|exact H].
Qed.

Lemma keys_cleanup ids p j :
  In j (keys (cleanup ids p)) -> In j ids /\ In j (keys p).
Proof.
  unfold keys, cleanup. intros H. apply in_map_iff in H.
  destruct H as [[k v] [<- H]]. apply filter_In in H. destruct H as [H E].
  simpl in *. apply existsb_exists in E. destruct E as [x [Hx E]].
  apply String.eqb_eq in E. subst x.
  split; [exact Hx|]. apply in_map_iff. exists (k, v). now split.
Qed.

End AudioServiceFacts.

(** ** [player.ts] : the player component *)

Module PlayerFacts.
Import StateService StateServiceMedia Player.

Lemma covers_spec time c :
  covers time c = true
  <-> Clip.startTime c <= time /\ time < Clip.startTime c + Clip.duration c.
Proof.
  unfold covers. rewrite andb_true_iff, Qgeb_ge, Qltb_lt. tauto.
Qed.

(** X8. After [syncMedia(time, false)] the video element stands where
    the timeline says: under a video clip it is shown, paused exactly
    when the player is, and at most 0.1 s away from the position
    [time - startTime + offset] of the first clip that covers [time], a
    position inside the part of the media that the clip plays; under no
    clip it is hidden, silent and paused. *)
Theorem syncVideo_position (time : number) (s : AppState) (v v' : VideoEl) :
  syncVideo time false s v = Some v' ->
  match getVideoClipAtTime time s with
  | Some c =>
      let clipTime := time - Clip.startTime c + Clip.offset c in
      In c (videoTrack s)
      /\ Clip.offset c <= clipTime
      /\ clipTime < Clip.offset c + Clip.duration c
      /\ Qabs (v_currentTime v' - clipTime) <= 0.1
      /\ v_paused v' = negb (isPlaying s)
      /\ v_opacity v' = 1
      /\ Some (v_gain v') = (if Clip.muted c then Some 0 else Clip.volume c)
  | None =>
      (forall c, In c (videoTrack s) -> covers time c = false)
      /\ v_paused v' = true /\ v_opacity v' = 0 /\ v_gain v' = 0
      /\ v_currentTime v' = v_currentTime v
  end.
Proof.
  unfold syncVideo, getVideoClipAtTime.
  destruct (find (covers time) (videoTrack s)) as [c|] eqn:F.
  - apply find_some in F. destruct F as [I C]. apply covers_spec in C.
    destruct C as [C1 C2].
    assert (W : Clip.offset c <= time - Clip.startTime c + Clip.offset c
                /\ time - Clip.startTime c + Clip.offset c
                   < Clip.offset c + Clip.duration c) by (split; lra).
    set (ct := time - Clip.startTime c + Clip.offset c) in *.
    destruct (if Clip.muted c then Some 0 else Clip.volume c) as [vol|] eqn:G;
      [|discriminate].
    assert (P : forall b, (if isPlaying s && b then false
                           else if negb (isPlaying s) && negb b then true else b)
                          = negb (isPlaying s))
      by (intros b; destruct (isPlaying s), b; reflexivity).
    rewrite P.
    destruct (negb false && Qgtb (Qabs (v_currentTime v - ct)) 0.1) eqn:E;
      intros H; injection H as <-; cbv zeta;
      cbn [v_currentTime v_paused v_opacity v_gain];
      (split; [exact I|]); (split; [exact (proj1 W)|]);
      (split; [exact (proj2 W)|]);
      (split; [|split; [reflexivity|split; [reflexivity|symmetry; exact G]]]).
    + apply Qabs_near_self. discriminate.
    + simpl negb in E. simpl andb in E. unfold Qgtb in E. now apply Qltb_ge in E.
  - intros H. injection H as <-.
    cbn [v_currentTime v_paused v_opacity v_gain].
    split; [|repeat split; reflexivity].
    intros c I. destruct (covers time c) eqn:C; [|reflexivity].
    exfalso. apply (find_none _ _ F) in I. congruence.
Qed.

Lemma syncVideo_position_witness :
  exists v',
    syncVideo 6 false
      (StateService.step Sample.timeline (StateService.OpPlaying true))
      (mkVideo EmptyString 0 true 0 0 1 1) = Some v'
    /\ v_currentTime v' == 6 /\ v_paused v' = false /\ v_opacity v' = 1.
Proof.
  destruct (syncVideo 6 false
              (StateService.step Sample.timeline (StateService.OpPlaying true))
              (mkVideo EmptyString 0 true 0 0 1 1)) as [v'|] eqn:H;
    [|vm_compute in H; discriminate].
  pose proof (syncVideo_position _ _ _ _ H) as P.
  exists v'. split; [reflexivity|].
  vm_compute in H. injection H as <-. repeat split.
Defined.

(** *** The audio pool *)

Lemma getActiveClips_spec time s :
  getActiveClips time s = concat (map (filter (covers time)) (audioTracks s)).
Proof.
  unfold getActiveClips.
  assert (G : forall track acc,
            fold_left (fun clips c => if covers time c then push clips c else clips)
                      track acc
            = acc ++ filter (covers time) track).
  { induction track as [|c track IH]; intros acc; simpl.
    - now rewrite app_nil_r.
    - rewrite IH. destruct (covers time c); [|reflexivity].
      unfold push. now rewrite <- app_assoc. }
  assert (H : forall L acc,
            fold_left (fun clips track =>
                         fold_left (fun clips c =>
                                      if covers time c then push clips c else clips)
                                   track clips) L acc
            = acc ++ concat (map (filter (covers time)) L)).
  { induction L as [|t L IH]; intros acc; simpl.
    - now rewrite app_nil_r.
    - rewrite IH, G. now rewrite <- app_assoc. }
  apply (H (audioTracks s) []).
Qed.

Lemma syncClip_inv time s ids done pool pool' c :
  In (Clip.id c) ids ->
  poolInv s ids done pool ->
  syncClip time s (Some pool) c = Some pool' ->
  poolInv s ids (done ++ [c]) pool'.
Proof.
  intros I [K D] H. unfold syncClip in H.
  destruct (getMedia (Clip.mediaId c) s) as [m|] eqn:M.
  - destruct (negb (String.eqb (MediaItem.url m) EmptyString)) eqn:U.
    + unfold AudioService.playAudio in H.
      destruct (if Clip.muted c then Some 0 else Clip.volume c) as [vol|];
        [|discriminate].
      injection H as <-. split.
      * intros k Hk. apply AudioServiceFacts.keys_store in Hk.
        destruct Hk as [->|Hk]; [exact I|now apply K].
      * intros c' Hc' P. apply in_app_or in Hc'.
        destruct (String.eqb (Clip.id c') (Clip.id c)) eqn:E.
        -- apply String.eqb_eq in E. rewrite E.
           rewrite AudioServiceFacts.lookup_store_same. eexists. split; reflexivity.
        -- apply String.eqb_neq in E.
           rewrite (AudioServiceFacts.lookup_store_other _ _ _ _ E).
           destruct Hc' as [Hc'|[->|[]]]; [now apply D|congruence].
    + injection H as <-. split; [exact K|].
      intros c' Hc' P. apply in_app_or in Hc'.
      destruct Hc' as [Hc'|[<-|[]]]; [now apply D|].
      destruct P as [m' [M' U']]. rewrite M in M'. injection M' as <-.
      apply negb_false_iff in U. apply String.eqb_eq in U. contradiction.
  - injection H as <-. split; [exact K|].
    intros c' Hc' P. apply in_app_or in Hc'.
    destruct Hc' as [Hc'|[<-|[]]]; [now apply D|].
    destruct P as [m' [M' _]]. congruence.
Qed.

Lemma syncClips_inv time s ids clips : forall done pool pool',
  (forall c, In c clips -> In (Clip.id c) ids) ->
  poolInv s ids done pool ->
  fold_left (syncClip time s) clips (Some pool) = Some pool' ->
  poolInv s ids (done ++ clips) pool'.
Proof.
  induction clips as [|c clips IH]; intros done pool pool' I P H;
    cbn [fold_left] in H.
  - injection H as <-. now rewrite app_nil_r.
  - destruct (syncClip time s (Some pool) c) as [pool1|] eqn:E.
    + replace (done ++ c :: clips) with ((done ++ [c]) ++ clips)
        by (now rewrite <- app_assoc).
      apply (IH (done ++ [c]) pool1 pool').
      * intros c' Hc'. apply I. now right.
      * apply (syncClip_inv time s ids done pool pool1 c); auto.
        apply I. now left.
      * exact H.
    + exfalso. clear - H. induction clips as [|c' clips IH];
        cbn [fold_left] in H; [discriminate|auto].
Qed.

(** X9. After the audio half of [syncMedia(time)] the pool holds an
    element only for clips that are under the playhead, and an element
    that has been started for every such clip whose media item has a
    url; the clips under the playhead are those of the audio lanes with
    [startTime <= time < startTime + duration]. *)
Theorem syncAudio_pool (time : number) (s : AppState)
    (pool pool' : AudioService.Pool) :
  syncAudio time s pool = Some pool' ->
  (forall c, In c (getActiveClips time s)
             <-> In c (concat (audioTracks s)) /\ covers time c = true)
  /\ (forall k, In k (AudioService.keys pool') ->
        exists c, In c (getActiveClips time s) /\ Clip.id c = k)
  /\ (forall c, In c (getActiveClips time s) -> playable s c ->
        exists item, AudioService.lookup (Clip.id c) pool' = Some item
                     /\ AudioService.it_paused item = false).
Proof.
  intros H. unfold syncAudio in H.
  set (active := getActiveClips time s) in *.
  set (ids := map Clip.id active) in *.
  assert (P0 : poolInv s ids [] (AudioService.cleanup ids pool)).
  { split; [|intros c []].
    intros k Hk. now apply AudioServiceFacts.keys_cleanup in Hk. }
  assert (I : forall c, In c active -> In (Clip.id c) ids)
    by (intros c Hc; now apply in_map).
  destruct (syncClips_inv time s ids active [] _ pool' I P0 H) as [K D].
  split; [|split].
  - intros c. subst active. rewrite getActiveClips_spec. split.
    + intros Hc. apply in_concat in Hc. destruct Hc as [l [Hl Hc]].
      apply in_map_iff in Hl. destruct Hl as [t [<- Ht]].
      apply filter_In in Hc. destruct Hc as [Hc C]. split; [|exact C].
      apply in_concat. exists t. now split.
    + intros [Hc C]. apply in_concat in Hc. destruct Hc as [t [Ht Hc]].
      apply in_concat. exists (filter (covers time) t). split.
      * now apply in_map.
      * apply filter_In. now split.
  - intros k Hk. apply K in Hk. apply in_map_iff in Hk.
    destruct Hk as [c [E Hc]]. exists c. now split.
  - intros c Hc P. now apply D.
Qed.

Lemma syncAudio_pool_witness :
  exists pool',
    syncAudio 2 Session.service [] = Some pool'
    /\ AudioService.keys pool' = ["clip_a1"%string; "clip_a2"%string]
    /\ length (getActiveClips 2 Session.service) = 2%nat
    /\ getActiveClips 5 Session.service = [].
Proof.
  destruct (syncAudio 2 Session.service []) as [pool'|] eqn:H;
    [|vm_compute in H; discriminate].
  pose proof (syncAudio_pool _ _ _ _ H) as P.
  exists pool'. split; [reflexivity|].
  vm_compute in H. injection H as <-.
  split; [reflexivity|]. split; vm_compute; reflexivity.
Defined.

End PlayerFacts.

(** ** The Angular application *)

Module AppFacts.
Import StateService StateServiceMedia App.

Lemma clipOk_more lib item c : clipOk lib c -> clipOk (lib ++ [item]) c.
Proof.
  intros [V [S [D M]]]. repeat split; auto.
  destruct (find _ lib) as [m|] eqn:F; [|congruence].
  apply find_some in F. destruct F as [I E].
  intros N. assert (X : In m (lib ++ [item])) by (apply in_or_app; now left).
  apply (find_none _ _ N) in X. congruence.
Qed.

Lemma snapOk_more lib item x : snapOk lib x -> snapOk (lib ++ [item]) x.
Proof.
  intros [Z1 [Z2 [L C]]]. repeat split; auto.
  eapply Forall_impl; [|exact C]. intros c. apply clipOk_more.
Qed.

Lemma Forall_pushCapped {A} (P : A -> Prop) h x :
  Forall P h -> P x -> Forall P (pushCapped h x).
Proof.
  intros H X. assert (F : Forall P (push h x)).
  { unfold push. apply Forall_app. split; [exact H|now constructor]. }
  unfold pushCapped. destruct (50 <? length (push h x))%nat; [|exact F].
  unfold shift. destruct (push h x); [constructor|]. now inversion F.
Qed.

Lemma Forall_pop {A} (P : A -> Prop) h x r :
  pop h = Some (x, r) -> Forall P h -> P x /\ Forall P r.
Proof.
  intros E H. assert (N : h <> []).
  { intros ->. discriminate. }
  destruct (pop_some h N) as [x' [r' [E' ->]]].
  rewrite E in E'. injection E' as <- <-.
  unfold push in H. apply Forall_app in H. destruct H as [H1 H2].
  split; [now inversion H2|exact H1].
Qed.

Lemma saveState_sound s : soundService s -> soundService (saveState s).
Proof.
  intros S0. pose proof S0 as [C [H R]]. rewrite StateServiceFacts.saveState_unfold.
  destruct (duplicateOfTop s); [exact S0|].
  split; [exact C|]. split; [|constructor].
  simpl. now apply Forall_pushCapped.
Qed.

Lemma undo_sound s : soundService s -> soundService (undo s).
Proof.
  intros S0. pose proof S0 as [C [H R]]. unfold undo.
  destruct (length (historyStack s) =? 0)%nat; [exact S0|].
  destruct (pop (historyStack s)) as [[x h]|] eqn:E; [|exact S0].
  destruct (Forall_pop _ _ _ _ E H) as [X H'].
  split; [destruct x; exact X|]. split; [exact H'|].
  simpl. unfold push. apply Forall_app. split; [exact R|now constructor].
Qed.

Lemma redo_sound s : soundService s -> soundService (redo s).
Proof.
  intros S0. pose proof S0 as [C [H R]]. unfold redo.
  destruct (length (redoStack s) =? 0)%nat; [exact S0|].
  destruct (pop (redoStack s)) as [[x r]|] eqn:E; [|exact S0].
  destruct (Forall_pop _ _ _ _ E R) as [X R'].
  split; [destruct x; exact X|]. split; [|exact R'].
  simpl. unfold push. apply Forall_app. split; [exact H|now constructor].
Qed.

(** A change of the tracks and of the scalars that keeps the library
    and the stacks. *)
Lemma edit_sound s s' :
  soundService s ->
  media s' = media s -> historyStack s' = historyStack s ->
  redoStack s' = redoStack s ->
  snapOk (media s) (snapshot s') ->
  soundService s'.
Proof.
  intros [C [H R]] M Hh Hr X. unfold soundService. rewrite M, Hh, Hr. auto.
Qed.

Lemma addMedia_sound item s : soundService s -> soundService (addMedia item s).
Proof.
  intros [C [H R]]. unfold soundService. simpl.
  split; [now apply snapOk_more|].
  split; (eapply Forall_impl; [|eassumption]); intros x; apply snapOk_more.
Qed.

Lemma snapOk_intro lib s :
  1 <= zoom s -> zoom s <= 200 -> length (audioTracks s) = 2%nat ->
  Forall (clipOk lib) (allClips s) -> snapOk lib (snapshot s).
Proof. intros. now repeat split. Qed.

Lemma snapOk_elim lib s :
  snapOk lib (snapshot s) ->
  1 <= zoom s /\ zoom s <= 200 /\ length (audioTracks s) = 2%nat
  /\ Forall (clipOk lib) (allClips s).
Proof. intros H. exact H. Qed.

Lemma Forall_assign {A} (P : A -> Prop) (l : list A) i x :
  Forall P l -> P x -> Forall P (assign l i x).
Proof.
  intros H X. revert i. induction H as [|y l Y H IH]; intros i; simpl.
  - constructor.
  - destruct i; constructor; auto.
Qed.

Lemma length_assign {A} (l : list A) i x : length (assign l i x) = length l.
Proof.
  revert i. induction l as [|y l IH]; intros i; simpl; [reflexivity|].
  destruct i; simpl; [reflexivity|now rewrite IH].
Qed.

Lemma updateInTrack_Forall (P : Clip.t -> Prop) i u t :
  (forall c, P c -> P (spread c u)) -> Forall P t ->
  Forall P (fst (updateInTrack i u t)).
Proof.
  intros Hu H. unfold updateInTrack.
  destruct (findIndex (hasId i) t) as [idx|]; [|exact H].
  destruct (nth_error t idx) as [c|] eqn:E; [|exact H].
  simpl. apply Forall_assign; [exact H|]. apply Hu.
  apply nth_error_In in E. rewrite Forall_forall in H. now apply H.
Qed.

Lemma updateClip_Forall (P : Clip.t -> Prop) i u s :
  (forall c, P c -> P (spread c u)) -> Forall P (allClips s) ->
  Forall P (allClips (updateClip i u s))
  /\ length (audioTracks (updateClip i u s)) = length (audioTracks s).
Proof.
  intros Hu H. unfold allClips in *. apply Forall_app in H. destruct H as [V A].
  unfold updateClip.
  destruct (findIndex (hasId i) (videoTrack s)).
  - simpl. split; [|reflexivity]. apply Forall_app. split; [|exact A].
    now apply updateInTrack_Forall.
  - destruct (existsb snd _).
    + simpl. rewrite !length_map. split; [|reflexivity].
      apply Forall_app. split; [exact V|].
      apply Forall_concat. apply Forall_concat in A.
      rewrite map_map. apply Forall_map.
      eapply Forall_impl; [|exact A]. intros t Ht.
      now apply updateInTrack_Forall.
    + split; [|reflexivity]. apply Forall_app. now split.
Qed.

Lemma updateClip_sound i u s :
  (forall c, clipOk (media s) c -> clipOk (media s) (spread c u)) ->
  soundService s -> soundService (updateClip i u s).
Proof.
  intros Hu S0. pose proof S0 as [C _].
  destruct (snapOk_elim _ _ C) as [Z1 [Z2 [L F]]].
  destruct (TimelineFacts.updateClip_scalars i u s) as [Z [_ [_ M]]].
  destruct (StateServiceFacts.updateClip_stacks i u s) as [H R].
  destruct (updateClip_Forall _ i u s Hu F) as [F' L'].
  apply (edit_sound s); auto.
  apply snapOk_intro; rewrite ?Z, ?L'; auto.
Qed.

Lemma spread_startTime_ok lib t c :
  0 <= t -> clipOk lib c -> clipOk lib (spread c (patchStartTime t)).
Proof. intros T [V [S [D M]]]. now repeat split. Qed.

Lemma spread_duration_ok lib d c :
  0 <= d -> clipOk lib c -> clipOk lib (spread c (patchDuration d)).
Proof. intros T [V [S [D M]]]. now repeat split. Qed.

Lemma deleteClip_sound i s : soundService s -> soundService (deleteClip i s).
Proof.
  intros S0. apply saveState_sound in S0. unfold deleteClip.
  set (s1 := saveState s) in *.
  pose proof S0 as [C _]. destruct (snapOk_elim _ _ C) as [Z1 [Z2 [L F]]].
  assert (X : snapOk (media s1)
                (mkSnapshot (filter (lacksId i) (videoTrack s1))
                            (map (filter (lacksId i)) (audioTracks s1))
                            (selectedClipId s1) (playbackTime s1) (zoom s1))).
  { repeat split; auto; simpl; [now rewrite length_map|].
    unfold allClips in F. apply Forall_app in F. destruct F as [V A].
    apply Forall_app. split.
    - apply Forall_forall. intros c Hc. apply filter_In in Hc.
      rewrite Forall_forall in V. now apply V.
    - rewrite StateServiceCommands.concat_map_filter.
      apply Forall_forall. intros c Hc. apply filter_In in Hc.
      rewrite Forall_forall in A. now apply A. }
  destruct (selIs _ _); apply (edit_sound s1); auto.
Qed.

Lemma newClip_ok lib newId item t (vol : number) :
  0 <= t -> 0 <= MediaItem.duration item ->
  find (fun m => String.eqb (MediaItem.id m) (MediaItem.id item)) lib <> None ->
  clipOk lib (Clip.mk newId (MediaItem.id item) t (MediaItem.duration item) 0
                      (MediaItem.type item) false (Some vol) None None).
Proof. intros. repeat split; auto. discriminate. Qed.

Lemma addClip_sound newId item t s :
  soundService s -> 0 <= MediaItem.duration item ->
  getMedia (MediaItem.id item) s <> None ->
  exists s', addClipToTimeline newId item t s = Some s' /\ soundService s'
             /\ media s' = media s.
Proof.
  intros S0 D M. apply saveState_sound in S0.
  destruct (StateServiceFacts.saveState_visible s) as [_ [Ms _]].
  unfold getMedia in M. rewrite <- Ms in M.
  unfold addClipToTimeline. set (s1 := saveState s) in *.
  pose proof S0 as [C _]. destruct (snapOk_elim _ _ C) as [Z1 [Z2 [L F]]].
  pose proof (newClip_ok (media s1) newId item (Math_max 0 t) 1
                (Math_max_clamp t) D M) as N.
  set (clip := Clip.mk newId _ _ _ _ _ _ _ _ _) in *.
  unfold allClips in F. apply Forall_app in F. destruct F as [V A].
  destruct (MediaItem.type item).
  - eexists. split; [reflexivity|]. split; [|exact Ms].
    apply (edit_sound s1); auto. apply snapOk_intro; auto.
    unfold allClips. simpl. apply Forall_app. split; [|exact A].
    apply Forall_app. split; [exact V|now constructor].
  - destruct (audioTracks s1) as [|lane0 [|lane1 [|x r]]] eqn:E; try discriminate.
    apply Forall_concat in A.
    assert (G : forall idx lane, nth_error [lane0; lane1] idx = Some lane ->
              soundService
                (set_audioTracks (assign [lane0; lane1] idx (lane ++ [clip])) s1)).
    { intros idx lane Hn. apply (edit_sound s1); auto.
      apply snapOk_intro; auto;
        unfold allClips, set_audioTracks; cbn [audioTracks videoTrack].
      - now rewrite length_assign.
      - apply Forall_app. split; [exact V|]. apply Forall_concat.
        apply Forall_assign; [exact A|]. apply Forall_app. split; [|now constructor].
        apply nth_error_In in Hn. rewrite Forall_forall in A. now apply A. }
    cbn [nth_error]. destruct (checkCollision lane0 clip); cbn [nth_error].
    + eexists. split; [reflexivity|]. split; [|exact Ms]. now apply (G 1%nat lane1).
    + eexists. split; [reflexivity|]. split; [|exact Ms]. now apply (G 0%nat lane0).
Qed.

Lemma endOfLast_nonneg lib lane :
  Forall (clipOk lib) lane -> 0 <= endOfLast lane.
Proof.
  intros H. destruct (StateServiceCommands.endOfLast_spec lane) as [_ E].
  destruct lane as [|c r]; [rewrite E; apply Qle_refl|].
  destruct E as [x [Hx ->]]. rewrite Forall_forall in H.
  destruct (H x Hx) as [_ [S [D _]]]. unfold clipEnd. lra.
Qed.

Lemma addSmart_sound newId item s :
  soundService s -> 0 <= MediaItem.duration item ->
  getMedia (MediaItem.id item) s <> None ->
  exists s', addToTimelineSmart newId item s = Some s' /\ soundService s'
             /\ media s' = media s.
Proof.
  intros S0 D M. apply saveState_sound in S0.
  destruct (StateServiceFacts.saveState_visible s) as [_ [Ms _]].
  unfold getMedia in M. rewrite <- Ms in M.
  unfold addToTimelineSmart. set (s1 := saveState s) in *.
  pose proof S0 as [C _]. destruct (snapOk_elim _ _ C) as [Z1 [Z2 [L F]]].
  unfold allClips in F. apply Forall_app in F. destruct F as [V A].
  destruct (MediaItem.type item) eqn:T.
  - eexists. split; [reflexivity|]. split; [|exact Ms].
    apply (edit_sound s1); auto. apply snapOk_intro; auto.
    unfold allClips. simpl. apply Forall_app. split; [|exact A].
    apply Forall_app. split; [exact V|]. constructor; [|constructor].
    pose proof (newClip_ok (media s1) newId item (endOfLast (videoTrack s1)) 1
                  (endOfLast_nonneg _ _ V) D M) as N.
    rewrite T in N. exact N.
  - destruct (audioTracks s1) as [|lane0 rest] eqn:E; [discriminate|].
    apply Forall_concat in A. inversion A as [|? ? A0 Ar]; subst.
    eexists. split; [reflexivity|]. split; [|exact Ms].
    apply (edit_sound s1); auto. apply snapOk_intro; auto.
    unfold allClips. simpl videoTrack. simpl audioTracks.
    apply Forall_app. split; [exact V|]. apply Forall_concat.
    constructor; [|exact Ar]. apply Forall_app. split; [exact A0|].
    constructor; [|constructor].
    pose proof (newClip_ok (media s1) newId item (endOfLast lane0) 1
                  (endOfLast_nonneg _ _ A0) D M) as N.
    rewrite T in N. exact N.
Qed.

Lemma findInLanes_In i L c : findInLanes i L = Some c -> In c (concat L).
Proof.
  induction L as [|t L IH]; simpl; [discriminate|].
  destruct (find (hasId i) t) eqn:F.
  - intros H. injection H as <-. apply find_some in F.
    apply in_or_app. left. tauto.
  - intros H. apply in_or_app. right. now apply IH.
Qed.

Lemma findClip_In i s c : findClip i s = Some c -> In c (allClips s).
Proof.
  unfold findClip, allClips. destruct (find (hasId i) (videoTrack s)) eqn:F.
  - intros H. injection H as <-. apply find_some in F.
    apply in_or_app. left. tauto.
  - intros H. apply in_or_app. right. now apply findInLanes_In in H.
Qed.

Lemma splitClip_sound newId s : soundService s -> soundService (splitClip newId s).
Proof.
  intros S0. unfold splitClip.
  destruct (falsyId (selectedClipId s)); [exact S0|].
  destruct (selectedClipId s) as [cid|]; [|exact S0].
  destruct (findClip cid s) as [C|] eqn:F; [|exact S0].
  destruct (Qgtb (playbackTime s - Clip.startTime C) splitMargin
            && Qltb (playbackTime s - Clip.startTime C)
                    (Clip.duration C - splitMargin))
    eqn:G; [|exact S0].
  apply andb_true_iff in G. destruct G as [G1 G2].
  apply Qgtb_gt in G1. apply Qltb_lt in G2.
  assert (M0 : 0 < splitMargin) by reflexivity.
  pose proof S0 as [C0 _]. destruct (snapOk_elim _ _ C0) as [_ [_ [_ F0]]].
  apply findClip_In in F. rewrite Forall_forall in F0.
  destruct (F0 C F) as [CV [CS [CD CM]]].
  apply saveState_sound in S0.
  destruct (StateServiceFacts.saveState_visible s) as [_ [Ms _]].
  set (rel := playbackTime s - Clip.startTime C) in *.
  assert (R0 : 0 <= rel) by lra.
  set (s1 := saveState s) in *.
  assert (S2 : soundService (updateClip (Clip.id C) (patchDuration rel) s1)).
  { apply updateClip_sound; [|exact S0]. intros c. now apply spread_duration_ok. }
  destruct (TimelineFacts.updateClip_scalars (Clip.id C) (patchDuration rel) s1)
    as [_ [_ [_ M2]]].
  set (s2 := updateClip (Clip.id C) (patchDuration rel) s1) in *.
  set (B := Clip.with_offset _ _).
  assert (BO : clipOk (media s2) B).
  { rewrite M2, Ms. subst B. unfold clipOk.
    cbn [Clip.volume Clip.startTime Clip.duration Clip.mediaId Clip.with_offset
         Clip.with_duration Clip.with_startTime Clip.with_id].
    subst rel. split; [exact CV|]. split; [lra|]. split; [lra|exact CM]. }
  pose proof S2 as [C2 _]. destruct (snapOk_elim _ _ C2) as [Z1 [Z2 [L2 F2]]].
  unfold allClips in F2. apply Forall_app in F2. destruct F2 as [V2 A2].
  destruct (Clip.type C).
  - apply (edit_sound s2); auto. apply snapOk_intro; auto.
    unfold allClips. simpl. apply Forall_app. split; [|exact A2].
    apply Forall_app. split; [exact V2|now constructor].
  - apply (edit_sound s2); auto. apply snapOk_intro; auto;
      unfold allClips, set_audioTracks; cbn [audioTracks videoTrack].
    + now rewrite length_map.
    + apply Forall_app. split; [exact V2|]. apply Forall_concat.
      apply Forall_concat in A2. apply Forall_map.
      eapply Forall_impl; [|exact A2]. intros t Ht. simpl.
      destruct (existsb _ t); [|exact Ht].
      apply Forall_app. split; [exact Ht|now constructor].
Qed.

Lemma scalars_sound s s' :
  soundService s ->
  media s' = media s -> historyStack s' = historyStack s ->
  redoStack s' = redoStack s ->
  videoTrack s' = videoTrack s -> audioTracks s' = audioTracks s ->
  1 <= zoom s' -> zoom s' <= 200 ->
  soundService s'.
Proof.
  intros S0 M H R V A Z1 Z2. apply (edit_sound s); auto.
  pose proof S0 as [C _]. destruct (snapOk_elim _ _ C) as [_ [_ [L F]]].
  apply snapOk_intro; auto; unfold allClips in *; now rewrite ?V, ?A.
Qed.

Lemma zoom_of_sound s : soundService s -> 1 <= zoom s /\ zoom s <= 200.
Proof. intros [C _]. destruct (snapOk_elim _ _ C) as [Z1 [Z2 _]]. now split. Qed.

Lemma clamp_zoom z : 1 <= Math_max 1 (Math_min 200 z) /\ Math_max 1 (Math_min 200 z) <= 200.
Proof.
  split; [apply ScriptSilence.Math_max_ge_l|].
  apply Math_max_lub; [discriminate|apply ScriptSilence.Math_min_le_l].
Qed.

(** *** The player never meets a clip without a volume *)

Lemma syncClips_some time s clips : forall pool,
  Forall (fun c => Clip.volume c <> None) clips ->
  exists pool', fold_left (Player.syncClip time s) clips (Some pool) = Some pool'.
Proof.
  induction clips as [|c clips IH]; intros pool H; cbn [fold_left].
  - now exists pool.
  - inversion H as [|? ? V H']; subst. unfold Player.syncClip at 2.
    destruct (getMedia (Clip.mediaId c) s) as [m|]; [|now apply IH].
    destruct (negb _); [|now apply IH].
    unfold AudioService.playAudio.
    destruct (Clip.muted c); [now apply IH|].
    destruct (Clip.volume c); [now apply IH|congruence].
Qed.

Lemma syncMedia_some time vd s p :
  Forall (fun c => Clip.volume c <> None) (allClips s) ->
  exists p', Player.syncMedia time vd s p = Some p'.
Proof.
  intros H. unfold allClips in H. apply Forall_app in H. destruct H as [V A].
  unfold Player.syncMedia.
  assert (SV : exists v, Player.syncVideo time vd s (Player.video p) = Some v).
  { unfold Player.syncVideo, Player.getVideoClipAtTime.
    destruct (find (Player.covers time) (videoTrack s)) as [c|] eqn:F;
      [|eexists; reflexivity].
    apply find_some in F. destruct F as [I _]. rewrite Forall_forall in V.
    specialize (V c I).
    destruct (Clip.muted c); [eexists; reflexivity|].
    destruct (Clip.volume c); [eexists; reflexivity|congruence]. }
  destruct SV as [v ->].
  assert (SA : exists q, Player.syncAudio time s (Player.pool p) = Some q).
  { unfold Player.syncAudio. apply syncClips_some.
    rewrite PlayerFacts.getActiveClips_spec.
    apply Forall_forall. intros c Hc. apply in_concat in Hc.
    destruct Hc as [l [Hl Hc]]. apply in_map_iff in Hl. destruct Hl as [t [<- Ht]].
    apply filter_In in Hc. destruct Hc as [Hc _].
    rewrite Forall_forall in A. apply A. apply in_concat. exists t. now split. }
  destruct SA as [q ->]. eexists. reflexivity.
Qed.

Lemma volumes_of_sound s :
  soundService s -> Forall (fun c => Clip.volume c <> None) (allClips s).
Proof.
  intros [C _]. destruct (snapOk_elim _ _ C) as [_ [_ [_ F]]].
  eapply Forall_impl; [|exact F]. intros c [V _]. exact V.
Qed.

(** *** Every event keeps the application sound *)

Lemma handle_sound a e :
  sound a -> fromBrowser e -> exists a', handle a e = Some a' /\ sound a'.
Proof.
  unfold sound. intros S0 B. destruct (zoom_of_sound _ S0) as [Z1 Z2].
  destruct e; simpl handle.
  - (* MouseDown *)
    eexists. split; [reflexivity|]. simpl.
    now apply (scalars_sound (svc a)).
  - (* MouseMove *)
    unfold Timeline.onMouseMove.
    destruct (negb _ || _); [eexists; split; [reflexivity|exact S0]|].
    destruct (Timeline.dragClipId (dragState a));
      [|eexists; split; [reflexivity|exact S0]].
    eexists. split; [reflexivity|]. simpl svc.
    apply updateClip_sound; [|exact S0].
    intros c. apply spread_startTime_ok, Math_max_clamp.
  - (* MouseUp *)
    unfold Timeline.onMouseUp.
    destruct (Timeline.isDragging (dragState a));
      eexists; (split; [reflexivity|]); simpl svc;
      [now apply saveState_sound|exact S0].
  - (* TimelineClick *)
    eexists. split; [reflexivity|]. simpl svc.
    now apply (scalars_sound (svc a)).
  - (* Wheel *)
    eexists. split; [reflexivity|]. simpl svc. unfold Timeline.onWheel.
    destruct modifier; [|exact S0].
    destruct (clamp_zoom (zoom (svc a) * (if Qgtb deltaY 0 then 0.9 else 1.1)))
      as [C1 C2].
    now apply (scalars_sound (svc a)).
  - (* ClipClick *)
    eexists. split; [reflexivity|]. simpl svc.
    now apply (scalars_sound (svc a)).
  - (* FileDropped *)
    simpl in B. unfold Timeline.processFile.
    destruct (addClip_sound newId item startTime (addMedia item (svc a)))
      as [s' [E [S' _]]].
    + now apply addMedia_sound.
    + exact B.
    + unfold getMedia. simpl media. intros N.
      assert (I : In item (media (svc a) ++ [item]))
        by (apply in_or_app; right; now left).
      apply (find_none _ _ N) in I. now rewrite String.eqb_refl in I.
    + rewrite E. eexists. split; [reflexivity|exact S'].
  - (* FileChosen *)
    simpl in B. unfold Toolbar.processFile.
    destruct (addSmart_sound newId item (addMedia item (svc a)))
      as [s' [E [S' _]]].
    + now apply addMedia_sound.
    + exact B.
    + unfold getMedia. simpl media. intros N.
      assert (I : In item (media (svc a) ++ [item]))
        by (apply in_or_app; right; now left).
      apply (find_none _ _ N) in I. now rewrite String.eqb_refl in I.
    + rewrite E. eexists. split; [reflexivity|exact S'].
  - (* TogglePlay *)
    eexists. split; [reflexivity|]. simpl svc.
    now apply (scalars_sound (svc a)).
  - (* Delete *)
    eexists. split; [reflexivity|]. simpl svc. unfold Toolbar.deleteClip.
    destruct (falsyId _); [exact S0|].
    destruct (selectedClipId (svc a)); [|exact S0]. now apply deleteClip_sound.
  - (* Undo *)
    eexists. split; [reflexivity|]. now apply undo_sound.
  - (* Redo *)
    eexists. split; [reflexivity|]. now apply redo_sound.
  - (* ZoomIn *)
    eexists. split; [reflexivity|]. simpl svc. unfold Toolbar.zoomIn.
    apply (scalars_sound (svc a)); auto; simpl zoom.
    + unfold Math_min. destruct (Qle_bool _ _); lra.
    + apply ScriptSilence.Math_min_le_l.
  - (* ZoomOut *)
    eexists. split; [reflexivity|]. simpl svc. unfold Toolbar.zoomOut.
    apply (scalars_sound (svc a)); auto; simpl zoom.
    + apply ScriptSilence.Math_max_ge_l.
    + apply Math_max_lub; [discriminate|].
      apply Qle_shift_div_r; [reflexivity|]. lra.
  - (* Split *)
    eexists. split; [reflexivity|]. now apply splitClip_sound.
  - (* PlayerTogglePlay *)
    unfold Player.togglePlay.
    destruct (isPlaying (set_isPlaying (negb (isPlaying (svc a))) (svc a)));
      eexists; (split; [reflexivity|]); simpl svc;
      now apply (scalars_sound (svc a)).
  - (* Frame *)
    unfold Player.renderLoop.
    destruct (isPlaying (svc a)); [|eexists; split; [reflexivity|exact S0]].
    match goal with
    | |- context [match ?d with Some newTime => (true, set_playbackTime newTime ?s)
                                | None => (false, ?s') end] =>
        destruct d as [newTime|]
    end.
    + assert (S1 : soundService (set_playbackTime newTime (svc a)))
        by now apply (scalars_sound (svc a)).
      destruct (syncMedia_some (playbackTime (set_playbackTime newTime (svc a)))
                  true (set_playbackTime newTime (svc a))
                  (Player.mk timestamp (Player.video (player a))
                             (Player.pool (player a)))
                  (volumes_of_sound _ S1)) as [p' E].
      rewrite E. eexists. split; [reflexivity|exact S1].
    + set (s1 := set_playbackTime _ (svc a)).
      assert (S1 : soundService s1) by now apply (scalars_sound (svc a)).
      destruct (syncMedia_some (playbackTime s1) false s1
                  (Player.mk timestamp (Player.video (player a))
                             (Player.pool (player a)))
                  (volumes_of_sound _ S1)) as [p' E].
      rewrite E. eexists. split; [reflexivity|exact S1].
  - (* Effect *)
    unfold Player.pausedEffect.
    destruct (negb (isPlaying (svc a))); [|eexists; split; [reflexivity|exact S0]].
    destruct (syncMedia_some (playbackTime (svc a)) false (svc a) (player a)
                (volumes_of_sound _ S0)) as [p' E].
    rewrite E. eexists. split; [reflexivity|exact S0].
  - (* VideoProgress *)
    eexists. split; [reflexivity|exact S0].
Qed.

Lemma run_sound es : forall a,
  sound a -> Forall fromBrowser es -> exists a', run es a = Some a' /\ sound a'.
Proof.
  induction es as [|e es IH]; intros a S0 B; simpl.
  - now exists a.
  - inversion B as [|? ? B1 B2]; subst.
    destruct (handle_sound a e S0 B1) as [a1 [E S1]]. rewrite E.
    now apply IH.
Qed.

Lemma start_sound : sound start.
Proof.
  unfold sound, soundService. simpl. split; [|split; constructor].
  repeat split; try discriminate. constructor.
Qed.

Lemma tickInterval_six z :
  1 <= z -> exists r, Timeline.tickInterval 6 z 1 = Some r /\ r <= 60.
Proof.
  intros Z. cbn [Timeline.tickInterval].
  destruct (Qltb (1 * z) 60); [|eexists; split; [reflexivity|discriminate]].
  change (Timeline.nextInterval 1) with 2.
  destruct (Qltb (2 * z) 60); [|eexists; split; [reflexivity|discriminate]].
  change (Timeline.nextInterval 2) with 5.
  destruct (Qltb (5 * z) 60); [|eexists; split; [reflexivity|discriminate]].
  change (Timeline.nextInterval 5) with 10.
  destruct (Qltb (10 * z) 60); [|eexists; split; [reflexivity|discriminate]].
  change (Timeline.nextInterval 10) with 30.
  destruct (Qltb (30 * z) 60); [|eexists; split; [reflexivity|discriminate]].
  change (Timeline.nextInterval 30) with 60.
  assert (L : Qltb (60 * z) 60 = false) by (apply Qltb_ge; lra).
  rewrite L. eexists. split; [reflexivity|discriminate].
Qed.

(** X11. Started as the application starts, no sequence of events (the
    durations of the files being those a browser reports, never
    negative) makes a handler throw the [TypeError] of an audio item
    added without an audio lane, or of a gain set from a clip without
    a volume. *)
Theorem app_handlers_do_not_throw (es : list Event) :
  Forall fromBrowser es -> run es start <> None.
Proof.
  intros B. destruct (run_sound es start start_sound B) as [a [E _]].
  rewrite E. discriminate.
Qed.

Lemma session_from_browser : Forall fromBrowser Session.events.
Proof. repeat constructor; discriminate. Qed.

Lemma app_handlers_do_not_throw_witness :
  run Session.events start <> None
  /\ option_map (fun a => length (allClips (svc a))) (run Session.events start)
     = Some 3%nat.
Proof.
  split; [exact (app_handlers_do_not_throw Session.events session_from_browser)|].
  vm_compute. reflexivity.
Defined.

(** X12. Whatever the user does, the zoom stays between 1 and 200
    pixels per second, in the current state and in every snapshot of
    the two stacks; so the loop of [rulerTicks] stops within six
    turns, at a step of at most 60 seconds. *)
Theorem app_zoom_bounded (es : list Event) (a : t) :
  Forall fromBrowser es -> run es start = Some a ->
  1 <= zoom (svc a) /\ zoom (svc a) <= 200
  /\ Forall (fun x => 1 <= snap_zoom x /\ snap_zoom x <= 200)
            (historyStack (svc a) ++ redoStack (svc a))
  /\ exists r, Timeline.tickInterval 6 (zoom (svc a)) 1 = Some r /\ r <= 60.
Proof.
  intros B E. destruct (run_sound es start start_sound B) as [a' [E' S0]].
  rewrite E in E'. injection E' as <-.
  destruct (zoom_of_sound _ S0) as [Z1 Z2]. destruct S0 as [_ [H R]].
  split; [exact Z1|]. split; [exact Z2|]. split; [|now apply tickInterval_six].
  apply Forall_app. split; (eapply Forall_impl; [|eassumption]);
    intros x [X1 [X2 _]]; now split.
Qed.

Lemma app_zoom_bounded_witness :
  exists a,
    run (Session.events ++ [ZoomIn; ZoomIn; ZoomIn; ZoomIn; ZoomIn; ZoomIn])
        start = Some a
    /\ 1 <= zoom (svc a) /\ zoom (svc a) <= 200
    /\ zoom (svc a) == 200.
Proof.
  set (es := Session.events ++ [ZoomIn; ZoomIn; ZoomIn; ZoomIn; ZoomIn; ZoomIn]).
  assert (B : Forall fromBrowser es).
  { apply Forall_app. split; [exact session_from_browser|repeat constructor]. }
  destruct (run es start) as [a|] eqn:E; [|vm_compute in E; discriminate].
  destruct (app_zoom_bounded es a B E) as [Z1 [Z2 _]].
  exists a. split; [reflexivity|]. split; [exact Z1|]. split; [exact Z2|].
  vm_compute in E. injection E as <-. reflexivity.
Defined.

(** X13. Whatever the user does, the timeline stays well formed: two
    audio lanes, and clips that all start at or after 0, have a
    duration that is not negative, carry a volume, and name a media
    item of the library, so that no clip is ever labelled as missing
    its media. *)
Theorem app_timeline_well_formed (es : list Event) (a : t) :
  Forall fromBrowser es -> run es start = Some a ->
  length (audioTracks (svc a)) = 2%nat
  /\ forall c, In c (allClips (svc a)) ->
       0 <= Clip.startTime c /\ 0 <= Clip.duration c
       /\ Clip.volume c <> None
       /\ exists m, getMedia (Clip.mediaId c) (svc a) = Some m
                    /\ Timeline.getMediaName c (svc a) = MediaItem.name m.
Proof.
  intros B E. destruct (run_sound es start start_sound B) as [a' [E' S0]].
  rewrite E in E'. injection E' as <-. destruct S0 as [C _].
  destruct (snapOk_elim _ _ C) as [_ [_ [L F]]].
  split; [exact L|]. intros c Hc. rewrite Forall_forall in F.
  destruct (F c Hc) as [V [S [D M]]].
  split; [exact S|]. split; [exact D|]. split; [exact V|].
  unfold Timeline.getMediaName, getMedia in *.
  destruct (find _ (media (svc a))) as [m|]; [|congruence].
  exists m. now split.
Qed.

Lemma app_timeline_well_formed_witness :
  exists a,
    run (Session.events ++ [MouseDown 100 Sample.audioClip2; MouseMove 0; MouseUp])
        start = Some a
    /\ length (audioTracks (svc a)) = 2%nat
    /\ option_map Clip.startTime (findClip "clip_a2" (svc a)) = Some 0.
Proof.
  set (es := Session.events
             ++ [MouseDown 100 Sample.audioClip2; MouseMove 0; MouseUp]).
  assert (B : Forall fromBrowser es).
  { apply Forall_app. split; [exact session_from_browser|repeat constructor]. }
  destruct (run es start) as [a|] eqn:E; [|vm_compute in E; discriminate].
  destruct (app_timeline_well_formed es a B E) as [L _].
  exists a. split; [reflexivity|]. split; [exact L|].
  vm_compute in E. injection E as <-. reflexivity.
Defined.

End AppFacts.

(** ** [script.js] : zooming and the filmstrip *)

Module ScriptViewFacts.
Import Script ScriptView.

Lemma clamp_1_200 z :
  1 <= Math_max 1 (Math_min 200 z) /\ Math_max 1 (Math_min 200 z) <= 200.
Proof.
  split; [apply ScriptSilence.Math_max_ge_l|].
  apply Math_max_lub; [discriminate|apply ScriptSilence.Math_min_le_l].
Qed.

Lemma clamp_cases z :
  (z <= 1 -> Math_max 1 (Math_min 200 z) == 1)
  /\ (1 <= z -> z <= 200 -> Math_max 1 (Math_min 200 z) == z)
  /\ (200 <= z -> Math_max 1 (Math_min 200 z) == 200).
Proof.
  unfold Math_max, Math_min.
  destruct (Qle_bool 200 z) eqn:A.
  - apply Qle_bool_iff in A.
    change (Qle_bool 1 200) with true. cbv iota.
    repeat split; intros; lra.
  - apply Qle_bool_false in A.
    destruct (Qle_bool 1 z) eqn:B.
    + apply Qle_bool_iff in B. repeat split; intros; lra.
    + apply Qle_bool_false in B. repeat split; intros; lra.
Qed.

(** X14. [zoom(newZoom, x)] zooms around the pointer: the new zoom is
    [newZoom] cut to the range from 1 to 200, and the scroll position
    assigned is the one at which the time shown under the pointer is
    the same after as before, or 0 when that position would be
    negative; the rectangle of the tracks, the history, the tracks, the
    selection and the playback time are not touched. *)
Theorem zoom_anchors_pointer (newZoom x : number) (s : State) (v : View)
    (q : list ThumbTask) :
  0 < Script.zoom s -> ~ x == 0 ->
  let '(s', v', q') := zoom newZoom (Some x) s v q in
  let anchored := timeAt x s v * Script.zoom s' - (x - rectLeft v) in
  (newZoom <= 1 -> Script.zoom s' == 1)
  /\ (1 <= newZoom -> newZoom <= 200 -> Script.zoom s' == newZoom)
  /\ (200 <= newZoom -> Script.zoom s' == 200)
  /\ 1 <= Script.zoom s' /\ Script.zoom s' <= 200
  /\ (0 <= anchored -> scrollLeft v' == anchored
                       /\ timeAt x s' v' == timeAt x s v)
  /\ (anchored <= 0 -> scrollLeft v' == 0)
  /\ 0 <= scrollLeft v'
  /\ (0 < scrollLeft v' -> timeAt x s' v' == timeAt x s v)
  /\ rectLeft v' = rectLeft v /\ rectWidth v' = rectWidth v
  /\ snapshot s' = Script.mkSnapshot (tracks s) (selectedClipId s)
                     (playbackTime s) (Script.zoom s')
  /\ historyStack s' = historyStack s /\ redoStack s' = redoStack s.
Proof.
  intros Z X. unfold zoom, orCentre.
  assert (E : Qeq_bool x 0 = false).
  { destruct (Qeq_bool x 0) eqn:E; [|reflexivity].
    apply Qeq_bool_iff in E. contradiction. }
  rewrite E. cbv zeta.
  destruct (clamp_1_200 newZoom) as [C1 C2].
  destruct (clamp_cases newZoom) as [K1 [K2 K3]].
  set (z' := Math_max 1 (Math_min 200 newZoom)) in *.
  unfold timeAt.
  cbn [Script.zoom set_zoom scrollLeft rectLeft rectWidth snapshot historyStack
       redoStack tracks selectedClipId playbackTime].
  set (mouseX := x - rectLeft v).
  set (t0 := (mouseX + scrollLeft v) / Script.zoom s).
  assert (N : ~ z' == 0) by (intros Y; lra).
  assert (A : 0 <= t0 * z' - mouseX ->
              (mouseX + Math_max 0 (t0 * z' - mouseX)) / z' == t0).
  { intros P. rewrite (Math_max_nonneg _ P).
    setoid_replace (mouseX + (t0 * z' - mouseX)) with (t0 * z') by ring.
    now apply Qdiv_mult_l. }
  split; [exact K1|]. split; [exact K2|]. split; [exact K3|].
  split; [exact C1|]. split; [exact C2|].
  split.
  { intros P. split; [rewrite (Math_max_nonneg _ P); reflexivity|exact (A P)]. }
  split.
  { intros P. unfold Math_max.
    destruct (Qle_bool 0 (t0 * z' - mouseX)) eqn:L; [|reflexivity].
    apply Qle_bool_iff in L. lra. }
  split; [apply Math_max_clamp|].
  split.
  { intros P. apply A. unfold Math_max in P.
    destruct (Qle_bool 0 (t0 * z' - mouseX)) eqn:L.
    - now apply Qle_bool_iff.
    - now apply Qlt_irrefl in P. }
  repeat split.
Qed.

Lemma zoom_anchors_pointer_witness :
  let s := Sample.talkTimeline in
  let v := mkView 10 800 100 in
  let '(s', v', q') := zoom 20 (Some 110) s v [] in
  Script.zoom s' == 20 /\ scrollLeft v' == 300
  /\ timeAt 110 s v == 20 /\ timeAt 110 s' v' == 20.
Proof.
  intros s v.
  assert (Z : 0 < Script.zoom s) by reflexivity.
  assert (X : ~ 110 == 0) by discriminate.
  pose proof (zoom_anchors_pointer 20 110 s v [] Z X) as H.
  cbv beta iota zeta delta [zoom] in H |- *.
  destruct H as [_ [K [_ [_ [_ [A _]]]]]].
  pose proof (K ltac:(discriminate) ltac:(discriminate)) as K'.
  assert (T0 : timeAt 110 s v == 20) by reflexivity.
  destruct A as [S1 S2]; [rewrite T0, K'; discriminate|].
  split; [exact K'|]. split; [rewrite S1, T0, K'; reflexivity|].
  split; [exact T0|]. rewrite S2. exact T0.
Defined.

(** X15. A step of the mouse wheel with the zoom between 1 and 200
    changes it by a tenth at most, so that the branch of [zoom] that
    throws the thumbnail queue away is never taken by the wheel. *)
Theorem wheel_keeps_queue (deltaY x : number) (s : State) (v : View)
    (q : list ThumbTask) :
  1 <= Script.zoom s -> Script.zoom s <= 200 ->
  let '(s', v', q') := onWheel true deltaY x s v q in
  q' = q
  /\ 1 <= Script.zoom s' /\ Script.zoom s' <= 200
  /\ Qabs (Script.zoom s' - Script.zoom s) <= Script.zoom s * 0.1.
Proof.
  intros Z1 Z2. unfold onWheel, zoom. cbv zeta.
  set (c := if Qgtb deltaY 0 then 0.9 else 1.1).
  destruct (clamp_1_200 (Script.zoom s * c)) as [C1 C2].
  assert (D : Qabs (Math_max 1 (Math_min 200 (Script.zoom s * c)) - Script.zoom s)
              <= Script.zoom s * 0.1).
  { apply Qabs_Qle_condition. subst c. unfold Math_max, Math_min.
    destruct (Qgtb deltaY 0);
      destruct (Qle_bool 200 _) eqn:A;
      [apply Qle_bool_iff in A|apply Qle_bool_false in A
      |apply Qle_bool_iff in A|apply Qle_bool_false in A];
      destruct (Qle_bool 1 _) eqn:B;
      [apply Qle_bool_iff in B|apply Qle_bool_false in B
      |apply Qle_bool_iff in B|apply Qle_bool_false in B
      |apply Qle_bool_iff in B|apply Qle_bool_false in B
      |apply Qle_bool_iff in B|apply Qle_bool_false in B];
      split; lra. }
  set (z' := Math_max 1 (Math_min 200 (Script.zoom s * c))) in *.
  cbn [Script.zoom set_zoom].
  split; [|auto].
  assert (G : Qgtb (Qabs (z' - Script.zoom s) / Script.zoom s) 0.2 = false).
  { unfold Qgtb. apply Qltb_ge. apply Qle_shift_div_r; [lra|]. lra. }
  now rewrite G.
Qed.

Lemma wheel_keeps_queue_witness :
  let s := Sample.talkTimeline in
  let v := mkView 10 800 100 in
  let q := [mkTask "blob:talk" 0 ("m_talk"%string, 0%Z) 0] in
  let '(s', v', q') := onWheel true (-3) 110 s v q in
  q' = q /\ Script.zoom s' == 11.
Proof.
  assert (Z1 : 1 <= Script.zoom Sample.talkTimeline) by (vm_compute; discriminate).
  assert (Z2 : Script.zoom Sample.talkTimeline <= 200) by (vm_compute; discriminate).
  pose proof (wheel_keeps_queue (-3) 110 Sample.talkTimeline (mkView 10 800 100)
                [mkTask "blob:talk" 0 ("m_talk"%string, 0%Z) 0] Z1 Z2) as H.
  vm_compute. repeat split.
Defined.

(** *** The frame of the export *)

(** X16. The frame that [exportLoop] draws fits the canvas and keeps
    the shape of the video: for positive sizes it lies inside the
    canvas, centred, with the proportions of the video, and it spans
    the whole width or the whole height. *)
Theorem fitFrame_letterbox (cw ch vw vh : number) :
  0 < cw -> 0 < ch -> 0 < vw -> 0 < vh ->
  let '(x, y, w, h) := fitFrame cw ch vw vh in
  0 <= x /\ 0 <= y /\ x + w <= cw /\ y + h <= ch
  /\ x + w / 2 == cw / 2 /\ y + h / 2 == ch / 2
  /\ w * vh == h * vw
  /\ (w == cw \/ h == ch).
Proof.
  intros CW CH VW VH. unfold fitFrame. cbv zeta.
  assert (NW : ~ vw == 0) by (intros E; lra).
  assert (NH : ~ vh == 0) by (intros E; lra).
  set (sc := Math_min (cw / vw) (ch / vh)).
  assert (S1 : sc <= cw / vw) by apply ScriptSilence.Math_min_le_l.
  assert (S2 : sc <= ch / vh) by apply Math_min_le_r.
  assert (W : vw * sc <= cw).
  { apply Qle_trans with (vw * (cw / vw)).
    - apply Qmult_le_l; assumption.
    - rewrite Qmult_div_r; [apply Qle_refl|exact NW]. }
  assert (H : vh * sc <= ch).
  { apply Qle_trans with (vh * (ch / vh)).
    - apply Qmult_le_l; assumption.
    - rewrite Qmult_div_r; [apply Qle_refl|exact NH]. }
  assert (D2 : forall a, a / 2 == a * (1 # 2)) by (intros a; reflexivity).
  rewrite !D2.
  split; [lra|]. split; [lra|]. split; [lra|]. split; [lra|].
  split; [ring|]. split; [ring|]. split; [ring|].
  subst sc. unfold Math_min. destruct (Qle_bool (cw / vw) (ch / vh)).
  - left. rewrite Qmult_div_r; [reflexivity|exact NW].
  - right. rewrite Qmult_div_r; [reflexivity|exact NH].
Qed.

Lemma fitFrame_letterbox_witness :
  let '(x, y, w, h) := fitFrame 1280 720 640 480 in
  x == 160 /\ y == 0 /\ w == 960 /\ h == 720.
Proof.
  assert (A : 0 < 1280) by reflexivity. assert (B : 0 < 720) by reflexivity.
  assert (C : 0 < 640) by reflexivity. assert (D : 0 < 480) by reflexivity.
  pose proof (fitFrame_letterbox 1280 720 640 480 A B C D) as H.
  vm_compute. repeat split.
Defined.

End ScriptViewFacts.

(** ** [script.js] : the filmstrip and the capture pipeline *)

Module ScriptFilmstrip.
Import Script ScriptView.

Lemma length_flat_map_le {A B} (f : A -> list B) (l : list A) :
  (forall a, (length (f a) <= 1)%nat) ->
  (length (flat_map f l) <= length l)%nat.
Proof.
  intros H. induction l as [|a l IH]; [apply Nat.le_refl|].
  cbn [flat_map]. rewrite length_app. specialize (H a).
  change (length (a :: l)) with (S (length l)). lia.
Qed.

Lemma numThumbs_pos clip s :
  0 < Script.zoom s -> 0 < Clip.duration clip -> (1 <= numThumbs clip s)%Z.
Proof.
  intros Z D. unfold numThumbs.
  set (x := Clip.duration clip * Script.zoom s / 150).
  assert (P : 0 < x).
  { unfold x. apply Qlt_shift_div_l; [reflexivity|].
    rewrite Qmult_0_l. now apply Qmult_lt_0_compat. }
  pose proof (Qle_ceiling x) as C.
  assert (L : 0 < inject_Z (Qceiling x)) by lra.
  change 0 with (inject_Z 0) in L. rewrite <- Zlt_Qlt in L. lia.
Qed.

(** X17. The filmstrip of a clip of positive length at a positive zoom
    is cut into at least one thumbnail, each at most 150 pixels wide,
    and every frame asked for lies in the part of the source that the
    clip shows: at or after [offset] and before [offset + duration]. *)
Theorem thumbnails_inside_clip (clip : Clip.t) (s : State) (c : Container) :
  0 < Script.zoom s -> 0 < Clip.duration clip ->
  (1 <= numThumbs clip s)%Z
  /\ 0 < thumbWidth clip s /\ thumbWidth clip s <= 150
  /\ (length (visibleThumbs clip s c) <= Z.to_nat (numThumbs clip s))%nat
  /\ Forall (fun th =>
               (0 <= fst th < numThumbs clip s)%Z
               /\ Clip.offset clip <= snd th
               /\ snd th < Clip.offset clip + Clip.duration clip)
            (visibleThumbs clip s c).
Proof.
  intros Z D. pose proof (numThumbs_pos clip s Z D) as N.
  assert (NQ : 0 < inject_Z (numThumbs clip s)).
  { change 0 with (inject_Z 0). rewrite <- Zlt_Qlt. lia. }
  assert (W : 0 < Clip.duration clip * Script.zoom s)
    by now apply Qmult_lt_0_compat.
  split; [exact N|]. split; [|split; [|split]].
  - unfold thumbWidth. apply Qlt_shift_div_l; [exact NQ|]. lra.
  - unfold thumbWidth. apply Qle_shift_div_r; [exact NQ|].
    pose proof (Qle_ceiling (Clip.duration clip * Script.zoom s / 150)) as C.
    fold (numThumbs clip s) in C.
    set (x := Clip.duration clip * Script.zoom s) in *.
    set (n := inject_Z (numThumbs clip s)) in *.
    assert (E : x == x / 150 * 150).
    { unfold Qdiv. rewrite <- Qmult_assoc.
      setoid_replace (/ 150 * 150) with 1 by reflexivity. ring. }
    rewrite E. rewrite (Qmult_comm 150 n).
    apply Qmult_le_compat_r; [exact C|discriminate].
  - unfold visibleThumbs. cbv zeta. destruct (hidden _ _ c); [simpl; lia|].
    eapply Nat.le_trans; [apply length_flat_map_le|now rewrite length_seq].
    intros k. destruct (hidden _ _ c); simpl; lia.
  - unfold visibleThumbs. cbv zeta. destruct (hidden _ _ c); [constructor|].
    apply Forall_flat_map. apply Forall_forall. intros k K.
    apply in_seq in K. destruct (hidden _ _ c); constructor; [|constructor].
    cbn [fst snd].
    assert (I0 : 0 <= inject_Z (Z.of_nat k)).
    { change 0 with (inject_Z 0). rewrite <- Zle_Qle. lia. }
    assert (I1 : inject_Z (Z.of_nat k) < inject_Z (numThumbs clip s)).
    { rewrite <- Zlt_Qlt. lia. }
    set (i := inject_Z (Z.of_nat k)) in *.
    set (n := inject_Z (numThumbs clip s)) in *.
    set (d := Clip.duration clip) in *.
    assert (Q0 : 0 < d / n) by (apply Qlt_shift_div_l; [exact NQ|lra]).
    assert (P0 : 0 <= i * (d / n)) by (apply Qmult_le_0_compat; lra).
    assert (P1 : i * (d / n) < d).
    { apply Qle_lt_trans with (i * (d / n)); [apply Qle_refl|].
      setoid_replace d with (n * (d / n)) at 2
        by (rewrite Qmult_div_r; [reflexivity|lra]).
      apply Qmult_lt_compat_r; assumption. }
    split; [lia|]. split; lra.
Qed.

Lemma thumbnails_inside_clip_witness :
  let clip := Clip.mk "c1" "m_film" 2 40 5 video false None None None in
  let s := ScriptView.set_zoom 10 Script.initial in
  let c := mkContainer 0 200 in
  numThumbs clip s = 3%Z
  /\ map fst (visibleThumbs clip s c) = [0%Z; 1%Z]
  /\ Forall (fun th => 5 <= snd th /\ snd th < 45) (visibleThumbs clip s c).
Proof.
  intros clip s c.
  assert (Z : 0 < Script.zoom s) by reflexivity.
  assert (D : 0 < Clip.duration clip) by reflexivity.
  destruct (thumbnails_inside_clip clip s c Z D) as [_ [_ [_ [_ F]]]].
  split; [reflexivity|]. split; [reflexivity|].
  eapply Forall_impl; [|exact F]. intros th [_ H]. exact H.
Defined.

(** *** One capture at a time *)

Lemma process_oneAtATime t : oneAtATime t -> oneAtATime (processThumbQueue t).
Proof.
  intros H. unfold processThumbQueue.
  destruct (playing t); [exact H|].
  destruct (isProcessingThumbs t) eqn:P; [exact H|].
  destruct (thumbQueue t) as [|task rest]; [exact H|].
  unfold oneAtATime in *. rewrite P in H. cbn [isProcessingThumbs seekedListeners errorListeners].
  rewrite H. exists task. split; [reflexivity|].
  unfold push. rewrite existsb_app. simpl. rewrite Nat.eqb_refl.
  now rewrite orb_true_r.
Qed.

Lemma request_oneAtATime m u time t :
  oneAtATime t -> oneAtATime (requestThumbnail m u time t).
Proof.
  intros H. unfold requestThumbnail.
  destruct (cached _ _); [exact H|].
  unfold captureThumbnail. apply process_oneAtATime. exact H.
Qed.

Lemma onSeek_fold d ls t :
  seekedListeners t = [] ->
  seekedListeners (fold_left (onSeek d) ls t) = []
  /\ isProcessingThumbs (fold_left (onSeek d) ls t)
     = match ls with [] => isProcessingThumbs t | _ => false end.
Proof.
  revert t. induction ls as [|l ls IH]; intros t E; [now split|].
  cbn [fold_left].
  destruct (IH (onSeek d t l)) as [A B]; [simpl; now rewrite E|].
  split; [exact A|]. rewrite B. now destruct ls.
Qed.

Lemma onError_fold ls t :
  seekedListeners (fold_left onError ls t)
  = filter (fun l => negb (existsb (fun e => (tk_tag e =? tk_tag l)%nat) ls))
           (seekedListeners t)
  /\ isProcessingThumbs (fold_left onError ls t)
     = match ls with [] => isProcessingThumbs t | _ => false end.
Proof.
  revert t. induction ls as [|e ls IH]; intros t.
  - split; [|reflexivity]. simpl.
    induction (seekedListeners t) as [|x r IHr]; [reflexivity|].
    simpl. now rewrite <- IHr.
  - cbn [fold_left]. destruct (IH (onError t e)) as [A B].
    split; [|rewrite B; now destruct ls].
    rewrite A. cbn [onError seekedListeners].
    induction (seekedListeners t) as [|x r IHr]; [reflexivity|].
    cbn [filter existsb].
    rewrite (Nat.eqb_sym (tk_tag e) (tk_tag x)).
    destruct (tk_tag x =? tk_tag e)%nat; cbn [negb orb filter].
    + exact IHr.
    + destruct (existsb _ ls); cbn [negb]; [exact IHr|now rewrite IHr].
Qed.

Lemma step_oneAtATime t e : oneAtATime t -> oneAtATime (thumbStep t e).
Proof.
  intros H. destruct e as [m u time|d| | |b]; cbn [thumbStep].
  - now apply request_oneAtATime.
  - match goal with |- oneAtATime (fold_left _ _ ?t0) =>
      destruct (onSeek_fold d (seekedListeners t) t0 eq_refl) as [A B] end.
    unfold oneAtATime in *. rewrite B, A. cbn [isProcessingThumbs].
    destruct (isProcessingThumbs t).
    + destruct H as [l [E _]]. rewrite E. reflexivity.
    + rewrite H. reflexivity.
  - match goal with |- oneAtATime (fold_left _ _ ?t0) =>
      destruct (onError_fold (errorListeners t) t0) as [A B] end.
    unfold oneAtATime in *. rewrite B, A. cbn [isProcessingThumbs seekedListeners].
    destruct (isProcessingThumbs t).
    + destruct H as [l [E X]]. rewrite E.
      destruct (errorListeners t) as [|e0 r]; [discriminate|].
      cbn [filter]. rewrite X. reflexivity.
    + rewrite H. now destruct (errorListeners t).
  - destruct (timers t); [exact H|]. apply process_oneAtATime. exact H.
  - exact H.
Qed.

Lemma run_oneAtATime es t : oneAtATime t -> oneAtATime (thumbRun es t).
Proof.
  revert t. induction es as [|e es IH]; intros t H; [exact H|].
  simpl. apply IH. now apply step_oneAtATime.
Qed.

(** X18. The thumbnail pipeline captures one frame at a time, whatever
    is requested and whatever the shared video reports: a capture is in
    progress exactly when one [seeked] listener waits, with its
    [error] listener registered, and never two; and the next [seeked]
    or [error] event always ends the capture in progress. *)
Theorem one_capture_at_a_time (es : list ThumbEvent) (d : string) :
  let t := thumbRun es idle in
  oneAtATime t
  /\ (length (seekedListeners t) <= 1)%nat
  /\ isProcessingThumbs (thumbStep t (Seeked d))
     = false
  /\ isProcessingThumbs (thumbStep t Errored) = false.
Proof.
  intros t.
  assert (H : oneAtATime t) by (apply run_oneAtATime; reflexivity).
  split; [exact H|].
  pose proof (step_oneAtATime t (Seeked d) H) as HS.
  pose proof (step_oneAtATime t Errored H) as HE.
  split; [|split].
  - unfold oneAtATime in H. destruct (isProcessingThumbs t).
    + destruct H as [l [E _]]. rewrite E. simpl. lia.
    + rewrite H. simpl. lia.
  - cbn [thumbStep] in *.
    match goal with |- isProcessingThumbs (fold_left _ _ ?t0) = _ =>
      destruct (onSeek_fold d (seekedListeners t) t0 eq_refl) as [A B] end.
    rewrite B. cbn [isProcessingThumbs].
    unfold oneAtATime in H. destruct (isProcessingThumbs t).
    + destruct H as [l [E _]]. now rewrite E.
    + now rewrite H.
  - cbn [thumbStep] in *.
    match goal with |- isProcessingThumbs (fold_left _ _ ?t0) = _ =>
      destruct (onError_fold (errorListeners t) t0) as [A B] end.
    rewrite B. cbn [isProcessingThumbs].
    unfold oneAtATime in H. destruct (isProcessingThumbs t).
    + destruct H as [l [_ X]]. destruct (errorListeners t); [discriminate|reflexivity].
    + now destruct (errorListeners t).
Qed.

End ScriptFilmstrip.

(** ** [script.js] : the playback engine *)

Module ScriptPlayerFacts.
Import Script ScriptPlayer.

Lemma follow_spec playing paused : follow playing paused = negb playing.
Proof. now destruct playing, paused. Qed.

Lemma pool_lookup_store_same k v p : lookup k (store k v p) = Some v.
Proof.
  induction p as [|[k' v'] p IH]; simpl.
  - now rewrite String.eqb_refl.
  - destruct (String.eqb k' k) eqn:E; simpl; rewrite E; [reflexivity|exact IH].
Qed.

Lemma pool_lookup_store_other j k v p :
  j <> k -> lookup j (store k v p) = lookup j p.
Proof.
  intros N. induction p as [|[k' v'] p IH]; simpl.
  - apply not_eq_sym in N. apply String.eqb_neq in N. now rewrite N.
  - destruct (String.eqb k' k) eqn:E; simpl.
    + apply String.eqb_eq in E. subst k'.
      apply not_eq_sym in N. apply String.eqb_neq in N. now rewrite N.
    + destruct (String.eqb k' j); [reflexivity|exact IH].
Qed.

Lemma pool_lookup_filter (f : string -> bool) k p :
  lookup k (filter (fun kv => f (fst kv)) p)
  = if f k then lookup k p else None.
Proof.
  induction p as [|[k' v'] p IH]; simpl; [now destruct (f k)|].
  destruct (f k') eqn:F; simpl.
  - destruct (String.eqb k' k) eqn:E.
    + apply String.eqb_eq in E. subst k'. now rewrite F.
    + exact IH.
  - destruct (String.eqb k' k) eqn:E; [|exact IH].
    apply String.eqb_eq in E. subst k'. rewrite F in IH. now rewrite F.
Qed.

(** A synchronized element: within 0.3 s of the time of its clip, and
    playing exactly when the timeline plays. *)
Lemma sync_time (current clipTime : number) :
  Qabs ((if Qgtb (Qabs (current - clipTime)) 0.3 then clipTime else current)
        - clipTime) <= 0.3.
Proof.
  destruct (Qgtb _ 0.3) eqn:G.
  - apply Qabs_near_self. discriminate.
  - unfold Qgtb in G. now apply Qltb_ge in G.
Qed.

Lemma syncOne_none s clips : fold_left (syncOne s) clips None = None.
Proof. induction clips as [|c r IH]; [reflexivity|exact IH]. Qed.

(** What the loop over the active clips leaves in the pool. *)
Lemma syncPool_fold s clips pool pool' :
  NoDup (map Clip.id clips) ->
  fold_left (syncOne s) clips (Some pool) = Some pool' ->
  (forall clip, In clip clips ->
     exists el, lookup (Clip.id clip) pool' = Some el
       /\ Qabs (a_currentTime el
                - (playbackTime s - Clip.startTime clip + Clip.offset clip))
          <= 0.3
       /\ a_paused el = negb (isPlaying s))
  /\ (forall k, ~ In k (map Clip.id clips) -> lookup k pool' = lookup k pool).
Proof.
  revert pool. induction clips as [|c r IH]; intros pool D H.
  - injection H as <-. split; [intros clip []|reflexivity].
  - cbn [fold_left] in H. inversion D as [|x l Nin D' E]. subst x l.
    destruct (syncOne s (Some pool) c) as [pool1|] eqn:E1;
      [|rewrite syncOne_none in H; discriminate].
    destruct (IH pool1 D' H) as [A B].
    assert (L : exists el, lookup (Clip.id c) pool1 = Some el
                 /\ Qabs (a_currentTime el
                          - (playbackTime s - Clip.startTime c + Clip.offset c))
                    <= 0.3
                 /\ a_paused el = negb (isPlaying s)
                 /\ forall k, k <> Clip.id c -> lookup k pool1 = lookup k pool).
    { cbn [syncOne] in E1.
      destruct (match lookup (Clip.id c) pool with
                | Some el => Some el
                | None => match mediaOf c s with
                          | Some media => Some (mkAudio (MediaItem.url media) 0 true)
                          | None => None
                          end
                end) as [el|]; [|discriminate].
      match type of E1 with Some (store _ ?e _) = _ => set (el' := e) in * end.
      injection E1 as <-. exists el'. split; [apply pool_lookup_store_same|].
      split; [exact (sync_time (a_currentTime el) _)|].
      split; [exact (follow_spec _ _)|].
      intros k K. now apply pool_lookup_store_other. }
    destruct L as [el [L1 [L2 [L3 L4]]]].
    split.
    + intros clip [<-|I]; [|now apply A].
      exists el. rewrite (B (Clip.id c) Nin). auto.
    + intros k K. cbn [map] in K.
      rewrite B by (intros X; apply K; now right).
      apply L4. intros ->. apply K. now left.
Qed.

(** The clips under the playhead have distinct ids when the clips of
    the track have. *)
Lemma active_ids_distinct (time : number) (clips : list Clip.t) :
  NoDup (map Clip.id clips) ->
  NoDup (map Clip.id (filter (covers time) clips)).
Proof.
  induction clips as [|a l IH]; intros D; [constructor|].
  inversion D as [|x r N D' E]. subst x r. cbn [filter].
  destruct (covers time a); [|now apply IH].
  cbn [map]. constructor; [|now apply IH].
  intros I. apply N. apply in_map_iff in I. destruct I as [b [E I]].
  apply filter_In in I. apply in_map_iff. exists b. tauto.
Qed.

(** X19. After [syncVideo()] the audio pool holds the audio clips
    under the playhead and nothing else: each of them has an element,
    at most 0.3 s away from the time of its clip and playing exactly
    when the timeline plays, and every element left in the pool
    belongs to such a clip.  (No two clips of the audio track share an
    id.) *)
Theorem syncVideo_pool (s : State) (p p' : ScriptPlayer.t) :
  NoDup (map Clip.id (tr_audio (tracks s))) ->
  syncVideo s p = Some p' ->
  (forall clip, In clip (tr_audio (tracks s)) ->
     covers (playbackTime s) clip = true ->
     exists el, lookup (Clip.id clip) (audioPool p') = Some el
       /\ Qabs (a_currentTime el
                - (playbackTime s - Clip.startTime clip + Clip.offset clip))
          <= 0.3
       /\ a_paused el = negb (isPlaying s))
  /\ (forall k el, lookup k (audioPool p') = Some el ->
        exists clip, In clip (tr_audio (tracks s))
          /\ covers (playbackTime s) clip = true /\ Clip.id clip = k).
Proof.
  intros D H. unfold syncVideo in H.
  destruct (syncMain s (video p)) as [v|]; [|discriminate].
  destruct (syncPool s (audioPool p)) as [pool|] eqn:E; [|discriminate].
  injection H as <-. cbn [audioPool]. unfold syncPool in E. cbv zeta in E.
  set (active := filter (covers (playbackTime s)) (tr_audio (tracks s))) in *.
  assert (DA : NoDup (map Clip.id active)) by now apply active_ids_distinct.
  destruct (syncPool_fold s active _ pool DA E) as [A B].
  split.
  - intros clip I C. apply A. apply filter_In. now split.
  - intros k el L.
    destruct (in_dec string_dec k (map Clip.id active)) as [I|N].
    + apply in_map_iff in I. destruct I as [clip [Ek I]].
      apply filter_In in I. exists clip. tauto.
    + rewrite (B k N) in L.
      rewrite (pool_lookup_filter (fun k => existsb (hasId k) active)) in L.
      destruct (existsb (hasId k) active) eqn:X; [|discriminate].
      apply existsb_exists in X. destruct X as [clip [I Hk]].
      apply hasId_eq in Hk. apply filter_In in I. exists clip. tauto.
Qed.

Lemma syncVideo_pool_witness :
  let s := set_isPlaying true (set_playbackTime 2 ScriptSession.movie) in
  exists p' el,
    syncVideo s ScriptSession.engine = Some p'
    /\ lookup "clip_a" (audioPool p') = Some el
    /\ Qabs (a_currentTime el - 1) <= 0.3 /\ a_paused el = false.
Proof.
  intros s.
  assert (D : NoDup (map Clip.id (tr_audio (tracks s)))).
  { constructor; [intros []|constructor]. }
  destruct (syncVideo s ScriptSession.engine) as [p'|] eqn:E;
    [|vm_compute in E; discriminate].
  destruct (syncVideo_pool s ScriptSession.engine p' D E) as [A _].
  destruct (A (Clip.mk "clip_a" "m_song" 1 4 0 audio false None None None))
    as [el [L [T P]]]; [now left|reflexivity|].
  exists p', el. split; [reflexivity|]. split; [exact L|].
  split; [|exact P].
  setoid_replace 1 with (playbackTime s - 1 + 0) at 1 by reflexivity.
  exact T.
Defined.

(** X20. After [syncVideo()] the main video shows the clip of the
    video track under the playhead: the source of its media item, at
    most 0.3 s away from the time of the clip, muted as the clip is,
    playing exactly when the timeline plays, and visible.  With no
    clip under the playhead the video is hidden and paused.  A clip
    under the playhead whose media item is gone makes [syncVideo()]
    throw. *)
Theorem syncVideo_picture (s : State) (p : ScriptPlayer.t) :
  match find (covers (playbackTime s)) (tr_video (tracks s)) with
  | Some clip =>
      match mediaOf clip s with
      | None => syncVideo s p = None
      | Some media =>
          forall p', syncVideo s p = Some p' ->
            v_src (video p') = MediaItem.url media
            /\ Qabs (v_currentTime (video p')
                     - (playbackTime s - Clip.startTime clip + Clip.offset clip))
               <= 0.3
            /\ v_muted (video p') = Clip.muted clip
            /\ v_paused (video p') = negb (isPlaying s)
            /\ v_opacity (video p') = 1
      end
  | None =>
      forall p', syncVideo s p = Some p' ->
        v_opacity (video p') = 0 /\ v_paused (video p') = true
        /\ v_src (video p') = v_src (video p)
        /\ v_currentTime (video p') = v_currentTime (video p)
  end.
Proof.
  unfold syncVideo, syncMain.
  destruct (find (covers (playbackTime s)) (tr_video (tracks s))) as [clip|].
  - destruct (mediaOf clip s) as [media|]; [|reflexivity].
    intros p' H.
    destruct (syncPool s (audioPool p)) as [pool|]; [|discriminate].
    injection H as <-. cbn [video v_src v_currentTime v_muted v_paused v_opacity].
    split.
    { destruct (String.eqb (v_src (video p)) (MediaItem.url media)) eqn:E;
        [now apply String.eqb_eq in E|reflexivity]. }
    split; [exact (sync_time _ _)|].
    split; [reflexivity|]. split; [apply follow_spec|reflexivity].
  - intros p' H.
    destruct (syncPool s (audioPool p)) as [pool|]; [|discriminate].
    injection H as <-. repeat split.
Qed.

(** *** The playback clock *)

Lemma clock_rest (a l : Q) : a == a + (l - l) / 1000.
Proof. unfold Qdiv. ring. Qed.

Lemma clock_sum (a l t x : Q) :
  a + (t - l) / 1000 + (x - t) / 1000 == a + (x - l) / 1000.
Proof. unfold Qdiv. ring. Qed.

Lemma last_cons {A} (a : A) (l : list A) (d : A) : last (a :: l) d = last l a.
Proof.
  revert a d. induction l as [|x l IH]; intros a d; [reflexivity|].
  change (last (a :: x :: l) d) with (last (x :: l) d).
  now rewrite (IH x d), (IH x a).
Qed.

Lemma mediaOf_time v s clip :
  mediaOf clip (set_playbackTime v s) = mediaOf clip s.
Proof. reflexivity. Qed.

Lemma syncPool_some s pool :
  allMedia s -> syncPool s pool <> None.
Proof.
  intros A. unfold syncPool. cbv zeta.
  assert (F : Forall (fun c => mediaOf c s <> None)
                (filter (covers (playbackTime s)) (tr_audio (tracks s)))).
  { apply Forall_forall. intros c I. apply filter_In in I.
    unfold allMedia in A. rewrite Forall_forall in A. apply A.
    apply in_or_app. right. tauto. }
  generalize (filter (fun kv : string * AudioEl =>
                        existsb (hasId (fst kv))
                          (filter (covers (playbackTime s)) (tr_audio (tracks s))))
                     pool).
  induction F as [|c r C _ IH]; intros pl; [discriminate|].
  cbn [fold_left].
  assert (E : exists pl', syncOne s (Some pl) c = Some pl').
  { cbn [syncOne]. destruct (lookup (Clip.id c) pl); [eexists; reflexivity|].
    destruct (mediaOf c s); [eexists; reflexivity|contradiction]. }
  destruct E as [pl' ->]. apply IH.
Qed.

Lemma syncVideo_some s p : allMedia s -> syncVideo s p <> None.
Proof.
  intros A. unfold syncVideo.
  assert (M : syncMain s (video p) <> None).
  { unfold syncMain.
    destruct (find (covers (playbackTime s)) (tr_video (tracks s))) as [clip|] eqn:F;
      [|discriminate].
    apply find_some in F. destruct F as [I _].
    unfold allMedia in A. rewrite Forall_forall in A.
    specialize (A clip (in_or_app _ _ _ (or_introl I))).
    destruct (mediaOf clip s); [discriminate|contradiction]. }
  destruct (syncMain s (video p)); [|contradiction].
  pose proof (syncPool_some s (audioPool p) A) as P.
  destruct (syncPool s (audioPool p)); [discriminate|contradiction].
Qed.

Lemma renderLoop_playing ts s p :
  allMedia s -> isPlaying s = true ->
  exists s' p',
    renderLoop ts s p = Some (s', p')
    /\ playbackTime s'
       = playbackTime s
         + (ts - (if Qeq_bool (lastTime p) 0 then ts else lastTime p)) / 1000
    /\ lastTime p' = ts
    /\ isPlaying s' = true /\ tracks s' = tracks s /\ media s' = media s.
Proof.
  intros A P. unfold renderLoop. rewrite P. cbv zeta.
  set (last := if Qeq_bool (lastTime p) 0 then ts else lastTime p).
  set (s1 := set_playbackTime _ s).
  assert (A1 : allMedia s1) by exact A.
  pose proof (syncVideo_some s1 (mk (video p) (audioPool p) last (scroll p)
                                    (offsetWidth p)) A1) as S.
  destruct (syncVideo s1 _) as [p1|]; [|contradiction].
  eexists. eexists. split; [reflexivity|]. repeat split. exact P.
Qed.

Lemma frames_playing ts s p :
  allMedia s -> isPlaying s = true ->
  ~ lastTime p == 0 -> Forall (fun t => ~ t == 0) ts ->
  exists s' p',
    frames ts s p = Some (s', p')
    /\ playbackTime s' == playbackTime s + (last ts (lastTime p) - lastTime p) / 1000
    /\ isPlaying s' = true /\ tracks s' = tracks s /\ media s' = media s.
Proof.
  intros A P L F. revert s p A P L.
  induction F as [|t r T _ IH]; intros s p A P L.
  - exists s, p. split; [reflexivity|]. split; [|auto].
    cbn [last]. apply clock_rest.
  - destruct (renderLoop_playing t s p A P) as [s1 [p1 [R [T1 [L1 [P1 [K1 M1]]]]]]].
    assert (A1 : allMedia s1).
    { unfold allMedia, mediaOf in *. now rewrite K1, M1. }
    assert (N1 : ~ lastTime p1 == 0) by now rewrite L1.
    destruct (IH s1 p1 A1 P1 N1) as [s' [p' [R' [T' [P' [K' M']]]]]].
    exists s', p'. cbn [frames]. rewrite R. split; [exact R'|].
    split; [|split; [exact P'|split; congruence]].
    rewrite T', T1, L1.
    assert (E : Qeq_bool (lastTime p) 0 = false).
    { destruct (Qeq_bool (lastTime p) 0) eqn:E; [|reflexivity].
      apply Qeq_bool_iff in E. contradiction. }
    rewrite E.
    rewrite last_cons. apply clock_sum.
Qed.

(** X21. Playback follows the clock of the animation frames: started
    by [togglePlay()] on a timeline whose clips all have their media
    item, a run of frames with timestamps [t0, ..., tn] raises no
    error and moves the playhead by [(tn - t0) / 1000] seconds, however
    the frames are spaced; the tracks are not touched. *)
Theorem playback_follows_clock (t0 : number) (ts : list number)
    (s : State) (p : ScriptPlayer.t) :
  allMedia s -> isPlaying s = false ->
  Forall (fun t => ~ t == 0) (t0 :: ts) ->
  exists s' p',
    frames (t0 :: ts) (fst (togglePlay s p)) (snd (togglePlay s p)) = Some (s', p')
    /\ playbackTime s' == playbackTime s + (last ts t0 - t0) / 1000
    /\ isPlaying s' = true /\ tracks s' = tracks s.
Proof.
  intros A P F. inversion F as [|x r T0 F' E]. subst x r.
  unfold togglePlay. cbv zeta. rewrite P. cbn [negb set_isPlaying isPlaying fst snd].
  set (s0 := set_isPlaying true s).
  set (p0 := mk _ _ 0 _ _).
  assert (A0 : allMedia s0) by exact A.
  destruct (renderLoop_playing t0 s0 p0 A0 eq_refl)
    as [s1 [p1 [R [T1 [L1 [P1 [K1 M1]]]]]]].
  assert (A1 : allMedia s1).
  { unfold allMedia, mediaOf in *. now rewrite K1, M1. }
  assert (N1 : ~ lastTime p1 == 0) by now rewrite L1.
  destruct (frames_playing ts s1 p1 A1 P1 N1 F') as [s' [p' [R' [T' [P' [K' M']]]]]].
  exists s', p'. cbn [frames]. rewrite R. split; [exact R'|].
  split; [|split; [exact P'|now rewrite K', K1]].
  rewrite T', T1, L1. subst p0. cbn [lastTime].
  change (Qeq_bool 0 0) with true. cbv iota.
  change (playbackTime s0) with (playbackTime s). apply clock_sum.
Qed.

Lemma playback_follows_clock_witness :
  exists s' p',
    frames [1000; 1016; 1033; 1500]
           (fst (togglePlay ScriptSession.movie ScriptSession.engine))
           (snd (togglePlay ScriptSession.movie ScriptSession.engine))
    = Some (s', p')
    /\ playbackTime s' == 0.5.
Proof.
  assert (A : allMedia ScriptSession.movie).
  { repeat constructor; discriminate. }
  assert (F : Forall (fun t => ~ t == 0) [1000; 1016; 1033; 1500]).
  { repeat constructor; discriminate. }
  destruct (playback_follows_clock 1000 [1016; 1033; 1500] ScriptSession.movie
              ScriptSession.engine A eq_refl F) as [s' [p' [R [T _]]]].
  exists s', p'. split; [exact R|]. rewrite T. reflexivity.
Defined.

End ScriptPlayerFacts.

(** ** [script.js] : the speech found is the speech there is *)

Module ScriptDetection.
Import Script ScriptView.

Lemma seconds_lt sr i j : 0 < sr -> (i < j)%nat -> seconds i sr < seconds j sr.
Proof.
  intros Hsr Hij. unfold seconds.
  apply Qmult_lt_compat_r; [apply Qinv_lt_0_compat, Hsr|].
  rewrite <- Zlt_Qlt. lia.
Qed.

Lemma inChunk_true sr i c :
  inChunk sr i c = true
  <-> ch_start c <= seconds i sr /\ seconds i sr < ch_end c.
Proof.
  unfold inChunk. rewrite andb_true_iff, Qle_bool_iff.
  split; intros [A B]; (split; [exact A|]).
  - now apply Qltb_lt.
  - destruct (Qltb (seconds i sr) (ch_end c)) eqn:E; [reflexivity|].
    apply Qltb_ge in E. lra.
Qed.

Lemma inChunk_false sr i c :
  inChunk sr i c = false
  <-> seconds i sr < ch_start c \/ ch_end c <= seconds i sr.
Proof.
  split.
  - intros H. destruct (Qlt_le_dec (seconds i sr) (ch_start c)) as [L|L];
      [now left|right].
    destruct (Qlt_le_dec (seconds i sr) (ch_end c)) as [M|M]; [|exact M].
    assert (T : inChunk sr i c = true) by (apply inChunk_true; now split).
    congruence.
  - intros H. destruct (inChunk sr i c) eqn:E; [|reflexivity].
    apply inChunk_true in E. lra.
Qed.

(** No sample at or after [k] lies in a chunk that ends by [k]. *)
Lemma ended_chunks sr chunks k j :
  0 < sr ->
  Forall (fun c => ch_end c <= seconds k sr) chunks -> (k <= j)%nat ->
  existsb (inChunk sr j) chunks = false.
Proof.
  intros Hsr F L. induction F as [|c r C _ IH]; [reflexivity|].
  cbn [existsb]. rewrite IH, orb_false_r. apply inChunk_false. right.
  pose proof (ScriptSilence.seconds_mono sr k j Hsr L). lra.
Qed.

Lemma scanStep_exactSoFar channels sr st i :
  0 < sr -> exactSoFar channels sr i st ->
  exactSoFar channels sr (S i) (scanStep channels sr st i).
Proof.
  intros Hsr [L [F [A B]]]. unfold scanStep. cbv zeta.
  destruct (Qgtb (amplitudeAt channels i) 0.005) eqn:G.
  - destruct (sc_isSilent st) eqn:Si.
    + split; [cbn; lia|]. cbn [sc_lastChangeIndex sc_chunks sc_isSilent].
      split; [|split].
      * eapply Forall_impl; [|exact F]. intros c C. cbv beta in C.
        pose proof (ScriptSilence.seconds_mono sr _ _ Hsr L). lra.
      * intros j J.
        destruct (Nat.lt_ge_cases j (sc_lastChangeIndex st)) as [X|X];
          [now apply A|].
        rewrite (ended_chunks sr _ _ j Hsr F X).
        symmetry. apply B. lia.
      * intros j J. assert (j = i) by lia. subst j. exact G.
    + split; [lia|]. split; [exact F|]. split; [exact A|].
      intros j J. destruct (Nat.eq_dec j i) as [->|N]; [now rewrite Si|].
      rewrite Si. apply B. lia.
  - destruct (sc_isSilent st) eqn:Si; cbn [negb].
    + split; [lia|]. split; [exact F|]. split; [exact A|].
      intros j J. destruct (Nat.eq_dec j i) as [->|N]; [now rewrite Si|].
      rewrite Si. apply B. lia.
    + split; [cbn; lia|]. cbn [sc_lastChangeIndex sc_chunks sc_isSilent].
      split; [|split].
      * unfold push. apply Forall_app. split.
        -- eapply Forall_impl; [|exact F]. intros c C. cbv beta in C.
           pose proof (ScriptSilence.seconds_mono sr _ _ Hsr L). lra.
        -- constructor; [apply Qle_refl|constructor].
      * intros j J. unfold push. rewrite existsb_app. cbn [existsb].
        rewrite orb_false_r.
        destruct (Nat.lt_ge_cases j (sc_lastChangeIndex st)) as [X|X].
        -- rewrite (A j X).
           assert (N : inChunk sr j (mkChunk (seconds (sc_lastChangeIndex st) sr)
                                             (seconds i sr)) = false).
           { apply inChunk_false. left. now apply seconds_lt. }
           rewrite N. apply orb_false_r.
        -- rewrite (ended_chunks sr _ _ j Hsr F X). cbn [orb].
           rewrite (B j (conj X J)).
           apply inChunk_true. cbn [ch_start ch_end]. split.
           ++ now apply ScriptSilence.seconds_mono.
           ++ now apply seconds_lt.
      * intros j J. assert (j = i) by lia. subst j. exact G.
Qed.

Lemma scan_exactSoFar channels sr n a st :
  0 < sr -> exactSoFar channels sr a st ->
  exactSoFar channels sr (a + n) (fold_left (scanStep channels sr) (seq a n) st).
Proof.
  intros Hsr. revert a st. induction n as [|n IH]; intros a st H.
  - now rewrite Nat.add_0_r.
  - cbn [seq fold_left]. rewrite <- Nat.add_succ_comm.
    apply IH. now apply scanStep_exactSoFar.
Qed.

(** X22. The chunks of speech that the detection loop of
    [removeSilence] finds are exact: at a positive sample rate, a
    sample of the buffer lies in one of the chunks if and only if its
    amplitude, the largest over the channels, is above the threshold
    0.005.  Every loud sample is kept and no quiet one. *)
Theorem detectChunks_exact (channels : list (list number)) (sr : number)
    (n i : nat) :
  0 < sr -> (i < n)%nat ->
  existsb (inChunk sr i) (detectChunks channels sr n)
  = Qgtb (amplitudeAt channels i) 0.005.
Proof.
  intros Hsr Hi. unfold detectChunks. cbv zeta.
  set (st := fold_left _ _ _).
  assert (H : exactSoFar channels sr (0 + n) st).
  { apply scan_exactSoFar; [exact Hsr|].
    split; [cbn; lia|]. split; [constructor|].
    split; intros j J; cbn in J; lia. }
  destruct H as [L [F [A B]]]. cbn [Nat.add] in L, B.
  destruct (Nat.lt_ge_cases i (sc_lastChangeIndex st)) as [X|X].
  - destruct (sc_isSilent st); cbn [negb]; [now apply A|].
    unfold push. rewrite existsb_app. cbn [existsb]. rewrite orb_false_r.
    rewrite (A i X).
    assert (N : inChunk sr i (mkChunk (seconds (sc_lastChangeIndex st) sr)
                                      (seconds n sr)) = false).
    { apply inChunk_false. left. now apply seconds_lt. }
    rewrite N. apply orb_false_r.
  - rewrite (B i (conj X Hi)).
    destruct (sc_isSilent st); cbn [negb].
    + now apply (ended_chunks sr _ (sc_lastChangeIndex st)).
    + unfold push. rewrite existsb_app. cbn [existsb]. rewrite orb_false_r.
      rewrite (ended_chunks sr _ _ i Hsr F X). cbn [orb].
      apply inChunk_true. cbn [ch_start ch_end]. split.
      * now apply ScriptSilence.seconds_mono.
      * now apply seconds_lt.
Qed.

Lemma detectChunks_exact_witness :
  existsb (inChunk 8000 799) (detectChunks Sample.talkChannels 8000 3200) = true
  /\ existsb (inChunk 8000 800) (detectChunks Sample.talkChannels 8000 3200)
     = false.
Proof.
  assert (R : 0 < 8000) by reflexivity.
  split.
  - rewrite (detectChunks_exact Sample.talkChannels 8000 3200 799 R);
      [reflexivity|lia].
  - rewrite (detectChunks_exact Sample.talkChannels 8000 3200 800 R);
      [reflexivity|lia].
Defined.

End ScriptDetection.

(** ** [script.js] : the editing commands *)

Module ScriptCommands.
Import Script.

(** A command is [saveState()] followed by a change that leaves the
    history alone: one [undo] brings back what was saved. *)
Lemma script_command_undone s s' :
  0 <= playbackTime s ->
  historyStack s' = historyStack (saveState s) ->
  snapshot (undo s') = snapshot s.
Proof.
  intros T H.
  apply SilenceUndo.script_undo_top; [|exact T].
  rewrite H, ScriptFacts.script_saveState_unfold. cbn [historyStack set_stacks].
  apply pushCapped_top.
Qed.

(** X23. In [script.js] one undo takes back a command: after a clip is
    added, after the selected clip is deleted and after a split that
    changed the tracks, [undo] restores the tracks, the selection, the
    playback time and the zoom as they were before the command. *)
Theorem script_undo_reverts (newId : string) (m : MediaItem.t) (t : number)
    (s : State) :
  0 <= playbackTime s ->
  snapshot (undo (addClipToTimeline newId m t s)) = snapshot s
  /\ (falsyId (selectedClipId s) = false ->
      snapshot (undo (toolDelete s)) = snapshot s)
  /\ (tracks (toolSplit newId s) <> tracks s ->
      snapshot (undo (toolSplit newId s)) = snapshot s).
Proof.
  intros T. split; [|split].
  - apply script_command_undone; [exact T|reflexivity].
  - intros F. apply script_command_undone; [exact T|].
    unfold toolDelete. rewrite F.
    destruct (selectedClipId s); [reflexivity|discriminate].
  - intros N. apply script_command_undone; [exact T|].
    unfold toolSplit in *.
    destruct (falsyId (selectedClipId s)); [contradiction|].
    destruct (selectedClipId s) as [sel|]; [|contradiction].
    destruct (locate sel (tracks s)) as [[ty clip]|]; [|contradiction].
    destruct (Qgtb _ 0 && Qltb _ _); [reflexivity|contradiction].
Qed.

Lemma script_undo_reverts_witness :
  let s := Sample.talkTimeline in
  snapshot (undo (addClipToTimeline "clip_n" Sample.talk 3 s)) = snapshot s
  /\ snapshot (undo (toolDelete s)) = snapshot s
  /\ tracks (toolDelete s) = mkTracks [] [].
Proof.
  intros s.
  assert (T : 0 <= playbackTime s) by (vm_compute; discriminate).
  destruct (script_undo_reverts "clip_n" Sample.talk 3 s T) as [A [D _]].
  split; [exact A|]. split; [apply D; reflexivity|reflexivity].
Defined.



Lemma locate_filter i j t :
  locate j (mkTracks (filter (lacksId i) (tr_video t))
                     (filter (lacksId i) (tr_audio t)))
  = if String.eqb j i then None else locate j t.
Proof.
  unfold locate. cbn [tr_video tr_audio].
  rewrite !StateServiceCommands.find_filter_lacksId.
  now destruct (String.eqb j i).
Qed.

(** X25. Deleting in [script.js]: with a clip selected, [tool-delete]
    leaves no clip of that id in either track, every other id is found
    as before, and nothing is selected afterwards.  With nothing
    selected it does nothing. *)
Theorem script_delete_lookup (s : State) (sel : string) :
  selectedClipId s = Some sel -> sel <> EmptyString ->
  locate sel (tracks (toolDelete s)) = None
  /\ (forall j, j <> sel ->
        locate j (tracks (toolDelete s)) = locate j (tracks s))
  /\ selectedClipId (toolDelete s) = None
  /\ toolDelete (toolDelete s) = toolDelete s.
Proof.
  intros Hsel N.
  assert (E : toolDelete s
              = set_selectedClipId None
                  (set_tracks
                     (mkTracks (filter (lacksId sel) (tr_video (tracks s)))
                               (filter (lacksId sel) (tr_audio (tracks s))))
                     (saveState s))).
  { unfold toolDelete. rewrite Hsel. cbn [falsyId].
    apply String.eqb_neq in N. now rewrite N. }
  rewrite E. cbn [tracks set_selectedClipId set_tracks selectedClipId].
  split; [|split; [|split; [reflexivity|]]].
  - rewrite locate_filter. now rewrite String.eqb_refl.
  - intros j J. rewrite locate_filter. apply String.eqb_neq in J. now rewrite J.
  - reflexivity.
Qed.

Lemma script_delete_lookup_witness :
  let s := Sample.talkTimeline in
  locate "clip_t" (tracks s) = Some (audio, Sample.talkClip)
  /\ locate "clip_t" (tracks (toolDelete s)) = None
  /\ selectedClipId (toolDelete s) = None.
Proof.
  intros s.
  assert (Hsel : selectedClipId s = Some "clip_t"%string) by reflexivity.
  assert (N : "clip_t"%string <> EmptyString) by discriminate.
  destruct (script_delete_lookup s "clip_t" Hsel N) as [A [_ [B _]]].
  split; [reflexivity|]. split; [exact A|exact B].
Defined.

End ScriptCommands.

(** ** [part_003] : dragging, and the audio of a clip *)

Module Part003ToolsFacts.
Import Part003 Part003Tools.

(** What [find] sees of a track after an assignment to a field other
    than the id of its first clip of the id [i]. *)
Lemma find_mutateFirst i j f (t : list Clip.t) :
  (forall c, Clip.id (f c) = Clip.id c) ->
  find (hasId j) (Script.mutateFirst i f t)
  = if String.eqb j i then option_map f (find (hasId i) t)
    else find (hasId j) t.
Proof.
  intros Hf. destruct (find (hasId i) t) as [c|] eqn:F.
  - destruct (find_decompose _ _ _ F) as [l1 [l2 [-> [Hc Hn]]]].
    rewrite (ScriptFacts.mutateFirst_mid i f l1 c l2 Hn Hc).
    rewrite (StateServiceCommands.find_replace_same_id j l1 l2 c (f c) (Hf c)).
    destruct (String.eqb j i) eqn:E.
    + apply String.eqb_eq in E. subst j. rewrite F, Hn, Hc. reflexivity.
    + destruct (find (hasId j) (l1 ++ c :: l2)) as [x|] eqn:Fj; [|reflexivity].
      destruct (existsb (hasId j) l1); [reflexivity|].
      destruct (hasId j c) eqn:Hj; [|reflexivity].
      apply hasId_eq in Hc. apply hasId_eq in Hj. apply String.eqb_neq in E.
      congruence.
  - apply find_none_existsb in F. unfold Script.mutateFirst.
    rewrite (findIndex_none _ _ F).
    destruct (String.eqb j i) eqn:E; [|reflexivity].
    apply String.eqb_eq in E. subst j. now apply find_none_existsb.
Qed.

Lemma findInLanes_mutate i j f (L : list (list Clip.t)) :
  (forall c, Clip.id (f c) = Clip.id c) ->
  findInLanes j (mutateInLanes i f L)
  = if String.eqb j i then option_map f (findInLanes i L)
    else findInLanes j L.
Proof.
  intros Hf. induction L as [|t L IH]; cbn [mutateInLanes findInLanes].
  - now destruct (String.eqb j i).
  - destruct (find (hasId i) t) as [c|] eqn:F; cbn [findInLanes].
    + rewrite (find_mutateFirst i j f t Hf), F.
      destruct (String.eqb j i); reflexivity.
    + rewrite IH. destruct (String.eqb j i) eqn:E; [|reflexivity].
      apply String.eqb_eq in E. subst j. now rewrite F.
Qed.

Lemma findClip_mutateClip i j f (t : Tracks) :
  (forall c, Clip.id (f c) = Clip.id c) ->
  findClip j (mutateClip i f t)
  = if String.eqb j i then option_map f (findClip i t) else findClip j t.
Proof.
  intros Hf. unfold mutateClip, findClip.
  destruct (find (hasId i) (tr_video t)) as [c|] eqn:F; cbn [tr_video tr_audio].
  - rewrite (find_mutateFirst i j f _ Hf), F.
    destruct (String.eqb j i); reflexivity.
  - rewrite (findInLanes_mutate i j f _ Hf).
    destruct (String.eqb j i) eqn:E; [|reflexivity].
    apply String.eqb_eq in E. subst j. now rewrite F.
Qed.

(** Lookups in two timelines with the same serialized value. *)
Lemma Clip_eqb_id a b : Clip.eqb a b = true -> Clip.id a = Clip.id b.
Proof.
  unfold Clip.eqb. rewrite !andb_true_iff.
  intros [[[[[[[[[H _] _] _] _] _] _] _] _] _]. now apply String.eqb_eq.
Qed.

Lemma find_eqb i (l l' : list Clip.t) :
  list_eqb Clip.eqb l l' = true ->
  option_eqb Clip.eqb (find (hasId i) l) (find (hasId i) l') = true.
Proof.
  revert l'. induction l as [|a l IH]; intros [|b l'] H; try discriminate;
    [reflexivity|].
  cbn [list_eqb] in H. apply andb_true_iff in H. destruct H as [Hab H].
  cbn [find]. unfold hasId. rewrite (Clip_eqb_id a b Hab).
  destruct (String.eqb (Clip.id b) i); [exact Hab|now apply IH].
Qed.

Lemma findInLanes_eqb i (L L' : list (list Clip.t)) :
  list_eqb (list_eqb Clip.eqb) L L' = true ->
  option_eqb Clip.eqb (findInLanes i L) (findInLanes i L') = true.
Proof.
  revert L'. induction L as [|t L IH]; intros [|t' L'] H; try discriminate;
    [reflexivity|].
  cbn [list_eqb] in H. apply andb_true_iff in H. destruct H as [Ht H].
  cbn [findInLanes]. pose proof (find_eqb i t t' Ht) as Hf.
  destruct (find (hasId i) t), (find (hasId i) t'); try discriminate;
    [exact Hf|now apply IH].
Qed.

Lemma findClip_eqb i (a b : Tracks) :
  Tracks_eqb a b = true ->
  option_eqb Clip.eqb (findClip i a) (findClip i b) = true.
Proof.
  unfold Tracks_eqb. rewrite andb_true_iff. intros [V A]. unfold findClip.
  pose proof (find_eqb i _ _ V) as Hf.
  destruct (find (hasId i) (tr_video a)), (find (hasId i) (tr_video b));
    try discriminate; [exact Hf|now apply findInLanes_eqb].
Qed.

(** A pointer move during a drag of a clip that is there. *)
Lemma handleMouseMove_dragging x d s i c :
  isDragging d = true -> dragClipId d = Some i -> i <> EmptyString ->
  findClip i (tracks s) = Some c ->
  handleMouseMove x d s
  = (d, set_tracks
          (mutateClip i
             (Clip.with_startTime
                (Math_max 0 (dragOriginalStart d + (x - dragStartX d) / zoom s)))
             (tracks s))
          s).
Proof.
  intros D I N F. unfold handleMouseMove. rewrite D, I. cbn [negb orb falsyId].
  apply String.eqb_neq in N. now rewrite N, F.
Qed.

Lemma held_move i c s s' t :
  held i c s s' ->
  held i c s (set_tracks (mutateClip i (Clip.with_startTime t) (tracks s')) s')
  /\ findClip i (mutateClip i (Clip.with_startTime t) (tracks s'))
     = Some (Clip.with_startTime t c).
Proof.
  intros [[t0 F] [O [Z [S [P [H R]]]]]].
  assert (Fi : findClip i (mutateClip i (Clip.with_startTime t) (tracks s'))
               = Some (Clip.with_startTime t c)).
  { rewrite findClip_mutateClip by reflexivity.
    now rewrite String.eqb_refl, F. }
  split; [|exact Fi].
  split; [exists t; exact Fi|].
  split.
  { intros j Hj. cbn [tracks set_tracks].
    rewrite findClip_mutateClip by reflexivity.
    apply String.eqb_neq in Hj as E. rewrite E. now apply O. }
  repeat split; assumption.
Qed.

Lemma moves_held i c d s xs :
  isDragging d = true -> dragClipId d = Some i -> i <> EmptyString ->
  forall s', held i c s s' ->
  let r := fold_left (fun ds x => handleMouseMove x (fst ds) (snd ds)) xs (d, s') in
  fst r = d /\ held i c s (snd r).
Proof.
  intros D I N. induction xs as [|x xs IH]; intros s' G; cbn [fold_left fst snd].
  - auto.
  - destruct G as [[t0 F] G'].
    rewrite (handleMouseMove_dragging x d s' i _ D I N F). cbn [fst snd].
    apply IH. apply held_move. split; [exists t0; exact F|exact G'].
Qed.

(** A command is [saveState()] followed by a change that leaves the
    history alone: one undo restores the state that was saved, as a
    serialized value. *)
Lemma p3_command_undone s s' :
  0 <= playbackTime s ->
  historyStack s' = historyStack (saveState s) ->
  Snapshot_eqb (snapshot (undo s')) (snapshot s) = true.
Proof.
  intros T Hh. destruct (Part003Facts.saveState_top s) as [x [h [P E]]].
  assert (Tx : top (historyStack s') = Some x).
  { rewrite Hh. unfold pop in P.
    destruct (top (historyStack (saveState s))); [|discriminate].
    now injection P as -> _. }
  assert (Px : 0 <= snap_playbackTime x).
  { unfold Snapshot_eqb in E. rewrite !andb_true_iff in E.
    destruct E as [[[_ _] Q] _]. apply Qeq_bool_iff in Q.
    cbn [snapshot snap_playbackTime] in Q. now rewrite Q. }
  now rewrite (SilenceUndo.p3_undo_top _ x Tx Px).
Qed.

Lemma undo_after_save s :
  0 <= playbackTime s ->
  Snapshot_eqb (snapshot (undo (saveState s))) (snapshot s) = true.
Proof. intros T. now apply p3_command_undone. Qed.

(** X26. A drag in [part_003] (button down on a clip, any moves of the
    pointer, button up) leaves the clip at
    [max(0, original + (x - x0) / zoom)] for the last pointer position
    [x], whatever the moves before it were, and touches no other clip.
    The state is saved when the button is released, after the move: an
    undo directly after the drag leaves the clip where it was
    dropped. *)
Theorem drag_then_undo (i : string) (x0 x : number) (xs : list number)
    (d : Drag) (s : State) (c : Clip.t) :
  findClip i (tracks s) = Some c -> i <> EmptyString ->
  0 <= playbackTime s ->
  let t := Math_max 0 (Clip.startTime c + (x - x0) / zoom s) in
  let r := drag i x0 (xs ++ [x]) d s in
  findClip i (tracks (snd r)) = Some (Clip.with_startTime t c)
  /\ (forall j, j <> i -> findClip j (tracks (snd r)) = findClip j (tracks s))
  /\ selectedClipId (snd r) = Some i
  /\ isDragging (fst r) = false
  /\ Snapshot_eqb (snapshot (undo (snd r))) (snapshot (snd r)) = true
  /\ exists c', findClip i (tracks (undo (snd r))) = Some c'
                /\ Clip.startTime c' == t.
Proof.
  intros F N T t r. subst r. unfold drag, handleMouseDown. rewrite F.
  set (d1 := mkDrag true (Some i) x0 (Clip.startTime c)).
  set (s1 := set_selectedClipId (Some i) s).
  assert (G : held i c s1 s1).
  { split; [exists (Clip.startTime c); cbn; rewrite F; destruct c; reflexivity|].
    repeat split; reflexivity. }
  rewrite fold_left_app.
  destruct (moves_held i c d1 s1 xs eq_refl eq_refl N s1 G) as [E1 G2].
  destruct (fold_left _ xs (d1, s1)) as [d2 s2]. cbn [fst snd] in E1, G2. subst d2.
  cbn [fold_left fst snd].
  destruct G2 as [[t0 F2] G2'].
  rewrite (handleMouseMove_dragging x d1 s2 i _ eq_refl eq_refl N F2).
  unfold handleMouseUp. cbn [isDragging d1 fst snd].
  assert (Zs : zoom s2 = zoom s) by (destruct G2' as [_ [Zs _]]; exact Zs).
  rewrite Zs. cbn [dragOriginalStart dragStartX d1]. fold t.
  destruct (held_move i c s1 s2 t (conj (ex_intro _ t0 F2) G2')) as [G3 F3].
  set (s3 := set_tracks (mutateClip i (Clip.with_startTime t) (tracks s2)) s2) in *.
  destruct G3 as [_ [O3 [Z3 [S3 [P3 _]]]]].
  destruct (Part003Facts.p3_saveState_visible s3) as [Tv [Sv [Pv _]]].
  assert (U : Snapshot_eqb (snapshot (undo (saveState s3))) (snapshot (saveState s3))
              = true).
  { replace (snapshot (saveState s3)) with (snapshot s3)
      by (unfold snapshot; now rewrite Tv, Sv, Pv,
            (proj1 (proj2 (proj2 (proj2 (Part003Facts.p3_saveState_visible s3)))))).
    apply undo_after_save. now rewrite P3. }
  split; [rewrite Tv; exact F3|].
  split; [intros j Hj; rewrite Tv; apply (O3 j Hj)|].
  split; [now rewrite Sv, S3|]. split; [reflexivity|].
  split; [exact U|].
  unfold Snapshot_eqb in U. rewrite !andb_true_iff in U.
  destruct U as [[[U _] _] _]. cbn [snapshot snap_tracks] in U.
  pose proof (findClip_eqb i _ _ U) as Q.
  assert (F3' : findClip i (tracks s3) = Some (Clip.with_startTime t c))
    by exact F3.
  rewrite ?Tv, F3' in Q.
  destruct (findClip i (tracks (undo (saveState s3)))) as [c'|]; [|discriminate].
  exists c'. split; [reflexivity|].
  cbn [option_eqb] in Q. unfold Clip.eqb in Q. rewrite !andb_true_iff in Q.
  destruct Q as [[[[[[[[[_ _] Q] _] _] _] _] _] _] _].
  now apply Qeq_bool_iff in Q.
Qed.

Lemma drag_then_undo_witness :
  let s := Sample.cutTimeline in
  let r := drag "clip_c" 100 [130; 90; 160] noDrag s in
  option_map Clip.startTime (findClip "clip_c" (tracks (snd r))) = Some (Math_max 0 (2 + (160 - 100) / 20))
  /\ Snapshot_eqb (snapshot (undo (snd r))) (snapshot (snd r)) = true.
Proof.
  intros s r.
  assert (F : findClip "clip_c" (tracks s) = Some Sample.cutClip) by reflexivity.
  assert (N : "clip_c"%string <> EmptyString) by discriminate.
  assert (T : 0 <= playbackTime s) by (vm_compute; discriminate).
  destruct (drag_then_undo "clip_c" 100 160 [130; 90] noDrag s Sample.cutClip F N T)
    as [A [_ [_ [_ [U _]]]]].
  split; [|exact U].
  exact (f_equal (option_map Clip.startTime) A).
Defined.

(** X27. [extractAudio()] of [part_003]: with a clip of the video
    track selected, a copy of it under the new id, of type audio and
    not muted, with the start time, the duration, the offset and the
    media of the clip, is appended to the first audio lane, whatever
    that lane holds at that time; the clip itself is muted in place,
    and one undo takes both changes back.  Without an audio lane the
    call throws. *)
Theorem extractAudio_copy (newId : string) (s : State) (sel : string)
    (clip : Clip.t) :
  selectedClipId s = Some sel -> sel <> EmptyString ->
  find (hasId sel) (tr_video (tracks s)) = Some clip ->
  0 <= playbackTime s ->
  match tr_audio (tracks s) with
  | [] => extractAudio newId s = None
  | lane0 :: rest =>
      exists s' l1 l2,
        extractAudio newId s = Some s'
        /\ tr_video (tracks s) = l1 ++ clip :: l2
        /\ tr_video (tracks s') = l1 ++ mute clip :: l2
        /\ tr_audio (tracks s')
           = (lane0 ++ [Clip.mk newId (Clip.mediaId clip) (Clip.startTime clip)
                                (Clip.duration clip) (Clip.offset clip) audio
                                false (Clip.volume clip) (Clip.isSilence clip)
                                (Clip.stabilized clip)]) :: rest
        /\ Snapshot_eqb (snapshot (undo s')) (snapshot s) = true
  end.
Proof.
  intros Hsel N F T. unfold extractAudio. rewrite Hsel. cbn [falsyId].
  apply String.eqb_neq in N. rewrite N, F.
  destruct (Part003Facts.p3_saveState_visible s) as [Tv _]. rewrite Tv.
  destruct (tr_audio (tracks s)) as [|lane0 rest]; [reflexivity|].
  destruct (find_decompose _ _ _ F) as [l1 [l2 [E [Hc Hn]]]].
  eexists. exists l1, l2. split; [reflexivity|]. split; [exact E|].
  cbn [tracks set_tracks tr_video tr_audio].
  split; [rewrite E; now apply ScriptFacts.mutateFirst_mid|].
  split; [reflexivity|].
  apply p3_command_undone; [exact T|reflexivity].
Qed.

Lemma extractAudio_copy_witness :
  exists s',
    extractAudio "audio_1" Sample.cutTimeline = Some s'
    /\ map Clip.muted (tr_video (tracks s')) = [true]
    /\ map (map Clip.id) (tr_audio (tracks s')) = [["audio_1"%string]; []]
    /\ Snapshot_eqb (snapshot (undo s')) (snapshot Sample.cutTimeline) = true.
Proof.
  assert (Hsel : selectedClipId Sample.cutTimeline = Some "clip_c"%string)
    by reflexivity.
  assert (N : "clip_c"%string <> EmptyString) by discriminate.
  assert (F : find (hasId "clip_c") (tr_video (tracks Sample.cutTimeline))
              = Some Sample.cutClip) by reflexivity.
  assert (T : 0 <= playbackTime Sample.cutTimeline) by (vm_compute; discriminate).
  pose proof (extractAudio_copy "audio_1" Sample.cutTimeline "clip_c"
                Sample.cutClip Hsel N F T) as H.
  assert (A0 : tr_audio (tracks Sample.cutTimeline) = [[]; []]) by reflexivity.
  rewrite A0 in H.
  destruct H as [s' [l1 [l2 [E [V0 [V [A U]]]]]]].
  exists s'. split; [exact E|].
  destruct l1 as [|y l1]; [|destruct l1; discriminate].
  split; [rewrite V; injection V0 as <-; reflexivity|].
  split; [rewrite A; reflexivity|exact U].
Defined.

(** *** The ranges of silence and of speech *)

Lemma tiles_push a b c ty rs :
  tiles a b rs -> (b <= c)%Z -> tiles a c (push rs (mkRange b c ty)).
Proof.
  revert a. induction rs as [|r rs IH]; intros a H L; cbn [tiles push app] in *.
  - subst b. cbn. auto.
  - destruct H as [H1 [H2 H3]]. split; [exact H1|]. split; [exact H2|].
    now apply IH.
Qed.

Lemma tiles_le a b rs : tiles a b rs -> (a <= b)%Z.
Proof.
  revert a. induction rs as [|r rs IH]; intros a H; cbn [tiles] in H.
  - subst b. apply Z.le_refl.
  - destruct H as [_ [H2 H3]]. specialize (IH _ H3). lia.
Qed.

Lemma alternating_push f rs r :
  alternating f rs -> isSpeechRange r = xorb f (Nat.odd (length rs)) ->
  alternating f (push rs r).
Proof.
  revert f. induction rs as [|x rs IH]; intros f H E; cbn [alternating push app] in *.
  - split; [|exact I]. rewrite E. now destruct f.
  - destruct H as [H1 H2]. split; [exact H1|]. apply IH; [exact H2|].
    rewrite E. cbn [length]. rewrite Nat.odd_succ, <- Nat.negb_odd.
    destruct f, (Nat.odd (length rs)); reflexivity.
Qed.

Lemma scanStep_turns data sr th startS endS st i :
  turns startS st -> (sc_rangeStart st <= i)%Z ->
  turns startS (scanStep data sr th endS st i)
  /\ (sc_rangeStart (scanStep data sr th endS st i) <= i)%Z.
Proof.
  intros [Ht [Ha Hs]] Hi.
  assert (Push : turns startS
                   (mkScan (push (sc_ranges st)
                              (mkRange (sc_rangeStart st) i
                                 (if sc_isSpeech st then speech else silence)))
                           (negb (sc_isSpeech st)) i)).
  { split; [|split]; cbn [sc_ranges sc_rangeStart sc_isSpeech].
    - now apply tiles_push.
    - apply alternating_push; [exact Ha|]. rewrite <- Hs.
      now destruct (sc_isSpeech st).
    - unfold push. rewrite length_app, Nat.add_1_r, Nat.odd_succ, <- Nat.negb_odd.
      now rewrite Hs. }
  unfold scanStep.
  destruct (gtNum (sampleAbs data i) th && negb (sc_isSpeech st)) eqn:G.
  - apply andb_true_iff in G. destruct G as [_ G]. apply negb_true_iff in G.
    rewrite G in Push. split; [exact Push|cbn; lia].
  - destruct (leNum (sampleAbs data i) th && sc_isSpeech st) eqn:L.
    + apply andb_true_iff in L. destruct L as [_ L]. rewrite L in Push.
      destruct (futureSpeech data sr th endS i).
      * split; [split; [exact Ht|split; [exact Ha|exact Hs]]|exact Hi].
      * split; [exact Push|cbn; lia].
    + split; [split; [exact Ht|split; [exact Ha|exact Hs]]|exact Hi].
Qed.

Lemma scan_turns data sr th startS endS n a st :
  turns startS st ->
  (sc_rangeStart st <= startS + 100 * Z.of_nat a)%Z ->
  let st' := fold_left (scanStep data sr th endS)
               (map (fun k => (startS + 100 * Z.of_nat k)%Z) (seq a n)) st in
  turns startS st'
  /\ (n = 0%nat \/ sc_rangeStart st' <= startS + 100 * Z.of_nat (a + n - 1))%Z.
Proof.
  revert a st. induction n as [|n IH]; intros a st H R; cbn [fold_left map seq].
  - split; [exact H|now left].
  - destruct (scanStep_turns data sr th startS endS st _ H R) as [H1 R1].
    destruct (IH (S a) _ H1 ltac:(lia)) as [H2 R2].
    split; [exact H2|]. right. destruct R2 as [->|R2].
    + cbn [fold_left map seq]. replace (a + 1 - 1)%nat with a by lia. exact R1.
    + replace (a + S n - 1)%nat with (S a + n - 1)%nat by lia. exact R2.
Qed.

(** X28. The classification loop of [removeSilenceTool] cuts the
    samples of the clip into ranges that follow one another without a
    gap or an overlap, from [startSample] to [endSample], silence and
    speech in turn, the first of them silence. *)
Theorem detectRanges_tiles (data : list number) (sr th : number)
    (startS endS : Z) :
  (startS <= endS)%Z ->
  tiles startS endS (detectRanges data sr th startS endS)
  /\ alternating false (detectRanges data sr th startS endS).
Proof.
  intros Hle. unfold detectRanges, scanIndices.
  set (n := Z.to_nat ((endS - startS + 99) / 100)).
  assert (I0 : turns startS (mkScan [] false startS)).
  { split; [reflexivity|]. split; [exact I|reflexivity]. }
  destruct (scan_turns data sr th startS endS n 0 _ I0 ltac:(cbn; lia))
    as [[Ht [Ha Hs]] R].
  set (st := fold_left _ _ _) in *.
  assert (E : (sc_rangeStart st <= endS)%Z).
  { destruct R as [R|R].
    - subst st. rewrite R. cbn. exact Hle.
    - destruct n as [|k] eqn:En; [cbn in R; cbn; subst st; cbn; exact Hle|].
      assert (B : (startS + 100 * Z.of_nat k < endS)%Z).
      { apply Part003Silence.scanIndices_below. fold n. lia. }
      replace (0 + S k - 1)%nat with k in R by lia. lia. }
  split.
  - now apply tiles_push.
  - apply alternating_push; [exact Ha|]. rewrite <- Hs.
    now destruct (sc_isSpeech st).
Qed.

Lemma detectRanges_tiles_witness :
  let rs := detectRanges (repeat 0 200 ++ repeat 1 4000 ++ repeat 0 4000)
                         8000 0.02 0 8200 in
  map (fun r => (r_start r, r_end r, isSpeechRange r)) rs
  = [(0, 200, false); (200, 4200, true); (4200, 8200, false)]%Z
  /\ tiles 0 8200 rs.
Proof.
  intros rs.
  assert (L : (0 <= 8200)%Z) by lia.
  destruct (detectRanges_tiles (repeat 0 200 ++ repeat 1 4000 ++ repeat 0 4000)
              8000 0.02 0 8200 L) as [T _].
  split; [vm_compute; reflexivity|exact T].
Defined.

End Part003ToolsFacts.

(** ** [script.js] : the history and the thumbnail cache *)

Module ScriptHistory.
Import Script.

(** X29. The history of [script.js]: whatever is saved, undone, redone
    and edited from the start, the undo stack never holds more than 50
    entries and a save empties the redo stack; and where there is
    something to undo, at a playback time that is not negative, a redo
    after an undo brings back the tracks, the selection, the playback
    time and the zoom, and the redo stack is as before. *)
Theorem script_history (ops : list Op) :
  let s := run ops initial in
  (length (historyStack s) <= 50)%nat
  /\ redoStack (saveState s) = []
  /\ (historyStack s <> [] -> 0 <= playbackTime s ->
      snapshot (redo (undo s)) = snapshot s
      /\ redoStack (redo (undo s)) = redoStack s).
Proof.
  intros s. destruct (ScriptFacts.script_history_capped ops) as [A B].
  split; [exact A|]. split; [exact B|].
  intros H T. now apply ScriptFacts.script_undo_then_redo.
Qed.

Lemma script_history_witness :
  let s := run [OpCommand (fun x => mkSnapshot (snap_tracks x) None 3 40); OpSave]
               initial in
  length (historyStack s) = 2%nat
  /\ snapshot (redo (undo s)) = snapshot s.
Proof.
  intros s.
  destruct (script_history
              [OpCommand (fun x => mkSnapshot (snap_tracks x) None 3 40); OpSave])
    as [_ [_ R]].
  split; [reflexivity|].
  apply R; [discriminate|vm_compute; discriminate].
Defined.

(** X30. A thumbnail that is in the cache is not captured again: from
    any state of the pipeline in which a cache key holds a frame and no
    task for that key waits in the queue, and whatever is requested or
    reported afterwards, every [seeked] event delivering a frame, the
    key stays cached, no task for it is queued, the captures made for
    it stay what they were, and a request for it is answered from the
    cache and changes nothing. *)
Theorem cached_thumbnail_reused (k : CacheKey) (t : Thumbs)
    (es : list ThumbEvent) (m u : string) (time : number) :
  cached k (thumbnailCache t) = true ->
  Forall (otherKey k) (thumbQueue t) ->
  Forall framed es ->
  cacheKeyOf m time = k ->
  let th := thumbRun es t in
  cached k (thumbnailCache th) = true
  /\ Forall (otherKey k) (thumbQueue th)
  /\ capturesOf k th = capturesOf k t
  /\ requestThumbnail m u time th = th.
Proof.
  intros Hc Hq Hes Hk th.
  assert (S0 : settled k (capturesOf k t) t).
  { split; [exact Hc|]. split; [exact Hq|reflexivity]. }
  destruct (ScriptThumbs.run_settled k _ es t Hes S0) as [Hc' [Hq' Hcs]].
  fold th in Hc', Hq', Hcs.
  split; [exact Hc'|]. split; [exact Hq'|]. split; [exact Hcs|].
  apply ScriptThumbs.request_served. rewrite Hk. exact Hc'.
Qed.

Lemma cached_thumbnail_reused_witness :
  let t := thumbRun [ Request "m_film" "blob:film" 0;
                      Request "m_film" "blob:film" 0.05;
                      Seeked "data:image/png;base64,AAAA"; Timer;
                      Seeked "data:image/png;base64,BBBB" ] idle in
  let th := thumbRun [ Request "m_film" "blob:film" 5; Errored; Timer;
                       Request "m_film" "blob:film" 0 ] t in
  length (capturesOf (cacheKeyOf "m_film" 0) t) = 2%nat
  /\ capturesOf (cacheKeyOf "m_film" 0) th = capturesOf (cacheKeyOf "m_film" 0) t
  /\ length (captures th) = 3%nat
  /\ requestThumbnail "m_film" "blob:film" 0.05 th = th.
Proof.
  intros t th.
  assert (C : cached (cacheKeyOf "m_film" 0) (thumbnailCache t) = true)
    by reflexivity.
  assert (Q : Forall (otherKey (cacheKeyOf "m_film" 0)) (thumbQueue t))
    by constructor.
  assert (F : Forall framed [ Request "m_film" "blob:film" 5; Errored; Timer;
                              Request "m_film" "blob:film" 0 ]).
  { repeat constructor. }
  assert (K : cacheKeyOf "m_film" 0.05 = cacheKeyOf "m_film" 0) by reflexivity.
  destruct (cached_thumbnail_reused (cacheKeyOf "m_film" 0) t _
              "m_film" "blob:film" 0.05 C Q F K) as [_ [_ [A B]]].
  split; [reflexivity|]. split; [exact A|]. split; [reflexivity|exact B].
Defined.

End ScriptHistory.
